(** * pep_tipbot: the ledger of the Pepecoin tip bot

    A shallow embedding of [src/pep_tipbot.py]: the SQLite tables [users]
    and [transfers], the [db_*] accessors, the command handlers
    ([cmd_start], [cmd_deposit], [cmd_balance], [cmd_withdraw],
    [mark_active], [cmd_tip], [cmd_faucet], [cmd_active],
    [cmd_faucetinfo]), one pass of [scanner_loop] and the texts of amounts
    ([fmt_amt]), together with the fragment of Python's [decimal] module
    the program computes with ([getcontext().prec = 18], rounding
    ROUND_HALF_EVEN, [str(Decimal)] and [Decimal(text)]).

    Conventions.
    - Amounts are Python [Decimal]s: a signed integer coefficient and an
      exponent, value [coef * 10 ^ dexp].  Arithmetic results are rounded
      to the 18 significant digits of the context, as in the program.
      Exponents are assumed to stay inside the context's range
      (Emin = -999999, Emax = 999999); the sign of a zero is not tracked.
    - The wallet node is an environment: every handler receives the answer
      the node would give and the world records the requests made.
    - The clock is read once per handler invocation: every [now()] inside
      an accessor or a query is the invocation's reading.  The body of
      [cmd_faucet] calls [now()] three times itself, for its test, for the
      waiting time and for the time of the claim: these are three
      readings.
    - The amount of a [sendtoaddress] request is [float(send_amount)].
      Binary floating point is not interpreted: the model keeps the decimal
      the float is made of ([float_of]).
    - Every accessor commits, so a handler that raises keeps the writes it
      has done; it ends with [Raised].  The confirmations are formatted
      after the writes, and [fmt_amt] can raise.
    - An operation names the handler that runs; which handler the aiogram
      dispatcher selects for a message is outside the model, and so is the
      splitting of a message into its arguments ([parse_tip_args]).
    - A reply is its kind with the values it shows.  Of the texts the model
      has the amounts ([fmt_amt]), the faucet period and the list of
      [/active]; texts are strings of ASCII characters.
    - A handler runs without interruption up to its reply (its wallet calls
      block).  The scanner awaits the notification after each credit, so
      other handlers may run between two rows of a pass; the operation
      sequences below take a pass as one operation, and
      [stale_snapshot_loses_a_withdrawal] shows what an interleaving does. *)

From Stdlib Require Import ZArith List Bool String Ascii Lia Permutation
  Sorted.
Import ListNotations.
Open Scope Z_scope.

(* ===================================================================== *)
(** * Python's [decimal] arithmetic at precision 18 *)
(* ===================================================================== *)

Module Dec.

Record decimal : Type := mk { coef : Z; dexp : Z }.

(** [getcontext().prec = 18] *)
Definition prec : Z := 18.

Definition of_Z (n : Z) : decimal := mk n 0.
Definition zero : decimal := of_Z 0.

(** Number of decimal digits of a non-negative coefficient, [len(str(c))];
    zero has one digit. *)
Fixpoint ndigits_aux (fuel : nat) (c : Z) : Z :=
  match fuel with
  | O => 1
  | S f => if c <? 10 then 1 else 1 + ndigits_aux f (c / 10)
  end.

Definition ndigits (c : Z) : Z :=
  ndigits_aux (Z.to_nat (Z.log2 (Z.abs c))) (Z.abs c).

(** ROUND_HALF_EVEN removal of the [drop] low digits of [c >= 0]. *)
Definition round_half_even (c drop : Z) : Z :=
  let p := 10 ^ drop in
  let q := c / p in
  let r := c mod p in
  if (p <? 2 * r) || ((p =? 2 * r) && Z.odd q) then q + 1 else q.

(** [Decimal._fix]: round to the context precision. *)
Definition fix_ctx (d : decimal) : decimal :=
  let n := ndigits (coef d) in
  if n <=? prec then d
  else
    let drop := n - prec in
    let q := round_half_even (Z.abs (coef d)) drop in
    if q =? 10 ^ prec
    then mk (Z.sgn (coef d) * 10 ^ (prec - 1)) (dexp d + drop + 1)
    else mk (Z.sgn (coef d) * q) (dexp d + drop).

(** Coefficients of two decimals brought to the smaller exponent. *)
Definition align_l (x y : decimal) : Z :=
  coef x * 10 ^ (dexp x - Z.min (dexp x) (dexp y)).
Definition align_r (x y : decimal) : Z :=
  coef y * 10 ^ (dexp y - Z.min (dexp x) (dexp y)).

(** Comparisons are exact. *)
Definition ltb (x y : decimal) : bool := align_l x y <? align_r x y.
Definition leb (x y : decimal) : bool := align_l x y <=? align_r x y.
Definition eqb (x y : decimal) : bool := align_l x y =? align_r x y.

Definition neg (x : decimal) : decimal := mk (- coef x) (dexp x).

(** [x + y], [x - y], [x * y] in the context. *)
Definition add (x y : decimal) : decimal :=
  fix_ctx (mk (align_l x y + align_r x y) (Z.min (dexp x) (dexp y))).
Definition sub (x y : decimal) : decimal := add x (neg y).
Definition mul (x y : decimal) : decimal :=
  fix_ctx (mk (coef x * coef y) (dexp x + dexp y)).

(** The loop of [__truediv__] that moves an exact quotient towards the
    ideal exponent. *)
Fixpoint strip_zeros (fuel : nat) (c e ideal : Z) : Z * Z :=
  match fuel with
  | O => (c, e)
  | S f =>
      if (e <? ideal) && (c mod 10 =? 0)
      then strip_zeros f (c / 10) (e + 1) ideal
      else (c, e)
  end.

(** [x / y] in the context; [None] is the trapped DivisionByZero or
    InvalidOperation signal. *)
Definition div (x y : decimal) : option decimal :=
  if coef y =? 0 then None
  else if coef x =? 0 then Some (fix_ctx (mk 0 (dexp x - dexp y)))
  else
    let a := Z.abs (coef x) in
    let b := Z.abs (coef y) in
    let s := Z.sgn (coef x) * Z.sgn (coef y) in
    let shift := ndigits b - ndigits a + prec + 1 in
    let e := dexp x - dexp y - shift in
    let q := if 0 <=? shift then (a * 10 ^ shift) / b
             else a / (b * 10 ^ (- shift)) in
    let r := if 0 <=? shift then (a * 10 ^ shift) mod b
             else a mod (b * 10 ^ (- shift)) in
    let '(q', e') :=
      if r =? 0 then strip_zeros (Z.to_nat shift) q e (dexp x - dexp y)
      else (if q mod 5 =? 0 then q + 1 else q, e) in
    Some (fix_ctx (mk (s * q') e')).

(** [x.quantize(Decimal(10) ** e, rounding=ROUND_DOWN)]; [None] is the
    trapped InvalidOperation raised when the result would need more than
    [prec] digits. *)
Definition quantize_down (x : decimal) (e : Z) : option decimal :=
  if coef x =? 0 then Some (mk 0 e)
  else if prec <? ndigits (coef x) + dexp x - e then None
  else
    let c := if e <=? dexp x then coef x * 10 ^ (dexp x - e)
             else Z.quot (coef x) (10 ^ (e - dexp x)) in
    if prec <? ndigits c then None else Some (mk c e).

End Dec.

Import Dec.

(* ===================================================================== *)
(** * Texts of amounts: [str(Decimal)] and [fmt_amt] *)
(* ===================================================================== *)

(** The character of one decimal digit. *)
Definition digit_char (n : Z) : ascii := ascii_of_nat (48 + Z.to_nat n).

(** The [k] low decimal digits of [c >= 0], most significant first. *)
Fixpoint low_digits (k : nat) (c : Z) : string :=
  match k with
  | O => EmptyString
  | S k' => append (low_digits k' (c / 10))
                   (String (digit_char (c mod 10)) EmptyString)
  end.

(** [str(c)] for an integer [c >= 0]: the digits of a coefficient
    ([self._int]). *)
Definition digits (c : Z) : string := low_digits (Z.to_nat (ndigits c)) c.

(** ['0' * k] *)
Fixpoint zeros (k : nat) : string :=
  match k with
  | O => EmptyString
  | S k' => String "0" (zeros k')
  end.

(** [s[:n]] and [s[n:]] *)
Fixpoint take (n : nat) (s : string) : string :=
  match n, s with
  | S n', String c r => String c (take n' r)
  | _, _ => EmptyString
  end.

Fixpoint drop (n : nat) (s : string) : string :=
  match n, s with
  | S n', String _ r => drop n' r
  | _, _ => s
  end.

(** ["%+d" % n] *)
Definition signed (n : Z) : string :=
  if n <? 0 then String "-" (digits (- n)) else String "+" (digits n).

(** [Decimal.__str__] on a sign, a coefficient [c >= 0] and an exponent:
    scientific notation as the General Decimal Arithmetic specification
    defines it, with the capital [E] of the default context. *)
Definition str_of (negative : bool) (c e : Z) : string :=
  let sign := if negative then "-"%string else ""%string in
  let int := digits c in
  let len := ndigits c in
  let leftdigits := e + len in
  let dotplace :=
    if (e <=? 0) && (-6 <? leftdigits) then leftdigits else 1 in
  let intpart :=
    if dotplace <=? 0 then "0"%string
    else if len <=? dotplace
         then append int (zeros (Z.to_nat (dotplace - len)))
         else take (Z.to_nat dotplace) int in
  let fracpart :=
    if dotplace <=? 0
    then String "." (append (zeros (Z.to_nat (- dotplace))) int)
    else if len <=? dotplace then ""%string
         else String "." (drop (Z.to_nat dotplace) int) in
  let exp :=
    if leftdigits =? dotplace then ""%string
    else String "E" (signed (leftdigits - dotplace)) in
  append sign (append intpart (append fracpart exp)).

(** [str(d)] *)
Definition to_str (d : decimal) : string :=
  str_of (coef d <? 0) (Z.abs (coef d)) (dexp d).

(** [c in s] for a one-character [c] *)
Fixpoint contains (c : ascii) (s : string) : bool :=
  match s with
  | EmptyString => false
  | String a r => Ascii.eqb a c || contains c r
  end.

(** [s.rstrip(c)] for a one-character [c] *)
Fixpoint rstrip (c : ascii) (s : string) : string :=
  match s with
  | EmptyString => EmptyString
  | String a r =>
      match rstrip c r with
      | EmptyString => if Ascii.eqb a c then EmptyString else String a EmptyString
      | r' => String a r'
      end
  end.

(** A character that is a decimal digit. *)
Definition is_digit (a : ascii) : bool :=
  let n := nat_of_ascii a in ((48 <=? n) && (n <=? 57))%nat.

Fixpoint all_digits (s : string) : bool :=
  match s with
  | EmptyString => true
  | String a r => is_digit a && all_digits r
  end.

(** [fmt_amt]; [None] when [quantize] raises InvalidOperation.  The
    quantized value keeps the sign of [x], also when it is a zero. *)
Definition fmt_amt (x : decimal) : option string :=
  if contains "." (to_str x)
  then match quantize_down x (-8) with
       | None => None
       | Some q =>
           Some (rstrip "." (rstrip "0"
                   (str_of (coef x <? 0) (Z.abs (coef q)) (dexp q))))
       end
  else Some (to_str x).

(* ===================================================================== *)
(** * Storage: the [users] and [transfers] tables *)
(* ===================================================================== *)

(** [kind TEXT, -- deposit|tip|withdraw|faucet] *)
Inductive transfer_kind : Type := Deposit | Tip | Withdraw | Faucet.

Definition kind_eqb (a b : transfer_kind) : bool :=
  match a, b with
  | Deposit, Deposit | Tip, Tip | Withdraw, Withdraw | Faucet, Faucet => true
  | _, _ => false
  end.

(** A row of [users].  [deposit_address] is NULL until assigned;
    [credited_total] and [balance] are stored as exact decimal text. *)
Record user : Type := mkUser {
  tg_id : Z;
  username : string;
  deposit_address : option string;
  credited_total : decimal;
  balance : decimal;
  last_faucet_ts : Z;
  last_active_ts : Z;
  created_ts : Z
}.

(** A row of [transfers]; the AUTOINCREMENT id is the position in the list. *)
Record transfer : Type := mkTransfer {
  kind : transfer_kind;
  from_tg : option Z;
  to_tg : option Z;
  amount : decimal;
  txid : option string;
  ts : Z
}.

(** [float(d)], the number handed to the node by [/withdraw].  The
    conversion to binary floating point is not interpreted: the model keeps
    the decimal that is converted. *)
Inductive pyfloat : Type := float_of (d : decimal).

(** Requests sent to the wallet node through [rpc.call]. *)
Inductive rpc_call : Type :=
| GetNewAddress (label_of : Z)
| GetReceivedByAddress (addr : string) (minconf : Z)
| SendToAddress (addr : string) (amt : pyfloat).

(** The two tables, in rowid order, and the requests made to the node so
    far (the node sees them in this order; [RPC._id] is their number). *)
Record state : Type := mkState {
  users : list user;
  transfers : list transfer;
  rpc_calls : list rpc_call
}.

Definition empty_state : state := mkState [] [] [].

Definition with_users (st : state) (us : list user) : state :=
  mkState us (transfers st) (rpc_calls st).

Definition rpc_request (st : state) (c : rpc_call) : state :=
  mkState (users st) (transfers st) (rpc_calls st ++ [c]).

(** [UPDATE users SET ... WHERE tg_id=?] *)
Definition update_where (id : Z) (f : user -> user) (us : list user)
  : list user :=
  map (fun u => if tg_id u =? id then f u else u) us.

(** [INSERT INTO users]: [tg_id] is the INTEGER PRIMARY KEY, so a table
    scan returns the rows in increasing [tg_id]. *)
Fixpoint insert_row (u : user) (us : list user) : list user :=
  match us with
  | [] => [u]
  | v :: rest =>
      if tg_id u <? tg_id v then u :: us else v :: insert_row u rest
  end.

Definition db_get_user (st : state) (id : Z) : option user :=
  find (fun u => tg_id u =? id) (users st).

Definition set_username_active (name : string) (now : Z) (u : user) : user :=
  mkUser (tg_id u) name (deposit_address u) (credited_total u) (balance u)
         (last_faucet_ts u) now (created_ts u).

(** The row written by [INSERT INTO users(tg_id, username, created_ts,
    last_active_ts)]; the other columns take their defaults. *)
Definition new_user (id : Z) (name : string) (now : Z) : user :=
  mkUser id name None zero zero 0 now now.

Definition db_upsert_user (st : state) (id : Z) (name : string) (now : Z)
  : state :=
  match db_get_user st id with
  | Some _ => with_users st (update_where id (set_username_active name now) (users st))
  | None => with_users st (insert_row (new_user id name now) (users st))
  end.

Definition set_balance (b : decimal) (u : user) : user :=
  mkUser (tg_id u) (username u) (deposit_address u) (credited_total u) b
         (last_faucet_ts u) (last_active_ts u) (created_ts u).

Definition db_update_balance (st : state) (id : Z) (new_balance : decimal)
  : state :=
  with_users st (update_where id (set_balance new_balance) (users st)).

Definition db_add_transfer (st : state) (k : transfer_kind)
    (from to : option Z) (a : decimal) (tx : option string) (now : Z)
  : state :=
  mkState (users st) (transfers st ++ [mkTransfer k from to a tx now])
          (rpc_calls st).

Definition set_address (a : string) (u : user) : user :=
  mkUser (tg_id u) (username u) (Some a) (credited_total u) (balance u)
         (last_faucet_ts u) (last_active_ts u) (created_ts u).

Definition db_set_deposit_address (st : state) (id : Z) (addr : string)
  : state :=
  with_users st (update_where id (set_address addr) (users st)).

Definition set_credited (t : decimal) (u : user) : user :=
  mkUser (tg_id u) (username u) (deposit_address u) t (balance u)
         (last_faucet_ts u) (last_active_ts u) (created_ts u).

Definition db_set_credited_total (st : state) (id : Z) (total : decimal)
  : state :=
  with_users st (update_where id (set_credited total) (users st)).

Definition set_last_faucet (t : Z) (u : user) : user :=
  mkUser (tg_id u) (username u) (deposit_address u) (credited_total u)
         (balance u) t (last_active_ts u) (created_ts u).

Definition db_set_last_faucet (st : state) (id : Z) (t : Z) : state :=
  with_users st (update_where id (set_last_faucet t) (users st)).

Definition set_active (t : Z) (u : user) : user :=
  mkUser (tg_id u) (username u) (deposit_address u) (credited_total u)
         (balance u) (last_faucet_ts u) t (created_ts u).

Definition db_set_active (st : state) (id : Z) (now : Z) : state :=
  with_users st (update_where id (set_active now) (users st)).

(** [SELECT tg_id FROM users WHERE last_active_ts>=?] *)
Definition active_since (st : state) (cutoff : Z) : list Z :=
  map tg_id (filter (fun u => cutoff <=? last_active_ts u) (users st)).

(* ===================================================================== *)
(** * Configuration read from the environment *)
(* ===================================================================== *)

Record config : Type := mkConfig {
  FAUCET_AMOUNT : decimal;
  FAUCET_INTERVAL : Z;
  WITHDRAW_FEE : decimal;
  MIN_CONF : Z;
  ACTIVE_WINDOW : Z
}.

(** The defaults of the [os.getenv] calls: FAUCET_AMOUNT "50",
    FAUCET_INTERVAL_SECONDS "7200", WITHDRAW_FEE "1.0", MIN_CONF "5",
    ACTIVE_WINDOW_SECONDS "1800". *)
Definition default_config : config :=
  mkConfig (mk 50 0) 7200 (mk 10 (-1)) 5 1800.

(* ===================================================================== *)
(** * Handler inputs and replies *)
(* ===================================================================== *)

Inductive chat_type : Type := Private | Group | Supergroup | Channel.

Definition is_private (c : chat_type) : bool :=
  match c with Private => true | _ => false end.

Definition is_group (c : chat_type) : bool :=
  match c with Group | Supergroup => true | _ => false end.

(** What [Decimal(text)] can return: a finite decimal, an infinity or a
    NaN (ordering comparisons on a NaN raise InvalidOperation). *)
Inductive amount_arg : Type :=
| Finite (d : decimal)
| Infinity (negative : bool)
| NaN.

(** [/withdraw]: [None] when the text does not split into two words; the
    amount is [None] when [Decimal(args[0])] raises. *)
Definition withdraw_cmd : Type := option (option amount_arg * string).

(** The result of [parse_tip_args]. *)
Inductive tip_mode : Type := Lucky | Active | Direct (target : string).

Inductive tip_cmd : Type :=
| TipNoArgs
| TipUnparsed
| TipParsed (mode : tip_mode) (amt : amount_arg).

Inductive reply : Type :=
| NoReply
| Raised
| StartText (addr : string)
| DepositText (addr : string)
| BalanceText (b : decimal)
| WithdrawUsage
| InvalidAmount
| InsufficientBalance
| AmountMustExceedFee
| RpcError
| WithdrawalSubmitted (tx : string) (new_bal : decimal)
| UseTipInGroup
| TipUsage
| InvalidArguments
| PleaseStartFirst
| AmountMustBePositive
| TargetNotFound
| NoActiveUsers
| NoActiveUsersToTip
| InsufficientBalanceForSplit
| TippedActive (n : nat) (share : decimal)
| Tipped (a : decimal)
| FaucetAvailableIn (mins : Z)
| FaucetReceived (new_bal : decimal).

(** [str.lower] on the ASCII letters of a Telegram username. *)
Definition lower_ascii (c : ascii) : ascii :=
  let n := nat_of_ascii c in
  if ((65 <=? n) && (n <=? 90))%nat then ascii_of_nat (n + 32) else c.

Fixpoint lower (s : string) : string :=
  match s with
  | EmptyString => EmptyString
  | String c r => String (lower_ascii c) (lower r)
  end.

(* ===================================================================== *)
(** * Handlers *)
(* ===================================================================== *)

Section Handlers.

Variable cfg : config.

(** [get_or_create_deposit_address]; [newaddr] is the node's answer to
    [getnewaddress] ([None]: the call raises). *)
Definition get_or_create_deposit_address (st : state) (id : Z)
    (newaddr : option string) : state * option string :=
  let create :=
    let st1 := rpc_request st (GetNewAddress id) in
    match newaddr with
    | None => (st1, None)
    | Some a => (db_set_deposit_address st1 id a, Some a)
    end in
  match db_get_user st id with
  | Some u =>
      match deposit_address u with
      | Some a => if String.eqb a "" then create else (st, Some a)
      | None => create
      end
  | None => create
  end.

Definition cmd_start (st : state) (now : Z) (chat : chat_type) (uid : Z)
    (uname : string) (newaddr : option string) : state * reply :=
  if negb (is_private chat) then (st, NoReply)
  else
    let st1 := db_upsert_user st uid uname now in
    match get_or_create_deposit_address st1 uid newaddr with
    | (st2, Some a) => (st2, StartText a)
    | (st2, None) => (st2, Raised)
    end.

Definition cmd_deposit (st : state) (now : Z) (chat : chat_type) (uid : Z)
    (uname : string) (newaddr : option string) : state * reply :=
  if negb (is_private chat) then (st, NoReply)
  else
    let st1 := db_upsert_user st uid uname now in
    match get_or_create_deposit_address st1 uid newaddr with
    | (st2, Some a) => (st2, DepositText a)
    | (st2, None) => (st2, Raised)
    end.

Definition cmd_balance (st : state) (now : Z) (chat : chat_type) (uid : Z)
    (uname : string) : state * reply :=
  if negb (is_private chat) then (st, NoReply)
  else
    let st1 := db_upsert_user st uid uname now in
    match db_get_user st1 uid with
    | Some u =>
        (st1, match fmt_amt (balance u) with
              | Some _ => BalanceText (balance u)
              | None => Raised
              end)
    | None => (st1, Raised)
    end.

(** [cmd_withdraw]; [send] is the node's answer to [sendtoaddress]
    ([None]: the call raises).  The request carries [float(send_amount)].
    The confirmation is built after the writes: when [fmt_amt(new_bal)]
    raises, the withdrawal has been carried out and recorded and the handler
    ends without an answer. *)
Definition cmd_withdraw (st : state) (now : Z) (chat : chat_type) (uid : Z)
    (uname : string) (cmd : withdraw_cmd) (send : option string)
  : state * reply :=
  if negb (is_private chat) then (st, NoReply)
  else
    let st1 := db_upsert_user st uid uname now in
    match cmd with
    | None => (st1, WithdrawUsage)
    | Some (None, _) => (st1, InvalidAmount)
    | Some (Some NaN, _) => (st1, InvalidAmount)
    | Some (Some (Infinity true), _) => (st1, InvalidAmount)
    | Some (Some (Infinity false), _) =>
        match db_get_user st1 uid with
        | Some _ => (st1, InsufficientBalance)
        | None => (st1, Raised)
        end
    | Some (Some (Finite amount), address) =>
        if coef amount <=? 0 then (st1, InvalidAmount)
        else
          match db_get_user st1 uid with
          | None => (st1, Raised)
          | Some u =>
              let total_cost := amount in
              if ltb (balance u) total_cost then (st1, InsufficientBalance)
              else
                let send_amount := sub amount (WITHDRAW_FEE cfg) in
                if coef send_amount <=? 0 then (st1, AmountMustExceedFee)
                else
                  let st2 := rpc_request st1
                               (SendToAddress address (float_of send_amount)) in
                  match send with
                  | None => (st2, RpcError)
                  | Some tx =>
                      let new_bal := sub (balance u) total_cost in
                      let st3 := db_update_balance st2 uid new_bal in
                      let st4 := db_add_transfer st3 Withdraw (Some uid) None
                                   amount (Some tx) now in
                      (st4, match fmt_amt new_bal with
                            | Some _ => WithdrawalSubmitted tx new_bal
                            | None => Raised
                            end)
                  end
          end
    end.

(** [mark_active]; [from] is [m.from_user] with its [is_bot] flag. *)
Definition mark_active (st : state) (now : Z) (chat : chat_type)
    (from : option (Z * string * bool)) : state * reply :=
  if negb (is_group chat) then (st, NoReply)
  else
    match from with
    | Some (uid, uname, false) =>
        (db_set_active (db_upsert_user st uid uname now) uid now, NoReply)
    | _ => (st, NoReply)
    end.

(** The direct-mode search: the first row whose username is set and equal
    to the target, case-insensitively. *)
Definition find_by_username (st : state) (uname : string) : option Z :=
  option_map tg_id
    (find (fun u => negb (String.eqb (username u) "")
                    && String.eqb (lower (username u)) uname)
          (users st)).

(** The [else] branch of "Execute tip": one recipient, the whole amount.
    The confirmation is built after the writes and before
    [db_set_active]: when [fmt_amt(amount)] raises, the tip has been carried
    out and recorded, the sender's activity time is not refreshed and the
    handler ends without an answer. *)
Definition tip_single (st : state) (now : Z) (uid : Z) (sender : user)
    (amount : decimal) (rid : Z) : state * reply :=
  let st1 := db_update_balance st uid (sub (balance sender) amount) in
  match db_get_user st1 rid with
  | None => (st1, Raised)
  | Some u =>
      let st2 := db_update_balance st1 rid (add (balance u) amount) in
      let st3 := db_add_transfer st2 Tip (Some uid) (Some rid) amount None now in
      match fmt_amt amount with
      | Some _ => (db_set_active st3 uid now, Tipped amount)
      | None => (st3, Raised)
      end
  end.

(** The loop [for uid in recipients] of the split tip; [false] when a
    recipient row is missing ([u] is [None]). *)
Fixpoint credit_each (st : state) (now : Z) (uid : Z) (share : decimal)
    (recipients : list Z) : state * bool :=
  match recipients with
  | [] => (st, true)
  | rid :: rest =>
      match db_get_user st rid with
      | None => (st, false)
      | Some u =>
          let st1 := db_update_balance st rid (add (balance u) share) in
          let st2 := db_add_transfer st1 Tip (Some uid) (Some rid) share None now in
          credit_each st2 now uid share rest
      end
  end.

(** [share] and [total] of the split tip; [None] when the division or
    the quantize raises. *)
Definition split_share (amount : decimal) (n : nat) : option decimal :=
  match div amount (of_Z (Z.of_nat n)) with
  | None => None
  | Some q => quantize_down q (-8)
  end.

Definition tip_split (st : state) (now : Z) (uid : Z) (sender : user)
    (amount : decimal) (recipients : list Z) : state * reply :=
  match split_share amount (List.length recipients) with
  | None => (st, Raised)
  | Some share =>
      let total := mul share (of_Z (Z.of_nat (List.length recipients))) in
      if ltb (balance sender) total then (st, InsufficientBalanceForSplit)
      else
        let st1 := db_update_balance st uid (sub (balance sender) total) in
        match credit_each st1 now uid share recipients with
        | (st2, true) =>
            match fmt_amt share with
            | Some _ =>
                (db_set_active st2 uid now,
                 TippedActive (List.length recipients) share)
            | None => (st2, Raised)
            end
        | (st2, false) => (st2, Raised)
        end
  end.

(** Active users other than the sender. *)
Definition other_active (st : state) (now : Z) (uid : Z) : list Z :=
  filter (fun r => negb (r =? uid))
         (active_since st (now - ACTIVE_WINDOW cfg)).

(** [cmd_tip]; [choice] drives [random.choice]. *)
Definition cmd_tip (st : state) (now : Z) (chat : chat_type) (uid : Z)
    (cmd : tip_cmd) (choice : nat) : state * reply :=
  if negb (is_group chat) then (st, UseTipInGroup)
  else
    match cmd with
    | TipNoArgs => (st, TipUsage)
    | TipUnparsed => (st, InvalidArguments)
    | TipParsed mode amt =>
        match db_get_user st uid with
        | None => (st, PleaseStartFirst)
        | Some sender =>
            match amt with
            | NaN => (st, Raised)
            | Infinity true => (st, AmountMustBePositive)
            | Infinity false => (st, InsufficientBalance)
            | Finite amount =>
                if coef amount <=? 0 then (st, AmountMustBePositive)
                else if ltb (balance sender) amount
                then (st, InsufficientBalance)
                else
                  match mode with
                  | Direct target =>
                      match find_by_username st (lower target) with
                      | None => (st, TargetNotFound)
                      | Some rid => tip_single st now uid sender amount rid
                      end
                  | Active =>
                      match other_active st now uid with
                      | [] => (st, NoActiveUsers)
                      | recipients =>
                          tip_split st now uid sender amount recipients
                      end
                  | Lucky =>
                      match other_active st now uid with
                      | [] => (st, NoActiveUsersToTip)
                      | c :: rest =>
                          let candidates := c :: rest in
                          let rid := nth (Nat.modulo choice (List.length candidates))
                                         candidates c in
                          tip_single st now uid sender amount rid
                      end
                  end
            end
        end
    end.

(** [cmd_faucet].  Its body reads the clock three times: [now] in the
    test, [at_wait] where the waiting time is computed and [at_claim] where
    the time of the claim is stored.  The confirmation is built after the
    writes: when [fmt_amt] raises on [FAUCET_AMOUNT] or on the new balance,
    the claim has been carried out and recorded and the handler ends
    without an answer. *)
Definition cmd_faucet (st : state) (now at_wait at_claim : Z) (uid : Z)
    (uname : string) : state * reply :=
  let st1 := db_upsert_user st uid uname now in
  match db_get_user st1 uid with
  | None => (st1, Raised)
  | Some u =>
      if now - last_faucet_ts u <? FAUCET_INTERVAL cfg
      then
        let wait := FAUCET_INTERVAL cfg - (at_wait - last_faucet_ts u) in
        (st1, FaucetAvailableIn (wait / 60))
      else
        let new_bal := add (balance u) (FAUCET_AMOUNT cfg) in
        let st2 := db_update_balance st1 uid new_bal in
        let st3 := db_set_last_faucet st2 uid at_claim in
        let st4 := db_add_transfer st3 Faucet None (Some uid)
                     (FAUCET_AMOUNT cfg) None now in
        (st4, match fmt_amt (FAUCET_AMOUNT cfg), fmt_amt new_bal with
              | Some _, Some _ => FaucetReceived new_bal
              | _, _ => Raised
              end)
  end.

(** ** The deposit scanner *)

(** A row of [SELECT tg_id, deposit_address, credited_total, balance FROM
    users WHERE deposit_address IS NOT NULL], fetched when a pass starts. *)
Record scan_row : Type := mkRow {
  row_id : Z;
  row_addr : string;
  row_credited : decimal;
  row_balance : decimal
}.

Definition scan_rows (st : state) : list scan_row :=
  flat_map (fun u =>
              match deposit_address u with
              | Some a => [mkRow (tg_id u) a (credited_total u) (balance u)]
              | None => []
              end)
           (users st).

(** The [if total_recv > credited_total:] block. *)
Definition apply_credit (st : state) (now : Z) (r : scan_row)
    (total_recv : decimal) : state :=
  if ltb (row_credited r) total_recv then
    let diff := sub total_recv (row_credited r) in
    let new_bal := add (row_balance r) diff in
    let st1 := db_update_balance st (row_id r) new_bal in
    let st2 := db_set_credited_total st1 (row_id r) total_recv in
    db_add_transfer st2 Deposit None (Some (row_id r)) diff None now
  else st.

(** The body of the [for] loop; [recv] is the node's answer to
    [getreceivedbyaddress] for that row ([None]: the call raises and the
    row is skipped). *)
Definition scan_step (recv : Z -> string -> option decimal) (now : Z)
    (st : state) (r : scan_row) : state :=
  let st1 := rpc_request st (GetReceivedByAddress (row_addr r) (MIN_CONF cfg)) in
  match recv (row_id r) (row_addr r) with
  | None => st1
  | Some total_recv => apply_credit st1 now r total_recv
  end.

(** One pass of [scanner_loop]. *)
Definition scanner_pass (st : state) (now : Z)
    (recv : Z -> string -> option decimal) : state :=
  fold_left (scan_step recv now) (scan_rows st) st.

(** ** Operation sequences *)

Inductive op : Type :=
| OpStart (chat : chat_type) (uid : Z) (uname : string) (newaddr : option string)
| OpDeposit (chat : chat_type) (uid : Z) (uname : string) (newaddr : option string)
| OpBalance (chat : chat_type) (uid : Z) (uname : string)
| OpWithdraw (chat : chat_type) (uid : Z) (uname : string)
             (cmd : withdraw_cmd) (send : option string)
| OpMessage (chat : chat_type) (from : option (Z * string * bool))
| OpTip (chat : chat_type) (uid : Z) (cmd : tip_cmd) (choice : nat)
| OpFaucet (uid : Z) (uname : string) (at_wait at_claim : Z)
| OpScan (recv : Z -> string -> option decimal).

(** One handler invocation at clock reading [now]. *)
Definition step (st : state) (ev : Z * op) : state * reply :=
  let now := fst ev in
  match snd ev with
  | OpStart chat uid uname newaddr => cmd_start st now chat uid uname newaddr
  | OpDeposit chat uid uname newaddr => cmd_deposit st now chat uid uname newaddr
  | OpBalance chat uid uname => cmd_balance st now chat uid uname
  | OpWithdraw chat uid uname cmd send => cmd_withdraw st now chat uid uname cmd send
  | OpMessage chat from => mark_active st now chat from
  | OpTip chat uid cmd choice => cmd_tip st now chat uid cmd choice
  | OpFaucet uid uname at_wait at_claim =>
      cmd_faucet st now at_wait at_claim uid uname
  | OpScan recv => (scanner_pass st now recv, NoReply)
  end.

Definition run_from (st : state) (evs : list (Z * op)) : state :=
  fold_left (fun s ev => fst (step s ev)) evs st.

(** The state after a sequence of operations on the empty ledger. *)
Definition run (evs : list (Z * op)) : state := run_from empty_state evs.

End Handlers.

(* ===================================================================== *)
(** * Vocabulary of the ledger properties *)
(* ===================================================================== *)

(** The amount of [d] in units of 10^-8 coin; it is the value of [d] when
    [d] has at most eight decimal places. *)
Definition units (d : decimal) : Z := coef d * 10 ^ (dexp d + 8).

Definition eight_dp (d : decimal) : Prop := -8 <= dexp d.

Definition sumZ (l : list Z) : Z := fold_right Z.add 0 l.

(** [sum(balances)] *)
Definition sum_balances (st : state) : Z :=
  sumZ (map (fun u => units (balance u)) (users st)).

Definition of_kind (k : transfer_kind) (st : state) : list transfer :=
  filter (fun t => kind_eqb (kind t) k) (transfers st).

(** The sum of the recorded amounts of the transfers of one kind. *)
Definition sum_kind (k : transfer_kind) (st : state) : Z :=
  sumZ (map (fun t => units (amount t)) (of_kind k st)).

(** The fees charged: one [WITHDRAW_FEE] per recorded withdrawal. *)
Definition fees_charged (cfg : config) (st : state) : Z :=
  Z.of_nat (List.length (of_kind Withdraw st)) * units (WITHDRAW_FEE cfg).

(** Everything ever credited from outside: deposits and faucet claims. *)
Definition issued (st : state) : Z := sum_kind Deposit st + sum_kind Faucet st.

(** Conservation as the specification words it. *)
Definition conservation_with_fees (cfg : config) (st : state) : Prop :=
  sum_balances st =
  sum_kind Deposit st + sum_kind Faucet st - sum_kind Withdraw st
  - fees_charged cfg st.

(** Conservation as the ledger keeps it: a withdraw record carries the
    full debited amount, fee included. *)
Definition conservation (st : state) : Prop :=
  sum_balances st =
  sum_kind Deposit st + sum_kind Faucet st - sum_kind Withdraw st.

(** Amounts entering an operation have at most eight decimal places. *)
Definition arg_8dp (a : amount_arg) : Prop :=
  match a with Finite d => eight_dp d | _ => True end.

Definition op_8dp (o : op) : Prop :=
  match o with
  | OpWithdraw _ _ _ (Some (Some a, _)) _ => arg_8dp a
  | OpTip _ _ (TipParsed _ a) _ => arg_8dp a
  | OpScan recv => forall id addr t, recv id addr = Some t -> eight_dp t
  | _ => True
  end.

(** The row of a scanner snapshot is still what the table holds. *)
Definition row_current (st : state) (r : scan_row) : Prop :=
  exists u, db_get_user st (row_id r) = Some u /\
            deposit_address u = Some (row_addr r) /\
            credited_total u = row_credited r /\
            balance u = row_balance r.

(** The row the scanner fetches for a user with a deposit address. *)
Definition row_of (u : user) (addr : string) : scan_row :=
  mkRow (tg_id u) addr (credited_total u) (balance u).

(** The columns of the row of [id]; a row that does not exist yet reads as
    the defaults its INSERT would write. *)
Definition stored_balance (st : state) (id : Z) : decimal :=
  match db_get_user st id with Some u => balance u | None => zero end.

Definition stored_credited (st : state) (id : Z) : decimal :=
  match db_get_user st id with Some u => credited_total u | None => zero end.

Definition stored_last_faucet (st : state) (id : Z) : Z :=
  match db_get_user st id with Some u => last_faucet_ts u | None => 0 end.

Definition stored_address (st : state) (id : Z) : option string :=
  match db_get_user st id with Some u => deposit_address u | None => None end.

(** The ledger columns and the transfer log of [st'] are those of [st]. *)
Definition ledger_untouched (st st' : state) : Prop :=
  transfers st' = transfers st /\
  forall k, stored_balance st' k = stored_balance st k /\
            stored_credited st' k = stored_credited st k.

(** Every [UPDATE ... WHERE tg_id=?] leaves the key column alone. *)
Definition keeps_id (f : user -> user) : Prop := forall u, tg_id (f u) = tg_id u.

Definition balances_nonneg (st : state) : Prop :=
  Forall (fun u => 0 <= coef (balance u)) (users st).

(** Amounts the ledger holds without rounding questions: at most eight
    decimals and not negative. *)
Definition amount_ok (d : decimal) : Prop := eight_dp d /\ 0 <= coef d.

(** Well-formed tables: [tg_id] is a key, every stored amount has at most
    eight decimals and no balance or recorded amount is negative. *)
Record ledger_wf (st : state) : Prop := mkWf {
  wf_key : NoDup (map tg_id (users st));
  wf_rows : Forall (fun u => amount_ok (balance u) /\ eight_dp (credited_total u))
                   (users st);
  wf_log : Forall (fun t => amount_ok (amount t)) (transfers st)
}.

(** The invariant of the ledger: well-formed tables that balance. *)
Definition ledger_inv (st : state) : Prop := ledger_wf st /\ conservation st.

(** 10^18 units, that is 10^10 coins: below it an amount of at most eight
    decimals fits the 18 digits of the context. *)
Definition bound : Z := 10 ^ 18.

(** The tip record written for one recipient of a tip. *)
Definition tip_record (uid : Z) (share : decimal) (now : Z) (rid : Z) : transfer :=
  mkTransfer Tip (Some uid) (Some rid) share None now.

(** The watermark of the row already covers the node's reading. *)
Definition row_settled (recv : Z -> string -> option decimal) (r : scan_row)
  : Prop :=
  forall t, recv (row_id r) (row_addr r) = Some t -> ltb (row_credited r) t = false.

(** The two tables, without the requests made to the node. *)
Definition ledger_of (st : state) : list user * list transfer :=
  (users st, transfers st).

(* ===================================================================== *)
(** * Scenarios *)
(* ===================================================================== *)

(** Alice has deposited 50, Bob and Carol have started; all three were
    active at time 100. *)
Definition alice : user :=
  mkUser 1 "alice" (Some "addrA"%string) (mk 50 0) (mk 50 0) 0 100 100.
Definition bob : user := mkUser 2 "bob" None zero zero 0 100 100.
Definition carol : user := mkUser 3 "carol" None zero zero 0 100 100.

Definition funded_state : state :=
  mkState [alice; bob; carol]
          [mkTransfer Deposit None (Some 1) (mk 50 0) None 90] [].

Definition wallet_reports_50 (id : Z) (addr : string) : option decimal :=
  Some (mk 50 0).

(** Alice starts, the scanner sees 50 confirmed, Alice withdraws 5. *)
Definition deposit_then_withdraw : list (Z * op) :=
  [ (100, OpStart Private 1 "alice" (Some "addrA"%string));
    (110, OpScan wallet_reports_50);
    (120, OpWithdraw Private 1 "alice"
            (Some (Some (Finite (mk 5 0)), "dest"%string)) (Some "tx1"%string)) ].

(** 0.999999999999999999 *)
Definition eighteen_nines : decimal := mk 999999999999999999 (-18).

(** Dave has no confirmed receipt yet, Erin has deposited 10; the node now
    reports 5 for Dave and 15 for Erin. *)
Definition dave : user := mkUser 4 "dave" (Some "addrD"%string) zero zero 0 100 100.
Definition erin : user :=
  mkUser 5 "erin" (Some "addrE"%string) (mk 10 0) (mk 10 0) 0 100 100.

Definition two_depositors : state :=
  mkState [dave; erin]
          [mkTransfer Deposit None (Some 5) (mk 10 0) None 90] [].

Definition wallet_reports_5_and_15 (id : Z) (addr : string) : option decimal :=
  if id =? 4 then Some (mk 5 0) else Some (mk 15 0).

(** A pass credits Dave's row; while it awaits the notification Erin
    withdraws 10; the pass then credits Erin's row from its snapshot. *)
Definition interleaved_pass : state :=
  let s1 := scan_step default_config wallet_reports_5_and_15 200
              two_depositors (row_of dave "addrD") in
  let s2 := fst (cmd_withdraw default_config s1 201 Private 5 "erin"
                   (Some (Some (Finite (mk 10 0)), "dest"%string))
                   (Some "tx9"%string)) in
  scan_step default_config wallet_reports_5_and_15 202 s2 (row_of erin "addrE").

(* ===================================================================== *)
(** * The faucet period *)
(* ===================================================================== *)

(** The period that [HELP_TEXT] and the answer of [cmd_faucet] announce:
    [FAUCET_INTERVAL//3600 if FAUCET_INTERVAL%3600==0 else
    FAUCET_INTERVAL//60], followed by ['hours' if FAUCET_INTERVAL>=3600 else
    'minutes']. *)
Inductive period_unit : Type := Hours | Minutes.

Definition faucet_period (cfg : config) : Z * period_unit :=
  (if FAUCET_INTERVAL cfg mod 3600 =? 0
   then FAUCET_INTERVAL cfg / 3600 else FAUCET_INTERVAL cfg / 60,
   if 3600 <=? FAUCET_INTERVAL cfg then Hours else Minutes).

(** The announced period in seconds. *)
Definition period_seconds (p : Z * period_unit) : Z :=
  match snd p with
  | Hours => fst p * 3600
  | Minutes => fst p * 60
  end.

(** The texts of the amounts of less than a hundred units, exponent by
    exponent. *)
Definition small_amount_texts_have_exponent : bool :=
  forallb
    (fun e =>
       forallb
         (fun c =>
            let x := mk (Z.of_nat c) (- Z.of_nat e) in
            (100 <=? units x) ||
            match fmt_amt x with
            | Some s => contains "E" s
            | None => false
            end)
         (seq 0 100))
    (seq 1 8).

(* ===================================================================== *)
(** * The informational handlers *)
(* ===================================================================== *)

(** [ORDER BY last_active_ts DESC]: rows of equal [last_active_ts] come out
    in table order, as SQLite's sorter leaves them. *)
Fixpoint insert_desc (u : user) (l : list user) : list user :=
  match l with
  | [] => [u]
  | v :: r =>
      if last_active_ts v <=? last_active_ts u then u :: l
      else v :: insert_desc u r
  end.

Definition order_by_active_desc (l : list user) : list user :=
  fold_right insert_desc [] l.

(** The order of [/active]: most recently active first. *)
Definition later_first (a b : user) : Prop :=
  last_active_ts b <= last_active_ts a.

(** [", ".join(l)] *)
Fixpoint join (sep : string) (l : list string) : string :=
  match l with
  | [] => EmptyString
  | [s] => s
  | s :: r => append s (append sep (join sep r))
  end.

Inductive active_reply : Type :=
| ActiveNoReply
| NoActiveUsersRecently
| ActiveUsersText (text : string).

Section InfoHandlers.

Variable cfg : config.

(** The rows [cmd_active] lists: the active users whose username is set,
    most recently active first, cut after 50 ([users[:50]]). *)
Definition active_listing (st : state) (now : Z) : list user :=
  firstn 50
    (filter (fun u => negb (String.eqb (username u) ""))
       (order_by_active_desc
          (filter (fun u => now - ACTIVE_WINDOW cfg <=? last_active_ts u)
                  (users st)))).

Definition cmd_active (st : state) (now : Z) (chat : chat_type)
  : active_reply :=
  if negb (is_group chat) then ActiveNoReply
  else
    match active_listing st now with
    | [] => NoActiveUsersRecently
    | rows =>
        ActiveUsersText
          (append "Active users (last 30 minutes):"
             (String "010"
                (join ", " (map (fun u => String "@" (username u)) rows))))
    end.

(** Requests of the faucet helpers to the wallet node. *)
Inductive faucet_call : Type :=
| NewFaucetAddress
| ReceivedByAddress (addr : string) (minconf : Z).

(** [faucet_address]; [a] is the node's answer to [getnewaddress]. *)
Definition faucet_address (a : option string)
  : list faucet_call * option string :=
  ([NewFaucetAddress], a).

(** [query_received_confirmed]; [recv] is the node's answer to
    [getreceivedbyaddress] for an address. *)
Definition query_received_confirmed (addr : string) (minconf : Z)
    (recv : string -> option decimal) : list faucet_call * option decimal :=
  ([ReceivedByAddress addr minconf], recv addr).

Definition faucet_balance_confirmed (minconf : Z) (a : option string)
    (recv : string -> option decimal) : list faucet_call * option decimal :=
  match faucet_address a with
  | (calls, None) => (calls, None)
  | (calls, Some addr) =>
      let '(calls', bal) := query_received_confirmed addr minconf recv in
      (calls ++ calls', bal)
  end.

Inductive faucetinfo_reply : Type :=
| FaucetInfoNoReply
| FaucetInfoRpcError
| FaucetInfoRaised
| FaucetInfoText (addr : string) (bal : string).

(** [cmd_faucetinfo]; [a1] and [a2] are the node's answers to the first and
    to the second [getnewaddress] request. *)
Definition cmd_faucetinfo (chat : chat_type) (a1 a2 : option string)
    (recv : string -> option decimal) : list faucet_call * faucetinfo_reply :=
  if negb (is_group chat) then ([], FaucetInfoNoReply)
  else
    match faucet_address a1 with
    | (calls, None) => (calls, FaucetInfoRpcError)
    | (calls, Some addr) =>
        match faucet_balance_confirmed (MIN_CONF cfg) a2 recv with
        | (calls', None) => (calls ++ calls', FaucetInfoRpcError)
        | (calls', Some bal) =>
            match fmt_amt bal with
            | None => (calls ++ calls', FaucetInfoRaised)
            | Some text => (calls ++ calls', FaucetInfoText addr text)
            end
        end
    end.

End InfoHandlers.

(* ===================================================================== *)
(** * Vocabulary of the run and scanner properties *)
(* ===================================================================== *)

(** The row a scanner pass leaves for [u]: credited with the excess of the
    node's reading over the watermark, or left alone. *)
Definition credited_user (recv : Z -> string -> option decimal) (u : user)
  : user :=
  match deposit_address u with
  | None => u
  | Some a =>
      match recv (tg_id u) a with
      | None => u
      | Some t =>
          if ltb (credited_total u) t
          then set_credited t
                 (set_balance (add (balance u) (sub t (credited_total u))) u)
          else u
      end
  end.

(** The deposit record a scanner pass writes for [u], if any. *)
Definition deposit_record (recv : Z -> string -> option decimal) (now : Z)
    (u : user) : list transfer :=
  match deposit_address u with
  | None => []
  | Some a =>
      match recv (tg_id u) a with
      | None => []
      | Some t =>
          if ltb (credited_total u) t
          then [mkTransfer Deposit None (Some (tg_id u))
                  (sub t (credited_total u)) None now]
          else []
      end
  end.

(** The request a scanner pass sends for a row. *)
Definition scan_request (cfg : config) (r : scan_row) : rpc_call :=
  GetReceivedByAddress (row_addr r) (MIN_CONF cfg).

(** The columns a transfer record fills, by kind: deposits and faucet
    claims have a receiver only, tips a sender and a receiver, withdrawals a
    sender and the transaction id. *)
Definition record_shape (t : transfer) : Prop :=
  match kind t with
  | Deposit | Faucet => from_tg t = None /\ to_tg t <> None /\ txid t = None
  | Tip => from_tg t <> None /\ to_tg t <> None /\ txid t = None
  | Withdraw => from_tg t <> None /\ to_tg t = None /\ txid t <> None
  end.

Definition party_exists (st : state) (p : option Z) : Prop :=
  match p with
  | Some id => In id (map tg_id (users st))
  | None => True
  end.

(** The amount a record may carry, by kind. *)
Definition record_amount (cfg : config) (t : transfer) : Prop :=
  match kind t with
  | Deposit | Withdraw => 0 < coef (amount t)
  | Tip => 0 <= coef (amount t)
  | Faucet => amount t = FAUCET_AMOUNT cfg
  end.

(** A withdraw record is backed by a request to send the net amount. *)
Definition record_backed (cfg : config) (st : state) (t : transfer) : Prop :=
  kind t = Withdraw ->
  exists addr,
    In (SendToAddress addr (float_of (sub (amount t) (WITHDRAW_FEE cfg))))
       (rpc_calls st).

Definition record_ok (cfg : config) (st : state) (t : transfer) : Prop :=
  record_shape t /\ party_exists st (from_tg t) /\ party_exists st (to_tg t) /\
  record_amount cfg t /\ record_backed cfg st t.

(** ** What a run keeps *)

(** The transfer log and the log of wallet requests only grow. *)
Definition logs_extend (st st' : state) : Prop :=
  (exists ts, transfers st' = transfers st ++ ts) /\
  (exists cs, rpc_calls st' = rpc_calls st ++ cs).

(** An account that exists keeps existing, under the same [tg_id] and with
    the same [created_ts]. *)
Definition accounts_kept (st st' : state) : Prop :=
  forall id u, db_get_user st id = Some u ->
    exists u', db_get_user st' id = Some u' /\ created_ts u' = created_ts u.

(** A deposit address that is set is kept. *)
Definition address_kept (st st' : state) : Prop :=
  forall id a, stored_address st id = Some a -> a <> EmptyString ->
               stored_address st' id = Some a.

(** Unique ids stay unique. *)
Definition key_kept (st st' : state) : Prop :=
  NoDup (map tg_id (users st)) -> NoDup (map tg_id (users st')).

(** No watermark goes down. *)
Definition watermarks_rise (st st' : state) : Prop :=
  NoDup (map tg_id (users st)) ->
  NoDup (map tg_id (users st')) /\
  forall id, leb (stored_credited st id) (stored_credited st' id) = true.

(** Every write but the scanner's leaves the watermarks alone. *)
Definition watermarks_same (st st' : state) : Prop :=
  forall id, stored_credited st' id = stored_credited st id.

(** [st'] knows every account and every wallet request of [st]. *)
Definition grown (st st' : state) : Prop :=
  (forall id, In id (map tg_id (users st)) -> In id (map tg_id (users st'))) /\
  (forall c, In c (rpc_calls st) -> In c (rpc_calls st')).

(** [st'] extends the log of [st] by well-formed records. *)
Definition records_added (cfg : config) (st st' : state) : Prop :=
  grown st st' /\
  exists ts, transfers st' = transfers st ++ ts /\ Forall (record_ok cfg st') ts.

(** No request to the wallet node is added. *)
Definition same_requests (st st' : state) : Prop := rpc_calls st' = rpc_calls st.

(* ===================================================================== *)
(** * Reading amounts: [Decimal(text)] *)
(* ===================================================================== *)

(** The characters [str.strip()] removes, among the ASCII ones: tab to
    carriage return, the four separators and the space. *)
Definition is_blank (a : ascii) : bool :=
  let n := nat_of_ascii a in
  (((9 <=? n) && (n <=? 13)) || ((28 <=? n) && (n <=? 32)))%nat.

Fixpoint lstrip_blanks (s : string) : string :=
  match s with
  | EmptyString => EmptyString
  | String a r => if is_blank a then lstrip_blanks r else s
  end.

Fixpoint rstrip_blanks (s : string) : string :=
  match s with
  | EmptyString => EmptyString
  | String a r =>
      match rstrip_blanks r with
      | EmptyString => if is_blank a then EmptyString else String a EmptyString
      | r' => String a r'
      end
  end.

(** [s.strip()] *)
Definition strip (s : string) : string := lstrip_blanks (rstrip_blanks s).

(** [s.replace("_", "")] *)
Fixpoint remove_underscores (s : string) : string :=
  match s with
  | EmptyString => EmptyString
  | String a r =>
      if Ascii.eqb a "_" then remove_underscores r
      else String a (remove_underscores r)
  end.

(** The longest prefix of digits, and the rest. *)
Fixpoint span_digits (s : string) : string * string :=
  match s with
  | EmptyString => (EmptyString, EmptyString)
  | String a r =>
      if is_digit a
      then let '(d, t) := span_digits r in (String a d, t)
      else (EmptyString, s)
  end.

Definition digit_value (a : ascii) : Z := Z.of_nat (nat_of_ascii a) - 48.

(** [int(s)] for a string of digits, continuing from [acc]. *)
Fixpoint int_of (acc : Z) (s : string) : Z :=
  match s with
  | EmptyString => acc
  | String a r => int_of (10 * acc + digit_value a) r
  end.

(** An optional sign. *)
Definition split_sign (s : string) : bool * string :=
  match s with
  | String "-" r => (true, r)
  | String "+" r => (false, r)
  | _ => (false, s)
  end.

(** The exponent part up to the end of the text: nothing, or [E] or [e],
    an optional sign and at least one digit. *)
Definition exponent_of (s : string) : option Z :=
  match s with
  | EmptyString => Some 0
  | String c r =>
      if Ascii.eqb (lower_ascii c) "e"
      then let '(negative, ds) := split_sign r in
           if all_digits ds && negb (String.eqb ds "")
           then Some (if negative then - int_of 0 ds else int_of 0 ds)
           else None
      else None
  end.

(** The special values, in any case: [Inf], [Infinity], and [NaN] or
    [sNaN] with optional diagnostic digits. *)
Definition special_of (negative : bool) (s : string) : option amount_arg :=
  let l := lower s in
  if String.eqb l "inf" || String.eqb l "infinity" then Some (Infinity negative)
  else if prefix "nan" l && all_digits (drop 3 l) then Some NaN
  else if prefix "snan" l && all_digits (drop 4 l) then Some NaN
  else None.

(** [Decimal(s)] for a text [s] of ASCII characters; [None] when the
    constructor raises InvalidOperation.  A finite number is an optional
    sign, digits with at most one point and at least one digit, and an
    optional exponent; its coefficient is [int(intpart + fracpart)] and its
    exponent [exp - len(fracpart)].  The constructor does not round. *)
Definition of_str (s : string) : option amount_arg :=
  let t := remove_underscores (strip s) in
  let '(negative, body) := split_sign t in
  let '(ip, r1) := span_digits body in
  let '(fp, r2) :=
    match r1 with
    | String "." r => span_digits r
    | _ => (EmptyString, r1)
    end in
  if (String.length ip + String.length fp =? 0)%nat
  then special_of negative body
  else
    match exponent_of r2 with
    | None => None
    | Some e =>
        let c := int_of 0 (append ip fp) in
        Some (Finite (mk (if negative then - c else c)
                         (e - Z.of_nat (String.length fp))))
    end.

(** A text without blanks and underscores. *)
Fixpoint plain (s : string) : bool :=
  match s with
  | EmptyString => true
  | String a r => negb (is_blank a) && negb (Ascii.eqb a "_") && plain r
  end.

(* ===================================================================== *)
(** * Further scenarios *)
(* ===================================================================== *)

(** Alice starts, the scanner sees 50 confirmed and Alice withdraws
    49.00000000000000001: her balance is left at 0.99999999999999999, with
    seventeen decimals. *)
Definition alice_after_odd_withdrawal : state :=
  run default_config
    [ (100, OpStart Private 1 "alice" (Some "addrA"%string));
      (110, OpScan wallet_reports_50);
      (150, OpWithdraw Private 1 "alice"
              (Some (Some (Finite (mk 4900000000000000001 (-17))), "dest"%string))
              (Some "tx0"%string)) ].

(** Frank starts and the scanner sees 20000000000.5 confirmed at his
    address. *)
Definition frank_funded : state :=
  run default_config
    [ (100, OpStart Private 6 "frank" (Some "addrF"%string));
      (110, OpScan (fun _ _ => Some (mk 200000000005 (-1)))) ].

(** A scanner pass over Dave and Erin, then Erin withdraws 10. *)
Definition pass_then_withdraw : list (Z * op) :=
  [ (200, OpScan wallet_reports_5_and_15);
    (210, OpWithdraw Private 5 "erin"
            (Some (Some (Finite (mk 10 0)), "dest"%string)) (Some "tx9"%string)) ].

(** Bob has claimed from the faucet at time 10000. *)
Definition after_bobs_claim : state :=
  fst (cmd_faucet default_config funded_state 10000 10000 10000 2 "bob").

(** FAUCET_INTERVAL_SECONDS "5400", the other settings at their defaults. *)
Definition ninety_minute_faucet : config :=
  mkConfig (mk 50 0) 5400 (mk 10 (-1)) 5 1800.

(** The database when the scanner reaches Erin's row in the pass over Dave
    and Erin: Dave's row has been credited and, while the pass awaited its
    notification, Erin has withdrawn her 10. *)
Definition erin_withdraws_mid_pass : state :=
  let s1 := scan_step default_config wallet_reports_5_and_15 200
              two_depositors (row_of dave "addrD") in
  fst (cmd_withdraw default_config s1 201 Private 5 "erin"
         (Some (Some (Finite (mk 10 0)), "dest"%string)) (Some "tx9"%string)).

(* ===================================================================== *)
(** * Facts about the decimal arithmetic *)
(* ===================================================================== *)

Module DecFacts.

Lemma pow10_pos (k : Z) : 0 <= k -> 0 < 10 ^ k.
Proof. intros; apply Z.pow_pos_nonneg; lia. Qed.

Lemma pow10_ge1 (k : Z) : 0 <= k -> 1 <= 10 ^ k.
Proof. intros H; pose proof (pow10_pos k H); lia. Qed.

Lemma pow10_succ (k : Z) : 0 <= k -> 10 ^ (k + 1) = 10 * 10 ^ k.
Proof. intros; rewrite Z.pow_add_r by lia; lia. Qed.

Lemma pow10_split (a b : Z) : 0 <= a -> 0 <= b -> 10 ^ (a + b) = 10 ^ a * 10 ^ b.
Proof. intros; apply Z.pow_add_r; lia. Qed.

Lemma ndigits_aux_spec (fuel : nat) :
  forall c, 0 <= c -> c < 2 ^ (Z.of_nat fuel + 1) ->
    1 <= ndigits_aux fuel c /\
    c < 10 ^ ndigits_aux fuel c /\
    (0 < c -> 10 ^ (ndigits_aux fuel c - 1) <= c).
Proof.
  induction fuel as [|f IH]; intros c Hc Hlt.
  - simpl in *. assert (c < 2) by (change (2 ^ (0 + 1)) with 2 in Hlt; lia).
    repeat split; lia.
  - cbn [ndigits_aux]. destruct (c <? 10) eqn:E.
    + apply Z.ltb_lt in E. repeat split; lia.
    + apply Z.ltb_ge in E.
      assert (H2 : c / 10 < 2 ^ (Z.of_nat f + 1)).
      { apply Z.div_lt_upper_bound; [lia|].
        replace (Z.of_nat (S f) + 1) with (Z.of_nat f + 1 + 1) in Hlt by lia.
        rewrite (Z.pow_add_r 2 (Z.of_nat f + 1) 1) in Hlt by lia.
        change (2 ^ 1) with 2 in Hlt.
        pose proof (Z.pow_pos_nonneg 2 (Z.of_nat f + 1)). lia. }
      assert (H0 : 0 <= c / 10) by (apply Z.div_pos; lia).
      destruct (IH (c / 10) H0 H2) as (I1 & I2 & I3).
      set (n := ndigits_aux f (c / 10)) in *.
      repeat split; try lia.
      * replace (1 + n) with (n + 1) by lia. rewrite pow10_succ by lia.
        pose proof (Z.div_mod c 10 ltac:(lia)).
        pose proof (Z.mod_pos_bound c 10 ltac:(lia)). lia.
      * intros _. replace (1 + n - 1) with (n - 1 + 1) by lia.
        rewrite pow10_succ by lia.
        assert (0 < c / 10) by (apply Z.div_str_pos; lia).
        specialize (I3 H).
        pose proof (Z.div_mod c 10 ltac:(lia)).
        pose proof (Z.mod_pos_bound c 10 ltac:(lia)). lia.
Qed.

Lemma ndigits_spec (c : Z) :
  1 <= ndigits c /\ Z.abs c < 10 ^ ndigits c /\
  (c <> 0 -> 10 ^ (ndigits c - 1) <= Z.abs c).
Proof.
  unfold ndigits.
  assert (H0 : 0 <= Z.abs c) by lia.
  assert (H1 : Z.abs c < 2 ^ (Z.of_nat (Z.to_nat (Z.log2 (Z.abs c))) + 1)).
  { rewrite Z2Nat.id by apply Z.log2_nonneg.
    destruct (Z.eq_dec (Z.abs c) 0) as [E|E].
    - rewrite E. reflexivity.
    - replace (Z.log2 (Z.abs c) + 1) with (Z.succ (Z.log2 (Z.abs c))) by lia.
      apply Z.log2_spec. lia. }
  destruct (ndigits_aux_spec _ _ H0 H1) as (A & B & C).
  repeat split; auto. intros; apply C; lia.
Qed.

Lemma ndigits_le (c k : Z) : 1 <= k -> Z.abs c < 10 ^ k -> ndigits c <= k.
Proof.
  intros Hk Hc. destruct (ndigits_spec c) as (A & B & C).
  destruct (Z.eq_dec c 0) as [->|Hn].
  - change (ndigits 0) with 1. lia.
  - specialize (C Hn).
    destruct (Z_le_gt_dec (ndigits c) k) as [|G]; [assumption|exfalso].
    assert (10 ^ k <= 10 ^ (ndigits c - 1)) by (apply Z.pow_le_mono_r; lia).
    lia.
Qed.

Lemma ndigits_gt (c k : Z) : 0 <= k -> 10 ^ k <= Z.abs c -> k < ndigits c.
Proof.
  intros Hk Hc. destruct (ndigits_spec c) as (A & B & C).
  destruct (Z_lt_le_dec k (ndigits c)) as [|G]; [assumption|exfalso].
  assert (10 ^ ndigits c <= 10 ^ k) by (apply Z.pow_le_mono_r; lia).
  lia.
Qed.

Lemma round_half_even_bounds (c drop : Z) :
  c / 10 ^ drop <= round_half_even c drop <= c / 10 ^ drop + 1.
Proof. unfold round_half_even. destruct (_ || _); lia. Qed.

(** Rounding is the identity on coefficients of at most 18 digits. *)
Lemma fix_small (d : decimal) : Z.abs (coef d) < 10 ^ 18 -> fix_ctx d = d.
Proof.
  intros H. unfold fix_ctx.
  pose proof (ndigits_le (coef d) 18 ltac:(lia) H) as L.
  apply Z.leb_le in L. unfold prec. now rewrite L.
Qed.

(** What rounding does to a long coefficient. *)
Lemma fix_long (d : decimal) :
  prec < ndigits (coef d) ->
  exists q k, 1 <= k /\ 10 ^ 17 <= q /\ q < 10 ^ 18 /\
              fix_ctx d = mk (Z.sgn (coef d) * q) (dexp d + k).
Proof.
  intros L. unfold fix_ctx.
  assert (E : (ndigits (coef d) <=? prec) = false) by (apply Z.leb_gt; exact L).
  rewrite E. unfold prec in *.
  set (n := ndigits (coef d)) in *.
  destruct (ndigits_spec (coef d)) as (A & B & C). fold n in A, B, C.
  assert (Hn0 : coef d <> 0).
  { intros Z0. subst n. rewrite Z0 in L. change (ndigits 0) with 1 in L. lia. }
  specialize (C Hn0).
  set (a := Z.abs (coef d)) in *.
  pose proof (round_half_even_bounds a (n - 18)) as R.
  set (p := 10 ^ (n - 18)) in *.
  assert (Hp : 0 < p) by (apply pow10_pos; lia).
  assert (Hlo : 10 ^ 17 <= a / p).
  { apply Z.div_le_lower_bound; [lia|].
    assert (Hs : 10 ^ (n - 1) = p * 10 ^ 17).
    { unfold p. rewrite <- pow10_split by lia. f_equal. lia. }
    lia. }
  assert (Hhi : a / p < 10 ^ 18).
  { apply Z.div_lt_upper_bound; [lia|].
    assert (Hs : 10 ^ n = p * 10 ^ 18).
    { unfold p. rewrite <- pow10_split by lia. f_equal. lia. }
    lia. }
  destruct (round_half_even a (n - 18) =? 10 ^ 18) eqn:Q.
  - exists (10 ^ 17), (n - 18 + 1). repeat split; try lia.
    change (18 - 1) with 17. f_equal. lia.
  - apply Z.eqb_neq in Q. exists (round_half_even a (n - 18)), (n - 18).
    repeat split; try lia.
Qed.

Lemma fix_cases (d : decimal) :
  fix_ctx d = d \/
  (10 ^ 18 <= Z.abs (coef d) /\
   exists q k, 1 <= k /\ 10 ^ 17 <= q /\ q < 10 ^ 18 /\
               fix_ctx d = mk (Z.sgn (coef d) * q) (dexp d + k)).
Proof.
  destruct (Z_lt_le_dec (Z.abs (coef d)) (10 ^ 18)) as [S|B].
  - left. now apply fix_small.
  - right. split; [exact B|]. apply fix_long.
    apply ndigits_gt; unfold prec; lia.
Qed.

(** Rounding keeps the sign. *)
Lemma fix_sgn (d : decimal) : Z.sgn (coef (fix_ctx d)) = Z.sgn (coef d).
Proof.
  destruct (fix_cases d) as [->|(_ & q & k & _ & Hq & _ & ->)]; [reflexivity|].
  cbn [coef]. assert (0 < q) by lia.
  destruct (coef d); cbn; try reflexivity; destruct q; cbn; lia.
Qed.

Lemma fix_nonneg (d : decimal) : 0 <= coef d -> 0 <= coef (fix_ctx d).
Proof. intros H. pose proof (fix_sgn d). lia. Qed.

Lemma fix_pos (d : decimal) : 0 < coef d -> 0 < coef (fix_ctx d).
Proof. intros H. pose proof (fix_sgn d). lia. Qed.

Lemma fix_nonpos (d : decimal) : coef d <= 0 -> coef (fix_ctx d) <= 0.
Proof. intros H. pose proof (fix_sgn d). lia. Qed.


(** ** Signs of the results *)

Lemma align_l_nonneg x y : 0 <= coef x -> 0 <= align_l x y.
Proof.
  intros H. unfold align_l. apply Z.mul_nonneg_nonneg; [exact H|].
  apply Z.pow_nonneg; lia.
Qed.

Lemma align_r_nonneg x y : 0 <= coef y -> 0 <= align_r x y.
Proof.
  intros H. unfold align_r. apply Z.mul_nonneg_nonneg; [exact H|].
  apply Z.pow_nonneg; lia.
Qed.

Lemma add_nonneg x y : 0 <= coef x -> 0 <= coef y -> 0 <= coef (add x y).
Proof.
  intros Hx Hy. unfold add. apply fix_nonneg. cbn [coef].
  pose proof (align_l_nonneg x y Hx). pose proof (align_r_nonneg x y Hy). lia.
Qed.

Lemma align_neg x y :
  align_l x (neg y) = align_l x y /\ align_r x (neg y) = - align_r x y.
Proof. unfold align_l, align_r, neg; cbn [coef dexp]. split; lia. Qed.

Lemma sub_coef x y :
  sub x y = fix_ctx (mk (align_l x y - align_r x y) (Z.min (dexp x) (dexp y))).
Proof.
  unfold sub, add. destruct (align_neg x y) as [-> ->].
  cbn [dexp neg]. reflexivity.
Qed.

Lemma sub_nonneg x y : ltb x y = false -> 0 <= coef (sub x y).
Proof.
  intros H. rewrite sub_coef. apply fix_nonneg. cbn [coef].
  unfold ltb in H. apply Z.ltb_ge in H. lia.
Qed.

Lemma sub_pos x y : ltb y x = true -> 0 < coef (sub x y).
Proof.
  intros H. rewrite sub_coef. apply fix_pos. cbn [coef].
  unfold ltb in H. apply Z.ltb_lt in H.
  unfold align_l, align_r in *. rewrite Z.min_comm in H. lia.
Qed.

(** [x - y <= 0] exactly when [x <= y]: rounding cannot reach zero. *)
Lemma sub_nonpos_iff x y : coef (sub x y) <= 0 <-> leb x y = true.
Proof.
  rewrite sub_coef. unfold leb. rewrite Z.leb_le.
  set (d := mk (align_l x y - align_r x y) (Z.min (dexp x) (dexp y))).
  pose proof (fix_sgn d) as S. change (coef d) with (align_l x y - align_r x y) in S.
  lia.
Qed.

Lemma mul_nonneg x y : 0 <= coef x -> 0 <= coef y -> 0 <= coef (mul x y).
Proof.
  intros Hx Hy. unfold mul. apply fix_nonneg. cbn [coef].
  now apply Z.mul_nonneg_nonneg.
Qed.

Lemma strip_zeros_nonneg fuel : forall c e ideal,
  0 <= c -> 0 <= fst (strip_zeros fuel c e ideal).
Proof.
  induction fuel as [|f IH]; intros c e ideal Hc; cbn; [exact Hc|].
  destruct (_ && _); [|exact Hc]. apply IH. apply Z.div_pos; lia.
Qed.

Lemma div_nonneg x y q :
  div x y = Some q -> 0 <= coef x -> 0 < coef y -> 0 <= coef q.
Proof.
  unfold div. intros H Hx Hy.
  destruct (coef y =? 0) eqn:Ey; [discriminate|].
  destruct (coef x =? 0) eqn:Ex.
  { injection H as <-. apply fix_nonneg. cbn. lia. }
  apply Z.eqb_neq in Ex.
  assert (Sx : Z.sgn (coef x) = 1) by (apply Z.sgn_pos; lia).
  assert (Sy : Z.sgn (coef y) = 1) by (apply Z.sgn_pos; lia).
  rewrite Sx, Sy in H. rewrite !Z.abs_eq in H by lia.
  set (shift := ndigits (coef y) - ndigits (coef x) + prec + 1) in *.
  set (qq := if 0 <=? shift then _ / _ else _ / _) in H.
  assert (Hq : 0 <= qq).
  { unfold qq. destruct (0 <=? shift) eqn:Es.
    - apply Z.div_pos; [|lia]. apply Z.mul_nonneg_nonneg; [lia|].
      apply Z.pow_nonneg; lia.
    - apply Z.leb_gt in Es. apply Z.div_pos; [exact Hx|].
      apply Z.mul_pos_pos; [exact Hy|]. apply pow10_pos. lia. }
  destruct (_ =? 0) in H.
  - pose proof (strip_zeros_nonneg (Z.to_nat shift) qq
                  (dexp x - dexp y - shift) (dexp x - dexp y) Hq) as P.
    destruct (strip_zeros _ _ _ _) as [q' e']. cbn [fst] in P.
    injection H as <-. apply fix_nonneg. change (0 <= 1 * 1 * q'). lia.
  - injection H as <-. apply fix_nonneg.
    change (0 <= 1 * 1 * (if qq mod 5 =? 0 then qq + 1 else qq)).
    destruct (qq mod 5 =? 0); lia.
Qed.

Lemma quantize_down_spec x e s :
  quantize_down x e = Some s ->
  dexp s = e /\ (0 <= coef x -> 0 <= coef s) /\ Z.abs (coef s) < 10 ^ prec.
Proof.
  unfold quantize_down. intros H.
  destruct (coef x =? 0).
  { injection H as <-. cbn [coef dexp]. split; [reflexivity|].
    split; [lia|]. rewrite Z.abs_0. apply pow10_pos. unfold prec. lia. }
  destruct (prec <? _); [discriminate|].
  set (c := if e <=? dexp x then _ else _) in H.
  destruct (prec <? ndigits c) eqn:En; [discriminate|].
  injection H as <-. cbn [coef dexp]. split; [reflexivity|]. split.
  - intros Hx. unfold c. destruct (e <=? dexp x) eqn:Ee.
    + apply Z.mul_nonneg_nonneg; [lia|]. apply Z.pow_nonneg; lia.
    + apply Z.leb_gt in Ee. apply Z.quot_pos; [lia|]. apply pow10_pos. lia.
  - apply Z.ltb_ge in En. destruct (ndigits_spec c) as (A & B & _).
    assert (10 ^ ndigits c <= 10 ^ prec) by (apply Z.pow_le_mono_r; lia). lia.
Qed.

End DecFacts.

Import DecFacts.

(** ** Exactness of the arithmetic on amounts of at most eight decimals *)

Lemma units_mk c e : units (mk c e) = c * 10 ^ (e + 8).
Proof. reflexivity. Qed.

Lemma units_ge_coef d : eight_dp d -> 0 <= coef d -> coef d <= units d.
Proof.
  unfold eight_dp, units. intros E C.
  pose proof (pow10_ge1 (dexp d + 8) ltac:(lia)). nia.
Qed.

Lemma fix_units d :
  eight_dp d -> 0 <= coef d ->
  eight_dp (fix_ctx d) /\
  (units d < 10 ^ 18 -> fix_ctx d = d) /\
  (10 ^ 18 <= units d -> 10 ^ 18 <= units (fix_ctx d)).
Proof.
  intros E C. pose proof (units_ge_coef d E C) as G.
  destruct (fix_cases d) as [->|(B & q & k & Hk & Hq & _ & ->)].
  - repeat split; auto.
  - rewrite Z.abs_eq in B by exact C. unfold eight_dp in *. cbn [dexp].
    split; [lia|]. split; [intros; lia|]. intros _.
    rewrite units_mk. rewrite Z.sgn_pos by lia.
    assert (10 ^ 1 <= 10 ^ (dexp d + k + 8)) by (apply Z.pow_le_mono_r; lia).
    change (10 ^ 1) with 10 in *. change (10 ^ 18) with (10 ^ 17 * 10).
    nia.
Qed.

Lemma units_aligned x y :
  eight_dp x -> eight_dp y ->
  units (mk (align_l x y) (Z.min (dexp x) (dexp y))) = units x /\
  units (mk (align_r x y) (Z.min (dexp x) (dexp y))) = units y.
Proof.
  unfold eight_dp, units, align_l, align_r. cbn [coef dexp]. intros Ex Ey.
  set (m := Z.min (dexp x) (dexp y)).
  assert (Hm : -8 <= m /\ m <= dexp x /\ m <= dexp y) by (unfold m; lia).
  split; rewrite <- Z.mul_assoc, <- pow10_split by lia; do 2 f_equal; lia.
Qed.

Lemma units_sum x y :
  eight_dp x -> eight_dp y ->
  units (mk (align_l x y + align_r x y) (Z.min (dexp x) (dexp y)))
  = units x + units y.
Proof.
  intros Ex Ey. destruct (units_aligned x y Ex Ey) as [A B].
  rewrite units_mk in *. lia.
Qed.

Lemma units_diff x y :
  eight_dp x -> eight_dp y ->
  units (mk (align_l x y - align_r x y) (Z.min (dexp x) (dexp y)))
  = units x - units y.
Proof.
  intros Ex Ey. destruct (units_aligned x y Ex Ey) as [A B].
  rewrite units_mk in *. lia.
Qed.

(** Comparison of decimals is comparison of their unit counts. *)
Lemma ltb_units x y :
  eight_dp x -> eight_dp y -> ltb x y = (units x <? units y).
Proof.
  intros Ex Ey. destruct (units_aligned x y Ex Ey) as [A B].
  rewrite units_mk in *. unfold ltb.
  assert (P : 0 < 10 ^ (Z.min (dexp x) (dexp y) + 8)).
  { apply pow10_pos. unfold eight_dp in *. lia. }
  destruct (align_l x y <? align_r x y) eqn:L; symmetry.
  - apply Z.ltb_lt in L. apply Z.ltb_lt. nia.
  - apply Z.ltb_ge in L. apply Z.ltb_ge. nia.
Qed.

(** A sum of non-negative amounts is exact below 10^18 units, and stays at
    or above 10^18 otherwise. *)
Lemma add_units x y :
  eight_dp x -> eight_dp y -> 0 <= coef x -> 0 <= coef y ->
  eight_dp (add x y) /\ 0 <= coef (add x y) /\
  (units x + units y < 10 ^ 18 -> units (add x y) = units x + units y) /\
  (10 ^ 18 <= units x + units y -> 10 ^ 18 <= units (add x y)).
Proof.
  intros Ex Ey Cx Cy. unfold add.
  set (d := mk (align_l x y + align_r x y) (Z.min (dexp x) (dexp y))).
  assert (Ed : eight_dp d) by (unfold eight_dp in *; cbn; lia).
  assert (Cd : 0 <= coef d).
  { cbn. pose proof (align_l_nonneg x y Cx). pose proof (align_r_nonneg x y Cy). lia. }
  assert (Ud : units d = units x + units y) by (now apply units_sum).
  destruct (fix_units d Ed Cd) as (A & B & C).
  split; [exact A|]. split; [now apply fix_nonneg|].
  rewrite <- Ud. split; [|exact C]. intros S. now rewrite B.
Qed.

(** A checked subtraction [x - y] with [y <= x]. *)
Lemma sub_units x y :
  eight_dp x -> eight_dp y -> ltb x y = false ->
  eight_dp (sub x y) /\ 0 <= coef (sub x y) /\
  (units x - units y < 10 ^ 18 -> units (sub x y) = units x - units y) /\
  (10 ^ 18 <= units x - units y -> 10 ^ 18 <= units (sub x y)).
Proof.
  intros Ex Ey L. rewrite sub_coef.
  set (d := mk (align_l x y - align_r x y) (Z.min (dexp x) (dexp y))).
  assert (Ed : eight_dp d) by (unfold eight_dp in *; cbn; lia).
  assert (Cd : 0 <= coef d).
  { cbn. unfold ltb in L. apply Z.ltb_ge in L. lia. }
  assert (Ud : units d = units x - units y) by (now apply units_diff).
  destruct (fix_units d Ed Cd) as (A & B & C).
  split; [exact A|]. split; [now apply fix_nonneg|].
  rewrite <- Ud. split; [|exact C]. intros S. now rewrite B.
Qed.

(** The product of a share by the number of recipients. *)
Lemma mul_units x (n : Z) :
  eight_dp x -> 0 <= coef x -> 0 <= n ->
  eight_dp (mul x (of_Z n)) /\ 0 <= coef (mul x (of_Z n)) /\
  (units x * n < 10 ^ 18 -> units (mul x (of_Z n)) = units x * n) /\
  (10 ^ 18 <= units x * n -> 10 ^ 18 <= units (mul x (of_Z n))).
Proof.
  intros Ex Cx Hn. unfold mul. cbn [coef dexp of_Z].
  set (d := mk (coef x * n) (dexp x + 0)).
  assert (Ed : eight_dp d) by (unfold eight_dp in *; cbn; lia).
  assert (Cd : 0 <= coef d) by (cbn; nia).
  assert (Ud : units d = units x * n).
  { unfold units, d. cbn [coef dexp]. rewrite Z.add_0_r. lia. }
  destruct (fix_units d Ed Cd) as (A & B & C).
  split; [exact A|]. split; [now apply fix_nonneg|].
  rewrite <- Ud. split; [|exact C]. intros S. now rewrite B.
Qed.

(** ** Counting digits *)

Lemma ndigits_unique (c k : Z) :
  0 < c -> 10 ^ (k - 1) <= c -> c < 10 ^ k -> ndigits c = k.
Proof.
  intros Hc Lo Hi.
  destruct (ndigits_spec c) as (A & B & C). specialize (C ltac:(lia)).
  rewrite Z.abs_eq in B, C by lia.
  assert (1 <= k).
  { destruct (Z_lt_le_dec k 1) as [L|]; [|lia].
    assert (10 ^ k <= 10 ^ 0).
    { destruct (Z_lt_le_dec k 0); [rewrite Z.pow_neg_r by lia; cbn; lia|].
      apply Z.pow_le_mono_r; lia. }
    change (10 ^ 0) with 1 in *. lia. }
  destruct (Z.lt_trichotomy (ndigits c) k) as [L|[E|G]]; [|exact E|].
  - assert (10 ^ ndigits c <= 10 ^ (k - 1)) by (apply Z.pow_le_mono_r; lia). lia.
  - assert (10 ^ k <= 10 ^ (ndigits c - 1)) by (apply Z.pow_le_mono_r; lia). lia.
Qed.

Lemma ndigits_mul_pow (c k : Z) :
  0 < c -> 0 <= k -> ndigits (c * 10 ^ k) = ndigits c + k.
Proof.
  intros Hc Hk.
  destruct (ndigits_spec c) as (A & B & C). specialize (C ltac:(lia)).
  rewrite Z.abs_eq in B, C by lia.
  pose proof (pow10_pos k Hk) as P.
  apply ndigits_unique; [nia| |].
  - replace (ndigits c + k - 1) with ((ndigits c - 1) + k) by lia.
    rewrite pow10_split by lia. nia.
  - rewrite pow10_split by lia. nia.
Qed.

(* ===================================================================== *)
(** * Strings of digits *)
(* ===================================================================== *)

Lemma append_nil_r s : append s EmptyString = s.
Proof. induction s as [|c s IH]; cbn; [reflexivity | now rewrite IH]. Qed.

Lemma append_assoc s t u : append (append s t) u = append s (append t u).
Proof. induction s as [|c s IH]; cbn; [reflexivity | now rewrite IH]. Qed.

Lemma length_append s t :
  String.length (append s t) = (String.length s + String.length t)%nat.
Proof. induction s as [|c s IH]; cbn; [reflexivity | now rewrite IH]. Qed.

Lemma take_append s t : take (String.length s) (append s t) = s.
Proof. induction s as [|c s IH]; cbn; [now destruct t | now rewrite IH]. Qed.

Lemma drop_append s t : drop (String.length s) (append s t) = t.
Proof. induction s as [|c s IH]; cbn; [reflexivity | exact IH]. Qed.

Lemma contains_append c s t :
  contains c (append s t) = contains c s || contains c t.
Proof.
  induction s as [|a s IH]; cbn; [reflexivity|].
  now rewrite IH, orb_assoc.
Qed.

Lemma length_low_digits k c : String.length (low_digits k c) = k.
Proof.
  revert c. induction k as [|k IH]; intros c; cbn [low_digits]; [reflexivity|].
  rewrite length_append, IH. cbn. lia.
Qed.

Lemma length_zeros k : String.length (zeros k) = k.
Proof. induction k as [|k IH]; cbn; [reflexivity | now rewrite IH]. Qed.

Lemma zeros_snoc k : append (zeros k) (String "0" EmptyString) = zeros (S k).
Proof.
  induction k as [|k IH]; [reflexivity|].
  cbn [zeros append] in *. now rewrite IH.
Qed.

Lemma low_digits_zero k : low_digits k 0 = zeros k.
Proof.
  induction k as [|k IH]; [reflexivity|].
  cbn [low_digits]. change (0 / 10) with 0. rewrite IH.
  change (String (digit_char (0 mod 10)) EmptyString)
    with (String "0"%char EmptyString).
  apply zeros_snoc.
Qed.

(** The digits of [c], cut at the [k2]-th. *)
Lemma low_digits_split k2 : forall k1 c,
  low_digits (k1 + k2) c =
  append (low_digits k1 (c / 10 ^ Z.of_nat k2)) (low_digits k2 c).
Proof.
  induction k2 as [|k IH]; intros k1 c.
  - rewrite Nat.add_0_r. cbn [low_digits Z.of_nat].
    now rewrite Z.pow_0_r, Z.div_1_r, append_nil_r.
  - rewrite Nat.add_succ_r. cbn [low_digits].
    rewrite IH, append_assoc. do 2 f_equal.
    rewrite Z.div_div by (try apply Z.pow_pos_nonneg; lia).
    f_equal. rewrite Nat2Z.inj_succ, Z.pow_succ_r by lia. reflexivity.
Qed.

Lemma all_digits_append s t :
  all_digits (append s t) = all_digits s && all_digits t.
Proof.
  induction s as [|a s IH]; cbn; [reflexivity|].
  now rewrite IH, andb_assoc.
Qed.

Lemma digit_char_is_digit n : 0 <= n < 10 -> is_digit (digit_char n) = true.
Proof.
  intros H. unfold is_digit, digit_char.
  rewrite nat_ascii_embedding by lia.
  apply andb_true_intro. split; apply Nat.leb_le; lia.
Qed.

Lemma all_digits_low k : forall c, all_digits (low_digits k c) = true.
Proof.
  induction k as [|k IH]; intros c; cbn [low_digits]; [reflexivity|].
  rewrite all_digits_append, IH. cbn [all_digits andb].
  rewrite digit_char_is_digit by (apply Z.mod_pos_bound; lia). reflexivity.
Qed.

Lemma all_digits_zeros k : all_digits (zeros k) = true.
Proof. induction k as [|k IH]; cbn; [reflexivity | exact IH]. Qed.

Lemma all_digits_digits c : all_digits (digits c) = true.
Proof. apply all_digits_low. Qed.

Lemma all_digits_take n : forall s, all_digits s = true -> all_digits (take n s) = true.
Proof.
  induction n as [|n IH]; intros [|a s] H; cbn in *; try reflexivity.
  apply andb_prop in H. destruct H as [A B]. now rewrite A, IH.
Qed.

Lemma all_digits_drop n : forall s, all_digits s = true -> all_digits (drop n s) = true.
Proof.
  induction n as [|n IH]; intros [|a s] H; cbn in *; try reflexivity; auto.
  apply andb_prop in H. destruct H as [A B]. now apply IH.
Qed.

(** A string of digits contains no other character. *)
Lemma digits_contain c s :
  is_digit c = false -> all_digits s = true -> contains c s = false.
Proof.
  intros N. induction s as [|a s IH]; cbn; [reflexivity|].
  intros H. apply andb_prop in H. destruct H as [A B].
  rewrite (IH B), orb_false_r. apply Ascii.eqb_neq. intros ->. congruence.
Qed.

(** ** [rstrip] *)

Lemma rstrip_append_keep c s t :
  rstrip c t <> EmptyString -> rstrip c (append s t) = append s (rstrip c t).
Proof.
  intros N. induction s as [|a s IH]; cbn; [reflexivity|].
  rewrite IH. destruct (append s (rstrip c t)) eqn:E; [|reflexivity].
  exfalso. destruct s; cbn in E; [contradiction | discriminate].
Qed.

Lemma rstrip_append_drop c s t :
  rstrip c t = EmptyString -> rstrip c (append s t) = rstrip c s.
Proof.
  intros N. induction s as [|a s IH]; cbn; [exact N|]. now rewrite IH.
Qed.

Lemma rstrip_absent c s : contains c s = false -> rstrip c s = s.
Proof.
  induction s as [|a s IH]; cbn; [reflexivity|].
  intros H. apply orb_false_elim in H. destruct H as [A B].
  rewrite (IH B), A. now destruct s.
Qed.

Lemma rstrip_contains c d s :
  contains d s = false -> contains d (rstrip c s) = false.
Proof.
  induction s as [|a s IH]; cbn; [reflexivity|].
  intros H. apply orb_false_elim in H. destruct H as [A B].
  specialize (IH B). destruct (rstrip c s) eqn:E.
  - destruct (Ascii.eqb a c); cbn; [reflexivity | now rewrite A].
  - cbn [contains] in *. now rewrite A, IH.
Qed.

Lemma rstrip_zeros k : rstrip "0" (zeros k) = EmptyString.
Proof. induction k as [|k IH]; cbn; [reflexivity | now rewrite IH]. Qed.

(** The low digits of [c] are all zeros exactly when [10 ^ k] divides
    [c]. *)
Lemma rstrip_low_digits k : forall c,
  0 <= c ->
  (rstrip "0" (low_digits k c) = EmptyString <-> c mod 10 ^ Z.of_nat k = 0).
Proof.
  induction k as [|k IH]; intros c Hc.
  - cbn. rewrite Z.mod_1_r. tauto.
  - cbn [low_digits].
    assert (P : 0 < 10 ^ Z.of_nat k) by (apply Z.pow_pos_nonneg; lia).
    assert (M : c mod 10 ^ Z.of_nat (S k) =
                c mod 10 + 10 * ((c / 10) mod 10 ^ Z.of_nat k)).
    { rewrite Nat2Z.inj_succ, Z.pow_succ_r by lia. apply Z.rem_mul_r; lia. }
    pose proof (Z.mod_pos_bound c 10 ltac:(lia)) as B1.
    pose proof (Z.mod_pos_bound (c / 10) (10 ^ Z.of_nat k) P) as B2.
    specialize (IH (c / 10) ltac:(apply Z.div_pos; lia)).
    destruct (Z.eq_dec (c mod 10) 0) as [E|E].
    + rewrite E. change (String (digit_char 0) EmptyString) with (zeros 1).
      rewrite rstrip_append_drop by reflexivity. rewrite IH, M. lia.
    + assert (D : rstrip "0" (String (digit_char (c mod 10)) EmptyString)
                  = String (digit_char (c mod 10)) EmptyString).
      { cbn [rstrip]. destruct (Ascii.eqb (digit_char (c mod 10)) "0") eqn:Q;
          [|reflexivity].
        exfalso. apply Ascii.eqb_eq in Q. unfold digit_char in Q.
        apply (f_equal nat_of_ascii) in Q.
        rewrite nat_ascii_embedding in Q by lia. cbn in Q. lia. }
      rewrite rstrip_append_keep by (rewrite D; discriminate).
      rewrite D. split.
      * intros H. exfalso.
        destruct (low_digits k (c / 10)); cbn in H; discriminate.
      * intros H. lia.
Qed.

(* ===================================================================== *)
(** * The number of digits *)
(* ===================================================================== *)

Lemma ndigits_abs c : ndigits (Z.abs c) = ndigits c.
Proof. unfold ndigits. now rewrite Z.abs_idemp. Qed.

Lemma ndigits_zero : ndigits 0 = 1.
Proof. reflexivity. Qed.

Lemma ndigits_div_pow c k :
  0 <= k -> 10 ^ k <= c -> ndigits (c / 10 ^ k) = ndigits c - k.
Proof.
  intros Hk Hc. pose proof (pow10_pos k Hk) as P.
  destruct (ndigits_spec c) as (A & B & C). specialize (C ltac:(lia)).
  rewrite Z.abs_eq in B, C by lia.
  assert (Hn : k < ndigits c).
  { destruct (Z_lt_le_dec k (ndigits c)) as [|G]; [assumption|exfalso].
    assert (10 ^ ndigits c <= 10 ^ k) by (apply Z.pow_le_mono_r; lia). lia. }
  assert (E1 : 10 ^ (ndigits c - 1) = 10 ^ (ndigits c - k - 1) * 10 ^ k).
  { rewrite <- pow10_split by lia. f_equal. lia. }
  assert (E2 : 10 ^ ndigits c = 10 ^ (ndigits c - k) * 10 ^ k).
  { rewrite <- pow10_split by lia. f_equal. lia. }
  apply ndigits_unique.
  - apply Z.div_str_pos. lia.
  - apply Z.div_le_lower_bound; [lia|]. rewrite Z.mul_comm, <- E1. exact C.
  - apply Z.div_lt_upper_bound; [lia|]. rewrite Z.mul_comm, <- E2. exact B.
Qed.

Lemma ndigits_nat c : Z.of_nat (Z.to_nat (ndigits c)) = ndigits c.
Proof. pose proof (ndigits_spec c). lia. Qed.

(* ===================================================================== *)
(** * [str] of a decimal *)
(* ===================================================================== *)

Lemma dot_not_digit : is_digit "." = false.
Proof. reflexivity. Qed.

Lemma contains_signed n : contains "." (signed n) = false.
Proof.
  unfold signed. destruct (n <? 0); cbn [contains];
    rewrite (digits_contain "." _ dot_not_digit (all_digits_digits _));
    reflexivity.
Qed.

(** Where [str] puts a point: in plain notation when the exponent is
    negative, in exponent notation when the coefficient has more than one
    digit. *)
Lemma str_of_dot neg c e :
  contains "." (str_of neg c e) =
  if (e <=? 0) && (-6 <? e + ndigits c) then e <? 0 else 1 <? ndigits c.
Proof.
  pose proof (ndigits_spec c) as (L1 & _ & _).
  assert (Dg : forall s, all_digits s = true -> contains "." s = false)
    by (intros s; apply digits_contain; reflexivity).
  assert (Sg : contains "." (if neg then "-" else "")%string = false)
    by (now destruct neg).
  unfold str_of. cbv zeta.
  rewrite !contains_append, Sg. cbn [orb].
  destruct ((e <=? 0) && (-6 <? e + ndigits c)) eqn:Plain.
  - apply andb_prop in Plain. destruct Plain as [P1 P2].
    apply Z.leb_le in P1. rewrite Z.eqb_refl. cbn [contains]. rewrite orb_false_r.
    destruct (e + ndigits c <=? 0) eqn:D0.
    + apply Z.leb_le in D0. cbn [contains Ascii.eqb]. cbn.
      symmetry. apply Z.ltb_lt. lia.
    + destruct (ndigits c <=? e + ndigits c) eqn:D1.
      * apply Z.leb_le in D1. cbn [contains]. rewrite orb_false_r.
        rewrite Dg by (rewrite all_digits_append, all_digits_digits,
                         all_digits_zeros; reflexivity).
        symmetry. apply Z.ltb_ge. lia.
      * apply Z.leb_gt in D1. cbn [contains]. rewrite Ascii.eqb_refl.
        cbn [orb]. rewrite orb_true_r. symmetry. apply Z.ltb_lt. lia.
  - change (1 <=? 0) with false. cbv iota.
    destruct (ndigits c <=? 1) eqn:D1.
    + apply Z.leb_le in D1.
      rewrite Dg by (rewrite all_digits_append, all_digits_digits,
                       all_digits_zeros; reflexivity).
      cbn [contains orb].
      assert (X : contains "." (if e + ndigits c =? 1 then ""%string
                                else String "E" (signed (e + ndigits c - 1)))
                  = false).
      { destruct (e + ndigits c =? 1); [reflexivity|].
        cbn [contains]. now rewrite contains_signed. }
      rewrite X. symmetry. apply Z.ltb_ge. lia.
    + apply Z.leb_gt in D1. cbn [contains]. rewrite Ascii.eqb_refl.
      cbn [orb]. rewrite orb_true_r. symmetry. apply Z.ltb_lt. lia.
Qed.

(** ** When [quantize] and [fmt_amt] raise *)

Lemma ndigits_mul_pow_abs c k :
  c <> 0 -> 0 <= k -> ndigits (c * 10 ^ k) = ndigits c + k.
Proof.
  intros Hc Hk. rewrite <- (ndigits_abs (c * 10 ^ k)), <- (ndigits_abs c).
  rewrite Z.abs_mul, (Z.abs_eq (10 ^ k)) by (apply Z.pow_nonneg; lia).
  apply ndigits_mul_pow; lia.
Qed.

Lemma ndigits_quot_pow c k :
  c <> 0 -> 0 <= k -> ndigits (Z.quot c (10 ^ k)) <= Z.max 1 (ndigits c - k).
Proof.
  intros Hc Hk. pose proof (pow10_pos k Hk) as P.
  rewrite <- (ndigits_abs (Z.quot c (10 ^ k))).
  rewrite <- Z.quot_abs, (Z.abs_eq (10 ^ k)), <- (ndigits_abs c) by lia.
  rewrite Z.quot_div_nonneg by lia.
  destruct (Z_lt_le_dec (Z.abs c) (10 ^ k)) as [S|S].
  - rewrite Z.div_small by lia. rewrite ndigits_zero. lia.
  - rewrite ndigits_div_pow by lia. lia.
Qed.

(** [quantize] raises exactly when the integer part of a non-zero value
    and the wanted decimals exceed the precision together. *)
Lemma quantize_down_fails x e :
  quantize_down x e = None <->
  coef x <> 0 /\ prec < ndigits (coef x) + dexp x - e.
Proof.
  unfold quantize_down. destruct (coef x =? 0) eqn:Z0.
  { apply Z.eqb_eq in Z0. split; [discriminate | tauto]. }
  apply Z.eqb_neq in Z0.
  destruct (prec <? ndigits (coef x) + dexp x - e) eqn:C1.
  { apply Z.ltb_lt in C1. tauto. }
  apply Z.ltb_ge in C1.
  assert (C2 : (prec <? ndigits (if e <=? dexp x
                                then coef x * 10 ^ (dexp x - e)
                                else Z.quot (coef x) (10 ^ (e - dexp x))))
               = false).
  { apply Z.ltb_ge. destruct (e <=? dexp x) eqn:Le.
    - apply Z.leb_le in Le. rewrite ndigits_mul_pow_abs by lia. lia.
    - apply Z.leb_gt in Le.
      pose proof (ndigits_quot_pow (coef x) (e - dexp x) Z0 ltac:(lia)).
      unfold prec in *. lia. }
  rewrite C2. split; [discriminate | lia].
Qed.

(** [fmt_amt] fails exactly where [quantize] does on a text with a
    decimal point. *)
Lemma fmt_amt_none_iff (x : decimal) :
  fmt_amt x = None <->
  coef x <> 0 /\ 10 < ndigits (coef x) + dexp x /\
  (dexp x < 0 \/ (0 < dexp x /\ 1 < ndigits (coef x))).
Proof.
  unfold fmt_amt, to_str. rewrite str_of_dot, ndigits_abs.
  pose proof (quantize_down_fails x (-8)) as Q. unfold prec in Q.
  destruct ((dexp x <=? 0) && (-6 <? dexp x + ndigits (coef x))) eqn:Plain.
  - apply andb_prop in Plain. destruct Plain as [P1 P2].
    apply Z.leb_le in P1. apply Z.ltb_lt in P2.
    destruct (dexp x <? 0) eqn:Neg.
    + apply Z.ltb_lt in Neg.
      destruct (quantize_down x (-8)) as [q|].
      * split; [discriminate|]. intros (A & B & _).
        destruct Q as [_ Q]. discriminate Q. split; [exact A | lia].
      * split; [|reflexivity]. intros _.
        destruct Q as [Q _]. destruct (Q eq_refl) as [A B].
        split; [exact A|]. split; [lia|]. now left.
    + apply Z.ltb_ge in Neg. split; [discriminate|]. lia.
  - apply andb_false_elim in Plain.
    destruct (1 <? ndigits (coef x)) eqn:Many.
    + apply Z.ltb_lt in Many.
      destruct (quantize_down x (-8)) as [q|].
      * split; [discriminate|]. intros (A & B & _).
        destruct Q as [_ Q]. discriminate Q. split; [exact A | lia].
      * split; [|reflexivity]. intros _.
        destruct Q as [Q _]. destruct (Q eq_refl) as [A B].
        split; [exact A|]. split; [lia|].
        destruct Plain as [P|P]; [apply Z.leb_gt in P | apply Z.ltb_ge in P];
          [right; lia | left; lia].
    + apply Z.ltb_ge in Many. split; [discriminate|].
      intros (A & B & [C|C]); [|lia].
      destruct Plain as [P|P]; [apply Z.leb_gt in P | apply Z.ltb_ge in P]; lia.
Qed.

(** An amount of at most eight decimals below 10^10 coins can be shown. *)
Lemma fmt_amt_in_range (x : decimal) :
  eight_dp x -> Z.abs (units x) < 10 ^ 18 -> fmt_amt x <> None.
Proof.
  intros E8 B N. apply fmt_amt_none_iff in N. destruct N as (A & C & _).
  unfold eight_dp, units in *.
  assert (G : 18 < ndigits (coef x * 10 ^ (dexp x + 8)))
    by (rewrite ndigits_mul_pow_abs by lia; lia).
  pose proof (ndigits_le (coef x * 10 ^ (dexp x + 8)) 18 ltac:(lia) B). lia.
Qed.

(* ===================================================================== *)
(** * Facts about the tables *)
(* ===================================================================== *)



Lemma keeps_id_setters :
  (forall n t, keeps_id (set_username_active n t)) /\
  (forall b, keeps_id (set_balance b)) /\
  (forall a, keeps_id (set_address a)) /\
  (forall c, keeps_id (set_credited c)) /\
  (forall t, keeps_id (set_last_faucet t)) /\
  (forall t, keeps_id (set_active t)).
Proof. repeat split. Qed.


Lemma find_id_spec (us : list user) (id : Z) (u : user) :
  find (fun v => tg_id v =? id) us = Some u -> In u us /\ tg_id u = id.
Proof.
  intros H. split; [now apply find_some in H|].
  apply find_some in H. destruct H as [_ H]. now apply Z.eqb_eq in H.
Qed.

Lemma get_user_spec (st : state) (id : Z) (u : user) :
  db_get_user st id = Some u -> In u (users st) /\ tg_id u = id.
Proof. apply find_id_spec. Qed.

Lemma find_id_none (us : list user) (id : Z) :
  find (fun v => tg_id v =? id) us = None <-> ~ In id (map tg_id us).
Proof.
  induction us as [|v r IH]; cbn; [tauto|].
  destruct (tg_id v =? id) eqn:E.
  - apply Z.eqb_eq in E. split; [discriminate|]. intros H; exfalso; auto.
  - apply Z.eqb_neq in E. rewrite IH. tauto.
Qed.

Lemma find_id_in (us : list user) (id : Z) :
  In id (map tg_id us) -> exists u, find (fun v => tg_id v =? id) us = Some u.
Proof.
  intros H. destruct (find _ us) eqn:E; [eauto|].
  apply find_id_none in E. contradiction.
Qed.

(** With a primary key, a row is found under its own id. *)
Lemma find_id_unique (us : list user) (u : user) :
  NoDup (map tg_id us) -> In u us ->
  find (fun v => tg_id v =? tg_id u) us = Some u.
Proof.
  induction us as [|v r IH]; cbn; intros N I; [contradiction|].
  inversion N as [|? ? Hn N']; subst.
  destruct I as [->|I].
  - now rewrite Z.eqb_refl.
  - destruct (tg_id v =? tg_id u) eqn:E; [|now apply IH].
    apply Z.eqb_eq in E. exfalso. apply Hn. rewrite E. now apply in_map.
Qed.

Lemma update_where_ids id f us :
  keeps_id f -> map tg_id (update_where id f us) = map tg_id us.
Proof.
  intros K. unfold update_where. rewrite map_map. apply map_ext.
  intros u. destruct (tg_id u =? id); [apply K|reflexivity].
Qed.

Lemma update_where_frame {A} (g : user -> A) id f us :
  (forall u, g (f u) = g u) -> map g (update_where id f us) = map g us.
Proof.
  intros G. unfold update_where. rewrite map_map. apply map_ext.
  intros u. destruct (tg_id u =? id); [apply G|reflexivity].
Qed.

Lemma update_where_absent id f us :
  ~ In id (map tg_id us) -> update_where id f us = us.
Proof.
  induction us as [|v r IH]; cbn; intros H; [reflexivity|].
  destruct (tg_id v =? id) eqn:E.
  - apply Z.eqb_eq in E. exfalso; auto.
  - f_equal. apply IH. tauto.
Qed.

Lemma find_update_where us id k f :
  keeps_id f ->
  find (fun v => tg_id v =? k) (update_where id f us) =
  if k =? id then option_map f (find (fun v => tg_id v =? k) us)
  else find (fun v => tg_id v =? k) us.
Proof.
  intros K. induction us as [|v r IH]; cbn.
  - now destruct (k =? id).
  - destruct (tg_id v =? id) eqn:E1.
    + rewrite K. destruct (tg_id v =? k) eqn:E2.
      * apply Z.eqb_eq in E1, E2.
        assert (E : (k =? id) = true) by (apply Z.eqb_eq; lia).
        now rewrite E.
      * exact IH.
    + destruct (tg_id v =? k) eqn:E2; [|exact IH].
      apply Z.eqb_eq in E2. apply Z.eqb_neq in E1.
      assert (E : (k =? id) = false) by (apply Z.eqb_neq; lia).
      now rewrite E.
Qed.

Lemma get_update_same st id f u :
  keeps_id f -> db_get_user st id = Some u ->
  db_get_user (with_users st (update_where id f (users st))) id = Some (f u).
Proof.
  intros K H. unfold db_get_user in *. cbn [users with_users].
  rewrite find_update_where by exact K. now rewrite Z.eqb_refl, H.
Qed.

Lemma get_update_other st id k f :
  keeps_id f -> k <> id ->
  db_get_user (with_users st (update_where id f (users st))) k = db_get_user st k.
Proof.
  intros K H. unfold db_get_user. cbn [users with_users].
  rewrite find_update_where by exact K.
  apply Z.eqb_neq in H. now rewrite H.
Qed.

Lemma insert_row_perm v us : Permutation (insert_row v us) (v :: us).
Proof.
  induction us as [|w r IH]; cbn; [reflexivity|].
  destruct (tg_id v <? tg_id w); [reflexivity|].
  rewrite IH. apply perm_swap.
Qed.

Lemma insert_row_in v us x : In x (insert_row v us) <-> x = v \/ In x us.
Proof.
  split; intros H.
  - apply (Permutation_in _ (insert_row_perm v us)) in H.
    destruct H; [left; congruence | now right].
  - apply (Permutation_in _ (Permutation_sym (insert_row_perm v us))).
    destruct H; [left; congruence | now right].
Qed.

Lemma find_insert_row v us k :
  ~ In (tg_id v) (map tg_id us) ->
  find (fun w => tg_id w =? k) (insert_row v us) =
  if k =? tg_id v then Some v else find (fun w => tg_id w =? k) us.
Proof.
  induction us as [|w r IH]; cbn; intros H.
  - rewrite (Z.eqb_sym k). now destruct (tg_id v =? k).
  - destruct (tg_id v <? tg_id w); cbn.
    + rewrite (Z.eqb_sym k). now destruct (tg_id v =? k).
    + destruct (tg_id w =? k) eqn:E.
      * apply Z.eqb_eq in E.
        assert (N : (k =? tg_id v) = false) by (apply Z.eqb_neq; intros ->; auto).
        now rewrite N.
      * apply IH. tauto.
Qed.

Lemma sumZ_cons x l : sumZ (x :: l) = x + sumZ l.
Proof. reflexivity. Qed.

Lemma sumZ_app l1 l2 : sumZ (l1 ++ l2) = sumZ l1 + sumZ l2.
Proof.
  induction l1 as [|x l IH]; [reflexivity|].
  rewrite <- app_comm_cons, !sumZ_cons, IH. lia.
Qed.

Lemma sumZ_perm l1 l2 : Permutation l1 l2 -> sumZ l1 = sumZ l2.
Proof. induction 1; rewrite ?sumZ_cons in *; lia. Qed.

Lemma sumZ_nonneg l : Forall (fun x => 0 <= x) l -> 0 <= sumZ l.
Proof. induction 1; rewrite ?sumZ_cons; [reflexivity|lia]. Qed.

Lemma sumZ_member_le l x :
  Forall (fun y => 0 <= y) l -> In x l -> x <= sumZ l.
Proof.
  induction 1 as [|y r Hy Hr IH]; intros I; [contradiction|].
  rewrite sumZ_cons.
  pose proof (sumZ_nonneg r Hr). destruct I as [->|I]; [lia|].
  specialize (IH I). lia.
Qed.

(** The effect of one [UPDATE] on a column sum, under the primary key. *)
Lemma sumZ_update_where (g : user -> Z) id f us u :
  keeps_id f -> NoDup (map tg_id us) ->
  find (fun v => tg_id v =? id) us = Some u ->
  sumZ (map g (update_where id f us)) = sumZ (map g us) - g u + g (f u).
Proof.
  intros K. induction us as [|v r IH]; intros N H; [discriminate|].
  inversion N as [|? ? Hn N']; subst.
  cbn [find] in H. cbn [update_where map]. fold (update_where id f r).
  rewrite !sumZ_cons.
  destruct (tg_id v =? id) eqn:E.
  - injection H as ->. apply Z.eqb_eq in E.
    rewrite update_where_absent by (now rewrite <- E). lia.
  - rewrite (IH N' H). lia.
Qed.

Lemma Forall_update_where (P : user -> Prop) id f us :
  Forall P us -> (forall u, In u us -> tg_id u = id -> P (f u)) ->
  Forall P (update_where id f us).
Proof.
  intros F H. unfold update_where. apply Forall_forall. intros x I.
  apply in_map_iff in I. destruct I as (u & <- & I).
  destruct (tg_id u =? id) eqn:E.
  - apply H; [exact I|]. now apply Z.eqb_eq.
  - rewrite Forall_forall in F. now apply F.
Qed.

Lemma units_nonneg d : 0 <= coef d -> 0 <= units d.
Proof.
  intros H. unfold units. apply Z.mul_nonneg_nonneg; [exact H|].
  apply Z.pow_nonneg; lia.
Qed.

(** ** [db_upsert_user] *)

Lemma upsert_transfers st id name now :
  transfers (db_upsert_user st id name now) = transfers st.
Proof. unfold db_upsert_user. now destruct (db_get_user st id). Qed.

Lemma upsert_rpc st id name now :
  rpc_calls (db_upsert_user st id name now) = rpc_calls st.
Proof. unfold db_upsert_user. now destruct (db_get_user st id). Qed.

Lemma upsert_get_same st id name now :
  db_get_user (db_upsert_user st id name now) id =
  Some (match db_get_user st id with
        | Some u => set_username_active name now u
        | None => new_user id name now
        end).
Proof.
  unfold db_upsert_user. destruct (db_get_user st id) as [u|] eqn:E.
  - apply get_update_same; [intros ?; reflexivity | exact E].
  - unfold db_get_user in *. cbn [users with_users].
    rewrite find_insert_row by (now apply find_id_none).
    cbn [tg_id new_user]. now rewrite Z.eqb_refl.
Qed.

Lemma upsert_get_other st id name now k :
  k <> id ->
  db_get_user (db_upsert_user st id name now) k = db_get_user st k.
Proof.
  intros N. unfold db_upsert_user. destruct (db_get_user st id) as [u|] eqn:E.
  - apply get_update_other; [intros ?; reflexivity | exact N].
  - unfold db_get_user in *. cbn [users with_users].
    rewrite find_insert_row by (now apply find_id_none).
    cbn [tg_id new_user]. apply Z.eqb_neq in N. now rewrite N.
Qed.

(** The ledger columns of every row read the same after an upsert. *)
Lemma upsert_stored st id name now k :
  stored_balance (db_upsert_user st id name now) k = stored_balance st k /\
  stored_credited (db_upsert_user st id name now) k = stored_credited st k /\
  stored_last_faucet (db_upsert_user st id name now) k = stored_last_faucet st k /\
  stored_address (db_upsert_user st id name now) k = stored_address st k.
Proof.
  unfold stored_balance, stored_credited, stored_last_faucet, stored_address.
  destruct (Z.eq_dec k id) as [->|N].
  - rewrite upsert_get_same. now destruct (db_get_user st id).
  - now rewrite upsert_get_other.
Qed.

Lemma upsert_untouched st id name now :
  ledger_untouched st (db_upsert_user st id name now).
Proof.
  split; [apply upsert_transfers|]. intros k.
  destruct (upsert_stored st id name now k) as (A & B & _). now split.
Qed.

Lemma untouched_refl st : ledger_untouched st st.
Proof. split; [reflexivity | intros k; split; reflexivity]. Qed.

Lemma update_where_twice id f us :
  keeps_id f -> (forall u, f (f u) = f u) ->
  update_where id f (update_where id f us) = update_where id f us.
Proof.
  intros K I. unfold update_where. rewrite map_map. apply map_ext.
  intros u. destruct (tg_id u =? id) eqn:E.
  - now rewrite K, E, I.
  - now rewrite E.
Qed.

Lemma update_where_fixed id f us :
  (forall u, In u us -> tg_id u = id -> f u = u) -> update_where id f us = us.
Proof.
  intros H. unfold update_where. rewrite <- (map_id us) at 2.
  apply map_ext_in. intros u I. destruct (tg_id u =? id) eqn:E; [|reflexivity].
  apply H; [exact I | now apply Z.eqb_eq].
Qed.

Lemma upsert_idempotent st id name now :
  db_upsert_user (db_upsert_user st id name now) id name now =
  db_upsert_user st id name now.
Proof.
  unfold db_upsert_user at 1. rewrite upsert_get_same.
  unfold db_upsert_user. destruct (db_get_user st id) as [u|] eqn:E.
  - unfold with_users; cbn [users transfers rpc_calls]. f_equal.
    apply update_where_twice; [intros ?; reflexivity|]. intros v. reflexivity.
  - unfold with_users; cbn [users transfers rpc_calls]. f_equal.
    apply update_where_fixed. intros v I Hv.
    apply insert_row_in in I. destruct I as [->|I]; [reflexivity|].
    exfalso. apply find_id_none in E. apply E. rewrite <- Hv. now apply in_map.
Qed.

Lemma insert_row_length v us : List.length (insert_row v us) = S (List.length us).
Proof. apply (Permutation_length (insert_row_perm v us)). Qed.

Lemma update_where_length id f us :
  List.length (update_where id f us) = List.length us.
Proof. apply length_map. Qed.

Lemma get_update st id k f :
  keeps_id f ->
  db_get_user (with_users st (update_where id f (users st))) k =
  if k =? id then option_map f (db_get_user st k) else db_get_user st k.
Proof.
  intros K. unfold db_get_user. cbn [users with_users].
  now apply find_update_where.
Qed.

Lemma get_update_balance st id b k :
  db_get_user (db_update_balance st id b) k =
  if k =? id then option_map (set_balance b) (db_get_user st k)
  else db_get_user st k.
Proof. apply get_update. intros ?; reflexivity. Qed.

Lemma get_set_credited st id c k :
  db_get_user (db_set_credited_total st id c) k =
  if k =? id then option_map (set_credited c) (db_get_user st k)
  else db_get_user st k.
Proof. apply get_update. intros ?; reflexivity. Qed.

Lemma get_set_last_faucet st id t k :
  db_get_user (db_set_last_faucet st id t) k =
  if k =? id then option_map (set_last_faucet t) (db_get_user st k)
  else db_get_user st k.
Proof. apply get_update. intros ?; reflexivity. Qed.

Lemma get_set_active st id t k :
  db_get_user (db_set_active st id t) k =
  if k =? id then option_map (set_active t) (db_get_user st k)
  else db_get_user st k.
Proof. apply get_update. intros ?; reflexivity. Qed.

Lemma get_set_address st id a k :
  db_get_user (db_set_deposit_address st id a) k =
  if k =? id then option_map (set_address a) (db_get_user st k)
  else db_get_user st k.
Proof. apply get_update. intros ?; reflexivity. Qed.

Lemma get_add_transfer st kd from to a tx now k :
  db_get_user (db_add_transfer st kd from to a tx now) k = db_get_user st k.
Proof. reflexivity. Qed.

Lemma get_rpc_request st c k :
  db_get_user (rpc_request st c) k = db_get_user st k.
Proof. reflexivity. Qed.

(** Rewriting a lookup through the writes of a handler. *)
Ltac get_simpl :=
  repeat (rewrite ?get_add_transfer, ?get_rpc_request, ?get_update_balance,
            ?get_set_credited, ?get_set_last_faucet, ?get_set_active,
            ?get_set_address, ?Z.eqb_refl;
          cbn [option_map]).

(* ===================================================================== *)
(** * The handlers, one call at a time *)
(* ===================================================================== *)

Section SingleStep.

Variable cfg : config.

(** [cmd_faucet] answers with the cooldown message exactly when
    [now - last_faucet_ts < FAUCET_INTERVAL] at the first reading of the
    clock, so a claim made at [now - last_faucet_ts = FAUCET_INTERVAL] is
    carried out.  On the cooldown answer the balance, [last_faucet_ts] and
    the transfer log are unchanged; otherwise the balance becomes
    [balance + FAUCET_AMOUNT] (the addition of the decimal context),
    [last_faucet_ts] becomes the third reading and exactly one faucet
    transfer is appended, and the confirmation is sent unless [fmt_amt]
    raises.  The rows of the other users are untouched.  An account that did
    not exist is created first and reads as balance 0, [last_faucet_ts]
    0. *)
Lemma faucet_claim_effect (st : state) (now at_wait at_claim uid : Z)
    (uname : string) :
  let st' := fst (cmd_faucet cfg st now at_wait at_claim uid uname) in
  let r := snd (cmd_faucet cfg st now at_wait at_claim uid uname) in
  let new_bal := add (stored_balance st uid) (FAUCET_AMOUNT cfg) in
  (forall k, k <> uid -> db_get_user st' k = db_get_user st k) /\
  if now - stored_last_faucet st uid <? FAUCET_INTERVAL cfg
  then
    r = FaucetAvailableIn
          ((FAUCET_INTERVAL cfg - (at_wait - stored_last_faucet st uid)) / 60) /\
    stored_balance st' uid = stored_balance st uid /\
    stored_last_faucet st' uid = stored_last_faucet st uid /\
    transfers st' = transfers st
  else
    r = match fmt_amt (FAUCET_AMOUNT cfg), fmt_amt new_bal with
        | Some _, Some _ => FaucetReceived new_bal
        | _, _ => Raised
        end /\
    stored_balance st' uid = new_bal /\
    stored_last_faucet st' uid = at_claim /\
    transfers st' =
    transfers st ++ [mkTransfer Faucet None (Some uid) (FAUCET_AMOUNT cfg) None now].
Proof.
  cbv zeta. unfold cmd_faucet. rewrite upsert_get_same.
  set (u1 := match db_get_user st uid with
             | Some u => set_username_active uname now u
             | None => new_user uid uname now
             end).
  assert (Hl : last_faucet_ts u1 = stored_last_faucet st uid).
  { unfold u1, stored_last_faucet. now destruct (db_get_user st uid). }
  assert (Hb : balance u1 = stored_balance st uid).
  { unfold u1, stored_balance. now destruct (db_get_user st uid). }
  rewrite Hl, Hb.
  destruct (now - stored_last_faucet st uid <? FAUCET_INTERVAL cfg); cbn [fst snd].
  - split; [intros k N; now apply upsert_get_other|].
    destruct (upsert_stored st uid uname now uid) as (A & _ & C & _).
    repeat split; auto using upsert_transfers.
  - split.
    { intros k N. get_simpl. apply Z.eqb_neq in N. rewrite N.
      apply upsert_get_other. now apply Z.eqb_neq. }
    unfold stored_balance, stored_last_faucet. get_simpl.
    rewrite upsert_get_same. fold u1. cbn [option_map].
    repeat split; cbn [transfers db_add_transfer db_set_last_faucet
                       db_update_balance with_users].
    now rewrite upsert_transfers.
Qed.

(** ** Withdrawals *)

Lemma sub_nonpos_leb x y : (coef (sub x y) <=? 0) = leb x y.
Proof.
  destruct (leb x y) eqn:E.
  - apply Z.leb_le. now apply sub_nonpos_iff.
  - apply Z.leb_gt. destruct (Z_lt_le_dec 0 (coef (sub x y))) as [|L]; [assumption|].
    apply sub_nonpos_iff in L. congruence.
Qed.

Lemma leb_ltb_flip x y : leb x y = negb (ltb y x).
Proof.
  unfold leb, ltb, align_l, align_r. rewrite (Z.min_comm (dexp y)).
  rewrite Z.ltb_antisym. now rewrite negb_involutive.
Qed.

(** The body of [cmd_withdraw] for a well-formed positive amount. *)
Lemma withdraw_unfold st now uid uname amount address send :
  0 < coef amount ->
  cmd_withdraw cfg st now Private uid uname
    (Some (Some (Finite amount), address)) send =
  let st1 := db_upsert_user st uid uname now in
  let b := stored_balance st uid in
  if ltb b amount then (st1, InsufficientBalance)
  else if leb amount (WITHDRAW_FEE cfg) then (st1, AmountMustExceedFee)
  else
    let st2 := rpc_request st1
                 (SendToAddress address
                    (float_of (sub amount (WITHDRAW_FEE cfg)))) in
    match send with
    | None => (st2, RpcError)
    | Some tx =>
        (db_add_transfer (db_update_balance st2 uid (sub b amount))
           Withdraw (Some uid) None amount (Some tx) now,
         match fmt_amt (sub b amount) with
         | Some _ => WithdrawalSubmitted tx (sub b amount)
         | None => Raised
         end)
    end.
Proof.
  intros Hp. unfold cmd_withdraw. cbn [is_private negb].
  assert (E : (coef amount <=? 0) = false) by (apply Z.leb_gt; exact Hp).
  rewrite E, upsert_get_same, sub_nonpos_leb.
  assert (Hb : balance (match db_get_user st uid with
                        | Some u => set_username_active uname now u
                        | None => new_user uid uname now
                        end) = stored_balance st uid).
  { unfold stored_balance. now destruct (db_get_user st uid). }
  rewrite Hb. reflexivity.
Qed.

(** Without a transaction id from the node nothing is debited, whatever the
    command. *)
Lemma withdraw_failed_send_ledger st now chat uid uname cmd :
  ledger_untouched st (fst (cmd_withdraw cfg st now chat uid uname cmd None)).
Proof.
  pose proof (upsert_untouched st uid uname now) as U.
  unfold ledger_untouched in *. unfold cmd_withdraw. destruct (is_private chat); cbn [negb];
    [|cbn [fst]; split; [reflexivity | intros k; split; reflexivity]].
  destruct cmd as [[[a|] address]|]; cbn [fst]; try exact U.
  destruct a as [amount|[|]|]; cbn [fst]; try exact U.
  - destruct (coef amount <=? 0); cbn [fst]; [exact U|].
    destruct (db_get_user _ uid) as [u|]; cbn [fst]; [|exact U].
    destruct (ltb (balance u) amount); cbn [fst]; [exact U|].
    destruct (coef (sub amount (WITHDRAW_FEE cfg)) <=? 0); cbn [fst]; exact U.
  - destruct (db_get_user _ uid); cbn [fst]; exact U.
Qed.

(** C4: a withdrawal that passes its checks (positive amount, balance
    covering the amount, amount above the fee) sends [sendtoaddress] to the
    node before anything is debited; when that call fails the handler
    answers with the RPC error and every balance, every [credited_total]
    and the transfer log are as before the call: nothing is debited and no
    withdraw record is appended. *)
Theorem withdraw_send_failure (st : state) (now uid : Z) (uname : string)
    (amount : decimal) (address : string) :
  0 < coef amount ->
  ltb (stored_balance st uid) amount = false ->
  ltb (WITHDRAW_FEE cfg) amount = true ->
  let out := cmd_withdraw cfg st now Private uid uname
               (Some (Some (Finite amount), address)) None in
  snd out = RpcError /\
  rpc_calls (fst out) =
    rpc_calls st ++
    [SendToAddress address (float_of (sub amount (WITHDRAW_FEE cfg)))] /\
  ledger_untouched st (fst out).
Proof.
  intros Hp Hb Hf out.
  pose proof (withdraw_failed_send_ledger st now Private uid uname
                (Some (Some (Finite amount), address))) as L.
  fold out in L.
  split; [|split; [|exact L]].
  - unfold out. rewrite withdraw_unfold by exact Hp. cbv zeta.
    rewrite Hb, leb_ltb_flip, Hf. reflexivity.
  - unfold out. rewrite withdraw_unfold by exact Hp. cbv zeta.
    rewrite Hb, leb_ltb_flip, Hf. cbn [negb fst rpc_calls rpc_request].
    now rewrite upsert_rpc.
Qed.

(** C5 (amended): a withdrawal of [amount] that passes its checks (positive
    amount, balance covering the amount, amount above the fee) and whose
    send succeeds, where the amount, the fee and the balance have at most
    eight decimal places, the fee is not negative and the balance is below
    10^10 coins: the node is asked to send [float(amount - WITHDRAW_FEE)],
    the difference being exact; the sender's balance goes down by exactly
    the full [amount]; every other balance and every [credited_total] is
    left alone; exactly one withdraw transfer is appended, which records
    the full [amount] (fee included) and the transaction id; and the
    confirmation is sent. *)
Theorem withdraw_success (st : state) (now uid : Z) (uname : string)
    (amount : decimal) (address tx : string) :
  0 < coef amount -> eight_dp amount ->
  eight_dp (stored_balance st uid) -> units (stored_balance st uid) < 10 ^ 18 ->
  amount_ok (WITHDRAW_FEE cfg) ->
  ltb (stored_balance st uid) amount = false ->
  ltb (WITHDRAW_FEE cfg) amount = true ->
  let out := cmd_withdraw cfg st now Private uid uname
               (Some (Some (Finite amount), address)) (Some tx) in
  snd out = WithdrawalSubmitted tx (stored_balance (fst out) uid) /\
  rpc_calls (fst out) =
    rpc_calls st ++
    [SendToAddress address (float_of (sub amount (WITHDRAW_FEE cfg)))] /\
  units (sub amount (WITHDRAW_FEE cfg)) = units amount - units (WITHDRAW_FEE cfg) /\
  units (stored_balance (fst out) uid) = units (stored_balance st uid) - units amount /\
  (forall k, k <> uid -> stored_balance (fst out) k = stored_balance st k) /\
  (forall k, stored_credited (fst out) k = stored_credited st k) /\
  transfers (fst out) =
    transfers st ++ [mkTransfer Withdraw (Some uid) None amount (Some tx) now].
Proof.
  intros Hp Ea Eb Bb [Ef Cf] Hb Hf out. unfold out.
  rewrite withdraw_unfold by exact Hp. cbv zeta.
  rewrite Hb, leb_ltb_flip, Hf. cbn [negb fst snd].
  pose proof (units_nonneg _ Cf) as Uf.
  assert (Ua : 0 < units amount).
  { unfold units. apply Z.mul_pos_pos; [exact Hp|]. apply pow10_pos.
    unfold eight_dp in Ea. lia. }
  assert (Uba : units amount <= units (stored_balance st uid)).
  { rewrite (ltb_units _ _ Eb Ea) in Hb. now apply Z.ltb_ge in Hb. }
  destruct (sub_units (stored_balance st uid) amount Eb Ea Hb)
    as (En & Cn & Xn & _).
  specialize (Xn ltac:(lia)).
  assert (Hfa : ltb amount (WITHDRAW_FEE cfg) = false).
  { rewrite (ltb_units _ _ Ef Ea) in Hf. rewrite (ltb_units _ _ Ea Ef).
    apply Z.ltb_lt in Hf. apply Z.ltb_ge. lia. }
  destruct (sub_units amount (WITHDRAW_FEE cfg) Ea Ef Hfa) as (_ & _ & Xs & _).
  specialize (Xs ltac:(lia)).
  assert (Sb : stored_balance
                 (db_add_transfer
                    (db_update_balance
                       (rpc_request (db_upsert_user st uid uname now)
                          (SendToAddress address
                             (float_of (sub amount (WITHDRAW_FEE cfg)))))
                       uid (sub (stored_balance st uid) amount))
                    Withdraw (Some uid) None amount (Some tx) now) uid
               = sub (stored_balance st uid) amount).
  { unfold stored_balance at 1. get_simpl. rewrite upsert_get_same.
    reflexivity. }
  rewrite Sb.
  split.
  { destruct (fmt_amt (sub (stored_balance st uid) amount)) eqn:F;
      [reflexivity|].
    exfalso. apply (fmt_amt_in_range _ En); [|exact F].
    pose proof (units_nonneg _ Cn). rewrite Z.abs_eq by assumption. lia. }
  split; [cbn [rpc_calls db_add_transfer db_update_balance with_users rpc_request];
          now rewrite upsert_rpc|].
  split; [exact Xs|]. split; [exact Xn|].
  split.
  { intros k N. unfold stored_balance at 1. get_simpl.
    apply Z.eqb_neq in N. rewrite N. apply Z.eqb_neq in N.
    rewrite upsert_get_other by exact N. reflexivity. }
  split.
  { intros k. unfold stored_credited at 1. get_simpl.
    destruct (upsert_stored st uid uname now k) as (_ & C & _).
    unfold stored_credited in C at 1.
    destruct (k =? uid); [|exact C].
    rewrite <- C. now destruct (db_get_user (db_upsert_user st uid uname now) k). }
  cbn [transfers db_add_transfer db_update_balance with_users rpc_request].
  now rewrite upsert_transfers.
Qed.

(** C6 (amended): for a positive amount [cmd_withdraw] checks the balance
    first and the fee second.  A balance below the amount is answered with
    the insufficient-balance message whatever the fee; only when the balance
    covers the amount is an amount not above the fee answered with the
    amount-must-exceed-fee message.  In both cases no request goes to the
    node and balances, [credited_total]s and the transfer log are unchanged
    (the handler has only ensured the caller's row and refreshed its
    username and activity time).  Otherwise neither message is given. *)
Theorem withdraw_checks_balance_then_fee (st : state) (now uid : Z)
    (uname : string) (amount : decimal) (address : string)
    (send : option string) :
  0 < coef amount ->
  let out := cmd_withdraw cfg st now Private uid uname
               (Some (Some (Finite amount), address)) send in
  if ltb (stored_balance st uid) amount
  then snd out = InsufficientBalance /\
       fst out = db_upsert_user st uid uname now /\
       rpc_calls (fst out) = rpc_calls st /\ ledger_untouched st (fst out)
  else if leb amount (WITHDRAW_FEE cfg)
  then snd out = AmountMustExceedFee /\
       fst out = db_upsert_user st uid uname now /\
       rpc_calls (fst out) = rpc_calls st /\ ledger_untouched st (fst out)
  else snd out <> InsufficientBalance /\ snd out <> AmountMustExceedFee.
Proof.
  intros Hp out. unfold out. rewrite withdraw_unfold by exact Hp. cbv zeta.
  destruct (ltb (stored_balance st uid) amount);
    [cbn [fst snd]; auto using upsert_rpc, upsert_untouched|].
  destruct (leb amount (WITHDRAW_FEE cfg));
    [cbn [fst snd]; auto using upsert_rpc, upsert_untouched|].
  destruct send; cbn [snd]; [|split; discriminate].
  destruct (fmt_amt _); split; discriminate.
Qed.


(** ** The credit of a deposit *)

Lemma ltb_irrefl x : ltb x x = false.
Proof. unfold ltb, align_l, align_r. apply Z.ltb_irrefl. Qed.

(** The credit on a row that is current: crediting the row of an existing
    account, as the table holds it, with a wallet reading
    [total] is a no-op when [total <= credited_total] (the state is the same:
    no balance, watermark or transfer changes).  When
    [total > credited_total] it sets the balance to [balance + diff] with
    [diff = total - credited_total] (the context's arithmetic), sets
    [credited_total] to [total], appends exactly one deposit transfer of
    amount [diff] and touches no other row; after that, crediting the
    refreshed row again with the same or a smaller reading is a no-op, so a
    repeated reading is credited once. *)
Lemma credit_of_a_current_row (st : state) (now now' id : Z) (u : user)
    (addr : string) (total : decimal) :
  db_get_user st id = Some u ->
  let st' := apply_credit st now (row_of u addr) total in
  if ltb (credited_total u) total
  then
    let diff := sub total (credited_total u) in
    let u' := mkUser id (username u) (deposit_address u) total
                (add (balance u) diff) (last_faucet_ts u) (last_active_ts u)
                (created_ts u) in
    db_get_user st' id = Some u' /\
    (forall k, k <> id -> db_get_user st' k = db_get_user st k) /\
    transfers st' =
      transfers st ++ [mkTransfer Deposit None (Some id) diff None now] /\
    (forall total', ltb total total' = false ->
       apply_credit st' now' (row_of u' addr) total' = st')
  else st' = st.
Proof.
  intros H. destruct (get_user_spec st id u H) as [_ Hid].
  cbv zeta. unfold apply_credit. cbn [row_of row_id row_credited row_balance].
  rewrite Hid.
  destruct (ltb (credited_total u) total) eqn:E; [|reflexivity].
  split; [|split; [|split]].
  - get_simpl. rewrite H. cbn [option_map]. unfold set_credited, set_balance.
    cbn. now rewrite Hid.
  - intros k N. get_simpl. apply Z.eqb_neq in N. now rewrite N.
  - reflexivity.
  - intros total' L. cbn [row_of row_credited credited_total].
    now rewrite L.
Qed.

(** ** Accounts and deposit addresses *)

(** C9 (amended): [db_upsert_user] on an existing id keeps the row's
    [tg_id], deposit address, [credited_total], balance, [last_faucet_ts]
    and [created_ts], and overwrites its username and [last_active_ts]; on
    an absent id it inserts exactly one row with balance 0, [credited_total]
    0 and no deposit address.  Either way the other rows, the transfer log
    and the wallet requests are unchanged, and repeating the call with the
    same arguments changes nothing more. *)
Theorem upsert_user_effect (st : state) (id : Z) (name : string) (now : Z) :
  let st' := db_upsert_user st id name now in
  transfers st' = transfers st /\
  rpc_calls st' = rpc_calls st /\
  (forall k, k <> id -> db_get_user st' k = db_get_user st k) /\
  match db_get_user st id with
  | Some u =>
      db_get_user st' id =
        Some (mkUser (tg_id u) name (deposit_address u) (credited_total u)
                (balance u) (last_faucet_ts u) now (created_ts u)) /\
      List.length (users st') = List.length (users st)
  | None =>
      db_get_user st' id = Some (mkUser id name None zero zero 0 now now) /\
      List.length (users st') = S (List.length (users st))
  end /\
  db_upsert_user st' id name now = st'.
Proof.
  cbv zeta.
  split; [apply upsert_transfers|]. split; [apply upsert_rpc|].
  split; [intros k N; now apply upsert_get_other|].
  split; [|apply upsert_idempotent].
  rewrite upsert_get_same. unfold db_upsert_user.
  destruct (db_get_user st id) as [u|]; cbn [users with_users].
  - split; [reflexivity | apply update_where_length].
  - split; [reflexivity | apply insert_row_length].
Qed.

(** C10 (amended): the deposit address of an account is kept by
    [get_or_create_deposit_address], the only caller of
    [db_set_deposit_address]: for an account whose address is set (and not
    empty) it returns the stored address without asking the node and without
    writing, so [/start] and [/deposit] answer with the stored address and
    leave it in place.  [db_set_deposit_address] itself never fails: it
    overwrites the address. *)
Theorem deposit_address_kept (st : state) (now uid : Z) (uname : string)
    (newaddr : option string) (u : user) (a : string) :
  db_get_user st uid = Some u ->
  deposit_address u = Some a ->
  a <> EmptyString ->
  get_or_create_deposit_address st uid newaddr = (st, Some a) /\
  (let out := cmd_deposit st now Private uid uname newaddr in
   snd out = DepositText a /\ stored_address (fst out) uid = Some a /\
   rpc_calls (fst out) = rpc_calls st) /\
  (let out := cmd_start st now Private uid uname newaddr in
   snd out = StartText a /\ stored_address (fst out) uid = Some a /\
   rpc_calls (fst out) = rpc_calls st) /\
  (forall b, stored_address (db_set_deposit_address st uid b) uid = Some b).
Proof.
  intros H Ha Hn.
  assert (Ne : String.eqb a "" = false) by (now apply String.eqb_neq).
  assert (G : forall s w, db_get_user s uid = Some w ->
              deposit_address w = Some a ->
              get_or_create_deposit_address s uid newaddr = (s, Some a)).
  { intros s w Hs Hw. unfold get_or_create_deposit_address.
    now rewrite Hs, Hw, Ne. }
  assert (U : db_get_user (db_upsert_user st uid uname now) uid
              = Some (set_username_active uname now u))
    by (now rewrite upsert_get_same, H).
  split; [now apply (G st u)|].
  split; [|split].
  - cbv zeta. unfold cmd_deposit. cbn [is_private negb].
    rewrite (G _ _ U Ha). cbn [fst snd]. split; [reflexivity|].
    split; [|apply upsert_rpc].
    unfold stored_address. now rewrite U.
  - cbv zeta. unfold cmd_start. cbn [is_private negb].
    rewrite (G _ _ U Ha). cbn [fst snd]. split; [reflexivity|].
    split; [|apply upsert_rpc].
    unfold stored_address. now rewrite U.
  - intros b. unfold stored_address. get_simpl. now rewrite H.
Qed.

End SingleStep.

(* ===================================================================== *)
(** * Invariants of the ledger *)
(* ===================================================================== *)

(** ** No balance is ever negative *)


Lemma nonneg_get st id u :
  balances_nonneg st -> db_get_user st id = Some u -> 0 <= coef (balance u).
Proof.
  intros F H. apply get_user_spec in H. destruct H as [I _].
  unfold balances_nonneg in F. rewrite Forall_forall in F. now apply F.
Qed.

Lemma nonneg_frame st id f :
  (forall u, balance (f u) = balance u) ->
  balances_nonneg st ->
  balances_nonneg (with_users st (update_where id f (users st))).
Proof.
  intros B F. unfold balances_nonneg. cbn [users with_users].
  apply Forall_update_where; [exact F|]. intros u I _. rewrite B.
  unfold balances_nonneg in F. rewrite Forall_forall in F. now apply F.
Qed.

Lemma nonneg_update_balance st id b :
  0 <= coef b -> balances_nonneg st -> balances_nonneg (db_update_balance st id b).
Proof.
  intros Hb F. unfold balances_nonneg, db_update_balance. cbn [users with_users].
  apply Forall_update_where; [exact F|]. intros u _ _. exact Hb.
Qed.

Lemma nonneg_upsert st id name now :
  balances_nonneg st -> balances_nonneg (db_upsert_user st id name now).
Proof.
  intros F. unfold db_upsert_user. destruct (db_get_user st id).
  - apply nonneg_frame; [reflexivity | exact F].
  - unfold balances_nonneg. cbn [users with_users].
    apply Forall_forall. intros x I. apply insert_row_in in I.
    destruct I as [->|I]; [cbn; lia|].
    unfold balances_nonneg in F. rewrite Forall_forall in F. now apply F.
Qed.

Lemma nonneg_get_or_create st id newaddr :
  balances_nonneg st ->
  balances_nonneg (fst (get_or_create_deposit_address st id newaddr)).
Proof.
  intros F.
  assert (C : balances_nonneg
                (fst (match newaddr with
                      | Some a => (db_set_deposit_address
                                     (rpc_request st (GetNewAddress id)) id a, Some a)
                      | None => (rpc_request st (GetNewAddress id), None)
                      end))).
  { destruct newaddr; cbn [fst]; [|exact F].
    apply (nonneg_frame (rpc_request st (GetNewAddress id))); [reflexivity | exact F]. }
  unfold get_or_create_deposit_address.
  destruct (db_get_user st id) as [u|]; [|exact C].
  destruct (deposit_address u) as [a|]; [|exact C].
  destruct (String.eqb a ""); [exact C | exact F].
Qed.

Lemma nonneg_credit_each now uid share :
  0 <= coef share ->
  forall recipients st,
    balances_nonneg st ->
    balances_nonneg (fst (credit_each st now uid share recipients)).
Proof.
  intros Hs. induction recipients as [|rid rest IH]; intros st F; [exact F|].
  cbn [credit_each]. destruct (db_get_user st rid) as [u|] eqn:E; [|exact F].
  apply IH. apply (nonneg_update_balance st rid); [|exact F].
  apply add_nonneg; [now apply (nonneg_get st rid) | exact Hs].
Qed.

Section Nonneg.

Variable cfg : config.
Hypothesis faucet_nonneg : 0 <= coef (FAUCET_AMOUNT cfg).

Lemma nonneg_tip_single st now uid sender amount rid :
  balances_nonneg st -> 0 <= coef amount ->
  ltb (balance sender) amount = false ->
  balances_nonneg (fst (tip_single st now uid sender amount rid)).
Proof.
  intros F Ha L. unfold tip_single.
  assert (F1 : balances_nonneg
                 (db_update_balance st uid (sub (balance sender) amount))).
  { apply nonneg_update_balance; [now apply sub_nonneg | exact F]. }
  destruct (db_get_user _ rid) as [u|] eqn:E; cbn [fst]; [|exact F1].
  assert (F2 : balances_nonneg
                 (db_update_balance
                    (db_update_balance st uid (sub (balance sender) amount))
                    rid (add (balance u) amount))).
  { apply (nonneg_update_balance _ rid); [|exact F1].
    apply add_nonneg; [now apply (nonneg_get _ rid _ F1 E) | exact Ha]. }
  destruct (fmt_amt amount); cbn [fst]; [|exact F2].
  apply (nonneg_frame (db_add_transfer _ Tip (Some uid) (Some rid) amount None now));
    [reflexivity | exact F2].
Qed.

Lemma split_share_nonneg amount n share :
  0 < coef amount -> (0 < n)%nat ->
  split_share amount n = Some share -> 0 <= coef share.
Proof.
  intros Ha Hn H. unfold split_share in H.
  destruct (div amount (of_Z (Z.of_nat n))) as [q|] eqn:D; [|discriminate].
  apply div_nonneg in D; [|lia|cbn; lia].
  apply quantize_down_spec in H. destruct H as (_ & H & _). now apply H.
Qed.

Lemma nonneg_tip_split st now uid sender amount recipients :
  balances_nonneg st -> 0 < coef amount -> recipients <> [] ->
  balances_nonneg (fst (tip_split st now uid sender amount recipients)).
Proof.
  intros F Ha Hr. unfold tip_split.
  destruct (split_share amount (List.length recipients)) as [share|] eqn:S;
    [|exact F].
  assert (Hs : 0 <= coef share).
  { apply (split_share_nonneg amount (List.length recipients)); auto.
    destruct recipients; [contradiction | cbn; lia]. }
  destruct (ltb (balance sender) _) eqn:L; [exact F|].
  set (st1 := db_update_balance st uid _).
  assert (F1 : balances_nonneg st1).
  { apply nonneg_update_balance; [now apply sub_nonneg | exact F]. }
  pose proof (nonneg_credit_each now uid share Hs recipients st1 F1) as C.
  destruct (credit_each st1 now uid share recipients) as [st2 [|]];
    cbn [fst] in *; [|exact C].
  destruct (fmt_amt share); cbn [fst]; [|exact C].
  apply (nonneg_frame st2); [reflexivity | exact C].
Qed.

Lemma nonneg_cmd_tip st now chat uid cmd choice :
  balances_nonneg st -> balances_nonneg (fst (cmd_tip cfg st now chat uid cmd choice)).
Proof.
  intros F. unfold cmd_tip.
  destruct (is_group chat); cbn [negb fst]; [|exact F].
  destruct cmd as [| |mode amt]; [exact F | exact F |].
  destruct (db_get_user st uid) as [sender|] eqn:E; [|exact F].
  destruct amt as [amount|[|]|]; try exact F.
  destruct (coef amount <=? 0) eqn:Ea; [exact F|]. apply Z.leb_gt in Ea.
  destruct (ltb (balance sender) amount) eqn:L; [exact F|].
  destruct mode as [| |target].
  - destruct (other_active cfg st now uid) as [|c rest] eqn:O; [exact F|].
    apply nonneg_tip_single; [exact F | lia | exact L].
  - destruct (other_active cfg st now uid) as [|c rest] eqn:O; [exact F|].
    apply nonneg_tip_split; [exact F | exact Ea | discriminate].
  - destruct (find_by_username st (lower target)); [|exact F].
    apply nonneg_tip_single; [exact F | lia | exact L].
Qed.

Lemma nonneg_cmd_withdraw st now chat uid uname cmd send :
  balances_nonneg st ->
  balances_nonneg (fst (cmd_withdraw cfg st now chat uid uname cmd send)).
Proof.
  intros F. pose proof (nonneg_upsert st uid uname now F) as U.
  unfold cmd_withdraw. destruct (is_private chat); cbn [negb fst]; [|exact F].
  destruct cmd as [[[a|] address]|]; try exact U.
  destruct a as [amount|[|]|]; try exact U.
  - destruct (coef amount <=? 0); [exact U|].
    destruct (db_get_user _ uid) as [u|]; [|exact U].
    destruct (ltb (balance u) amount) eqn:L; [exact U|].
    destruct (coef (sub amount (WITHDRAW_FEE cfg)) <=? 0); [exact U|].
    destruct send as [tx|]; cbn [fst]; [|exact U].
    apply (nonneg_update_balance (rpc_request _ _)); [now apply sub_nonneg | exact U].
  - destruct (db_get_user _ uid); exact U.
Qed.

Lemma nonneg_cmd_faucet st now at_wait at_claim uid uname :
  balances_nonneg st ->
  balances_nonneg (fst (cmd_faucet cfg st now at_wait at_claim uid uname)).
Proof.
  intros F. pose proof (nonneg_upsert st uid uname now F) as U.
  unfold cmd_faucet. destruct (db_get_user _ uid) as [u|] eqn:E; [|exact U].
  destruct (_ <? _); cbn [fst]; [exact U|].
  apply (nonneg_frame (db_update_balance _ uid _)); [reflexivity|].
  apply nonneg_update_balance; [|exact U].
  apply add_nonneg; [now apply (nonneg_get _ uid _ U E) | exact faucet_nonneg].
Qed.

Lemma nonneg_apply_credit st now r total :
  0 <= coef (row_balance r) -> balances_nonneg st ->
  balances_nonneg (apply_credit st now r total).
Proof.
  intros Hr F. unfold apply_credit.
  destruct (ltb (row_credited r) total) eqn:L; [|exact F].
  apply (nonneg_frame (db_update_balance st (row_id r) _)); [reflexivity|].
  apply nonneg_update_balance; [|exact F].
  apply add_nonneg; [exact Hr|]. apply sub_pos in L. lia.
Qed.

Lemma scan_rows_nonneg st :
  balances_nonneg st -> Forall (fun r => 0 <= coef (row_balance r)) (scan_rows st).
Proof.
  unfold balances_nonneg, scan_rows. intros F. apply Forall_forall.
  intros r I. apply in_flat_map in I. destruct I as (u & Iu & Ir).
  rewrite Forall_forall in F. specialize (F u Iu).
  destruct (deposit_address u); [|contradiction].
  destruct Ir as [<-|[]]. exact F.
Qed.

Lemma nonneg_scan recv now rows :
  Forall (fun r => 0 <= coef (row_balance r)) rows ->
  forall st, balances_nonneg st ->
             balances_nonneg (fold_left (scan_step cfg recv now) rows st).
Proof.
  induction 1 as [|r rows Hr _ IH]; intros st F; [exact F|].
  cbn [fold_left]. apply IH. unfold scan_step.
  destruct (recv (row_id r) (row_addr r)); [|exact F].
  now apply nonneg_apply_credit.
Qed.

Lemma nonneg_step st ev :
  balances_nonneg st -> balances_nonneg (fst (step cfg st ev)).
Proof.
  intros F. destruct ev as [now o]. unfold step. cbn [fst snd].
  destruct o.
  - unfold cmd_start. destruct (is_private chat); cbn [negb fst]; [|exact F].
    pose proof (nonneg_get_or_create _ uid newaddr (nonneg_upsert st uid uname now F)) as G.
    destruct (get_or_create_deposit_address _ uid newaddr) as [s [a|]]; exact G.
  - unfold cmd_deposit. destruct (is_private chat); cbn [negb fst]; [|exact F].
    pose proof (nonneg_get_or_create _ uid newaddr (nonneg_upsert st uid uname now F)) as G.
    destruct (get_or_create_deposit_address _ uid newaddr) as [s [a|]]; exact G.
  - unfold cmd_balance. destruct (is_private chat); cbn [negb fst]; [|exact F].
    destruct (db_get_user _ uid); now apply nonneg_upsert.
  - now apply nonneg_cmd_withdraw.
  - unfold mark_active. destruct (is_group chat); cbn [negb fst]; [|exact F].
    destruct from as [[[uid uname] [|]]|]; cbn [fst]; try exact F.
    apply (nonneg_frame (db_upsert_user st uid uname now)); [reflexivity|].
    now apply nonneg_upsert.
  - now apply nonneg_cmd_tip.
  - now apply nonneg_cmd_faucet.
  - cbn [fst]. unfold scanner_pass. apply nonneg_scan; [|exact F].
    now apply scan_rows_nonneg.
Qed.

Lemma nonneg_run_from evs : forall st,
  balances_nonneg st -> balances_nonneg (run_from cfg st evs).
Proof.
  induction evs as [|ev evs IH]; intros st F; [exact F|].
  cbn [run_from fold_left]. apply IH. now apply nonneg_step.
Qed.

End Nonneg.



(** ** Sums *)

Lemma sum_kind_add_transfer k st k' from to a tx now :
  sum_kind k (db_add_transfer st k' from to a tx now) =
  sum_kind k st + (if kind_eqb k' k then units a else 0).
Proof.
  unfold sum_kind, of_kind, db_add_transfer. cbn [transfers].
  rewrite filter_app, map_app, sumZ_app. cbn [filter kind].
  destruct (kind_eqb k' k); cbn; lia.
Qed.

Lemma sum_balances_update_balance st id b u :
  NoDup (map tg_id (users st)) -> db_get_user st id = Some u ->
  sum_balances (db_update_balance st id b) =
  sum_balances st - units (balance u) + units b.
Proof.
  intros N H. unfold sum_balances, db_update_balance. cbn [users with_users].
  rewrite (sumZ_update_where (fun v => units (balance v)) id (set_balance b)
             (users st) u); [reflexivity | intros ?; reflexivity | exact N | exact H].
Qed.

Lemma sum_balances_frame st id f :
  (forall u, balance (f u) = balance u) ->
  sum_balances (with_users st (update_where id f (users st))) = sum_balances st.
Proof.
  intros B. unfold sum_balances. cbn [users with_users]. f_equal.
  apply update_where_frame. intros u. now rewrite B.
Qed.

Lemma sum_balances_nonneg st :
  ledger_wf st -> Forall (fun x => 0 <= x) (map (fun u => units (balance u)) (users st)).
Proof.
  intros W. apply Forall_forall. intros x I. apply in_map_iff in I.
  destruct I as (u & <- & I). pose proof (wf_rows st W) as R.
  rewrite Forall_forall in R. destruct (R u I) as [[_ C] _].
  now apply units_nonneg.
Qed.

(** Every balance is bounded by the sum of the balances. *)
Lemma balance_le_sum st id u :
  ledger_wf st -> db_get_user st id = Some u ->
  0 <= units (balance u) <= sum_balances st.
Proof.
  intros W H. apply get_user_spec in H. destruct H as [I _].
  pose proof (sum_balances_nonneg st W) as F. split.
  - rewrite Forall_forall in F. apply F. now apply (in_map (fun v => units (balance v))).
  - apply sumZ_member_le; [exact F|]. now apply (in_map (fun v => units (balance v))).
Qed.

Lemma sum_kind_nonneg k st : ledger_wf st -> 0 <= sum_kind k st.
Proof.
  intros W. unfold sum_kind. apply sumZ_nonneg. apply Forall_forall.
  intros x I. apply in_map_iff in I. destruct I as (t & <- & I).
  unfold of_kind in I. apply filter_In in I. destruct I as [I _].
  pose proof (wf_log st W) as L. rewrite Forall_forall in L.
  destruct (L t I) as [_ C]. now apply units_nonneg.
Qed.

Lemma wf_get st id u :
  ledger_wf st -> db_get_user st id = Some u ->
  amount_ok (balance u) /\ eight_dp (credited_total u).
Proof.
  intros W H. apply get_user_spec in H. destruct H as [I _].
  pose proof (wf_rows st W) as R. rewrite Forall_forall in R. now apply R.
Qed.

(** ** Well-formedness is kept by every write *)

Lemma wf_update st id f :
  keeps_id f ->
  (forall u, In u (users st) ->
     amount_ok (balance (f u)) /\ eight_dp (credited_total (f u))) ->
  ledger_wf st -> ledger_wf (with_users st (update_where id f (users st))).
Proof.
  intros K H W. constructor; cbn [users transfers with_users].
  - rewrite update_where_ids by exact K. apply (wf_key st W).
  - apply Forall_update_where; [apply (wf_rows st W)|]. intros u I _. now apply H.
  - apply (wf_log st W).
Qed.

Lemma wf_frame st id f :
  keeps_id f ->
  (forall u, balance (f u) = balance u /\ credited_total (f u) = credited_total u) ->
  ledger_wf st -> ledger_wf (with_users st (update_where id f (users st))).
Proof.
  intros K H W. apply wf_update; [exact K | | exact W].
  intros u I. destruct (H u) as [-> ->].
  pose proof (wf_rows st W) as R. rewrite Forall_forall in R. now apply R.
Qed.

Lemma wf_update_balance st id b :
  amount_ok b -> ledger_wf st -> ledger_wf (db_update_balance st id b).
Proof.
  intros B W. apply wf_update; [intros ?; reflexivity | | exact W].
  intros u I. cbn. split; [exact B|].
  pose proof (wf_rows st W) as R. rewrite Forall_forall in R. now apply R.
Qed.

Lemma wf_set_credited st id c :
  eight_dp c -> ledger_wf st -> ledger_wf (db_set_credited_total st id c).
Proof.
  intros C W. apply wf_update; [intros ?; reflexivity | | exact W].
  intros u I. cbn. split; [|exact C].
  pose proof (wf_rows st W) as R. rewrite Forall_forall in R. now apply R.
Qed.

Lemma wf_add_transfer st k from to a tx now :
  amount_ok a -> ledger_wf st -> ledger_wf (db_add_transfer st k from to a tx now).
Proof.
  intros A W. constructor; cbn [users transfers db_add_transfer].
  - apply (wf_key st W).
  - apply (wf_rows st W).
  - apply Forall_app. split; [apply (wf_log st W)|].
    constructor; [exact A | constructor].
Qed.

Lemma wf_rpc st c : ledger_wf st -> ledger_wf (rpc_request st c).
Proof.
  intros W. constructor;
    [apply (wf_key st W) | apply (wf_rows st W) | apply (wf_log st W)].
Qed.

Lemma amount_ok_zero : amount_ok zero.
Proof. split; [unfold eight_dp; cbn; lia | cbn; lia]. Qed.

Lemma wf_upsert st id name now :
  ledger_wf st -> ledger_wf (db_upsert_user st id name now).
Proof.
  intros W. unfold db_upsert_user. destruct (db_get_user st id) eqn:E.
  - apply wf_frame; [intros ?; reflexivity | now split | exact W].
  - constructor; cbn [users transfers with_users].
    + apply (Permutation_NoDup (l := tg_id (new_user id name now) :: map tg_id (users st))).
      * symmetry. apply (Permutation_map tg_id (insert_row_perm _ _)).
      * constructor; [|apply (wf_key st W)]. now apply find_id_none.
    + apply Forall_forall. intros x I. apply insert_row_in in I.
      destruct I as [->|I].
      * cbn. split; [apply amount_ok_zero | apply amount_ok_zero].
      * pose proof (wf_rows st W) as R. rewrite Forall_forall in R. now apply R.
    + apply (wf_log st W).
Qed.

Lemma sum_balances_upsert st id name now :
  sum_balances (db_upsert_user st id name now) = sum_balances st.
Proof.
  unfold db_upsert_user. destruct (db_get_user st id).
  - now apply sum_balances_frame.
  - unfold sum_balances. cbn [users with_users].
    rewrite (sumZ_perm _ _ (Permutation_map _ (insert_row_perm _ _))).
    cbn [map]. rewrite sumZ_cons.
    change (units (balance (new_user id name now))) with 0. lia.
Qed.

Lemma ids_upsert_incl st id name now k :
  In k (map tg_id (users st)) ->
  In k (map tg_id (users (db_upsert_user st id name now))).
Proof.
  intros I. unfold db_upsert_user. destruct (db_get_user st id).
  - cbn [users with_users]. now rewrite update_where_ids by (intros ?; reflexivity).
  - cbn [users with_users].
    apply (Permutation_in _ (Permutation_sym (Permutation_map tg_id (insert_row_perm _ _)))).
    now right.
Qed.



Lemma sum_kind_ext k st st' :
  transfers st' = transfers st -> sum_kind k st' = sum_kind k st.
Proof. intros E. unfold sum_kind, of_kind. now rewrite E. Qed.

Lemma issued_ext st st' : transfers st' = transfers st -> issued st' = issued st.
Proof. intros E. unfold issued. now rewrite !(sum_kind_ext _ st st' E). Qed.

Lemma conservation_ext st st' :
  sum_balances st' = sum_balances st -> transfers st' = transfers st ->
  conservation st -> conservation st'.
Proof.
  unfold conservation. intros B T C.
  now rewrite B, !(sum_kind_ext _ st st' T).
Qed.

Lemma issued_add_transfer st k from to a tx now :
  issued (db_add_transfer st k from to a tx now) =
  issued st + match k with Deposit | Faucet => units a | _ => 0 end.
Proof.
  unfold issued. rewrite !sum_kind_add_transfer. destruct k; cbn; lia.
Qed.

Lemma inv_upsert st id name now :
  ledger_inv st -> ledger_inv (db_upsert_user st id name now).
Proof.
  intros [W C]. split; [now apply wf_upsert|].
  apply (conservation_ext st); [apply sum_balances_upsert | apply upsert_transfers | exact C].
Qed.

Lemma inv_frame st id f :
  keeps_id f ->
  (forall u, balance (f u) = balance u /\ credited_total (f u) = credited_total u) ->
  ledger_inv st -> ledger_inv (with_users st (update_where id f (users st))).
Proof.
  intros K H [W C]. split; [now apply wf_frame|].
  apply (conservation_ext st); [|reflexivity|exact C].
  apply sum_balances_frame. intros u. apply H.
Qed.

Lemma inv_rpc st c : ledger_inv st -> ledger_inv (rpc_request st c).
Proof.
  intros [W C]. split; [now apply wf_rpc|].
  now apply (conservation_ext st).
Qed.

Lemma inv_balance_bound st id u :
  ledger_inv st -> db_get_user st id = Some u ->
  0 <= units (balance u) <= issued st.
Proof.
  intros [W C] H. pose proof (balance_le_sum st id u W H) as B.
  pose proof (sum_kind_nonneg Withdraw st W). unfold conservation in C.
  unfold issued. lia.
Qed.

Lemma inv_get_or_create st id newaddr :
  ledger_inv st -> ledger_inv (fst (get_or_create_deposit_address st id newaddr)).
Proof.
  intros I.
  assert (C : ledger_inv
                (fst (match newaddr with
                      | Some a => (db_set_deposit_address
                                     (rpc_request st (GetNewAddress id)) id a, Some a)
                      | None => (rpc_request st (GetNewAddress id), None)
                      end))).
  { destruct newaddr; cbn [fst]; [|now apply inv_rpc].
    apply (inv_frame (rpc_request st (GetNewAddress id)));
      [intros ?; reflexivity | now split | now apply inv_rpc]. }
  unfold get_or_create_deposit_address.
  destruct (db_get_user st id) as [u|]; [|exact C].
  destruct (deposit_address u) as [a|]; [|exact C].
  destruct (String.eqb a ""); [exact C | exact I].
Qed.

(** ** A debit followed by its record, a credit followed by its record *)

(** Debiting [x <= balance] from the row of [id]. *)
Lemma debit_exact st id u x :
  ledger_wf st -> db_get_user st id = Some u ->
  amount_ok x -> ltb (balance u) x = false ->
  units (balance u) < bound ->
  let st' := db_update_balance st id (sub (balance u) x) in
  ledger_wf st' /\ sum_balances st' = sum_balances st - units x.
Proof.
  intros W H [Ex Cx] L B. cbv zeta.
  destruct (wf_get st id u W H) as [[Eb Cb] _].
  destruct (sub_units (balance u) x Eb Ex L) as (E1 & C1 & X & _).
  pose proof (units_nonneg x Cx).
  split.
  - apply wf_update_balance; [now split | exact W].
  - rewrite (sum_balances_update_balance st id _ u (wf_key st W) H).
    rewrite X by (unfold bound in B; lia). lia.
Qed.

(** Crediting [x] to the row of [id]. *)
Lemma credit_exact st id u x :
  ledger_wf st -> db_get_user st id = Some u ->
  amount_ok x -> sum_balances st + units x < bound ->
  let st' := db_update_balance st id (add (balance u) x) in
  ledger_wf st' /\ sum_balances st' = sum_balances st + units x.
Proof.
  intros W H [Ex Cx] B. cbv zeta.
  destruct (wf_get st id u W H) as [[Eb Cb] _].
  destruct (add_units (balance u) x Eb Ex Cb Cx) as (E1 & C1 & X & _).
  pose proof (balance_le_sum st id u W H).
  split.
  - apply wf_update_balance; [now split | exact W].
  - rewrite (sum_balances_update_balance st id _ u (wf_key st W) H).
    rewrite X by (unfold bound in B; lia). lia.
Qed.

Lemma get_in_ids st id :
  In id (map tg_id (users st)) -> exists u, db_get_user st id = Some u.
Proof. apply find_id_in. Qed.

Lemma ids_update_balance st id b :
  map tg_id (users (db_update_balance st id b)) = map tg_id (users st).
Proof. apply update_where_ids. intros ?; reflexivity. Qed.

(** The loop of the split tip credits every recipient exactly. *)
Lemma credit_each_exact now uid share :
  amount_ok share ->
  forall recipients st,
    ledger_wf st ->
    Forall (fun r => In r (map tg_id (users st))) recipients ->
    sum_balances st + units share * Z.of_nat (List.length recipients) < bound ->
    let out := credit_each st now uid share recipients in
    snd out = true /\ ledger_wf (fst out) /\
    sum_balances (fst out) =
      sum_balances st + units share * Z.of_nat (List.length recipients) /\
    (forall k, k <> Tip -> sum_kind k (fst out) = sum_kind k st).
Proof.
  intros Hs. pose proof (units_nonneg share (proj2 Hs)) as Us.
  induction recipients as [|rid rest IH]; intros st W F B; cbv zeta.
  - cbn [credit_each fst snd List.length]. change (Z.of_nat 0) with 0.
    split; [reflexivity|]. split; [exact W|]. split; [lia | reflexivity].
  - cbn [credit_each]. inversion F as [|? ? Hr Fr]; subst.
    destruct (get_in_ids st rid Hr) as [u Hu]. rewrite Hu.
    cbn [List.length] in B. rewrite Nat2Z.inj_succ in B.
    destruct (credit_exact st rid u share W Hu Hs) as [W1 S1]; [nia|].
    set (st1 := db_update_balance st rid (add (balance u) share)) in *.
    set (st2 := db_add_transfer st1 Tip (Some uid) (Some rid) share None now).
    assert (W2 : ledger_wf st2) by (now apply wf_add_transfer).
    assert (F2 : Forall (fun r => In r (map tg_id (users st2))) rest).
    { apply (Forall_impl _ (P := fun r => In r (map tg_id (users st)))); [|exact Fr].
      intros r I. unfold st2, st1. cbn [users db_add_transfer].
      now rewrite ids_update_balance. }
    assert (S2 : sum_balances st2 = sum_balances st + units share) by exact S1.
    destruct (IH st2 W2 F2) as (A1 & A2 & A3 & A4); [rewrite S2; nia|].
    split; [exact A1|]. split; [exact A2|]. split.
    + rewrite A3, S2. cbn [List.length]. rewrite Nat2Z.inj_succ. nia.
    + intros k Hk. rewrite (A4 k Hk). unfold st2.
      rewrite sum_kind_add_transfer.
      change (sum_kind k st1) with (sum_kind k st).
      destruct k; cbn [kind_eqb]; try lia. exfalso; now apply Hk.
Qed.

(** ** What has been issued never decreases *)

Lemma issued_upsert st id name now :
  issued (db_upsert_user st id name now) = issued st.
Proof. apply issued_ext, upsert_transfers. Qed.

Lemma issued_with_users st us : issued (with_users st us) = issued st.
Proof. reflexivity. Qed.

Lemma transfers_get_or_create st id newaddr :
  transfers (fst (get_or_create_deposit_address st id newaddr)) = transfers st.
Proof.
  unfold get_or_create_deposit_address.
  destruct (db_get_user st id) as [u|]; [destruct (deposit_address u) as [a|];
    [destruct (String.eqb a "")|]|]; destruct newaddr; reflexivity.
Qed.

Lemma issued_credit_each now uid share recipients : forall st,
  issued (fst (credit_each st now uid share recipients)) = issued st.
Proof.
  induction recipients as [|rid rest IH]; intros st; [reflexivity|].
  cbn [credit_each]. destruct (db_get_user st rid); [|reflexivity].
  rewrite IH, issued_add_transfer. apply Z.add_0_r.
Qed.

Lemma issued_tip_single st now uid sender amount rid :
  issued (fst (tip_single st now uid sender amount rid)) = issued st.
Proof.
  unfold tip_single. destruct (db_get_user _ rid); cbn [fst]; [|reflexivity].
  destruct (fmt_amt amount); cbn [fst].
  - unfold db_set_active. rewrite issued_with_users.
    rewrite issued_add_transfer. apply Z.add_0_r.
  - rewrite issued_add_transfer. apply Z.add_0_r.
Qed.

Lemma issued_tip_split st now uid sender amount recipients :
  issued (fst (tip_split st now uid sender amount recipients)) = issued st.
Proof.
  unfold tip_split. destruct (split_share _ _) as [share|]; [|reflexivity].
  destruct (ltb _ _); [reflexivity|].
  pose proof (issued_credit_each now uid share recipients
                (db_update_balance st uid
                   (sub (balance sender)
                        (mul share (of_Z (Z.of_nat (List.length recipients)))))))
    as C.
  destruct (credit_each _ now uid share recipients) as [st2 [|]];
    [destruct (fmt_amt share)|]; cbn [fst] in *; exact C.
Qed.

Section IssuedMonotone.

Variable cfg : config.
Hypothesis faucet_ok : amount_ok (FAUCET_AMOUNT cfg).

Lemma issued_cmd_tip st now chat uid cmd choice :
  issued (fst (cmd_tip cfg st now chat uid cmd choice)) = issued st.
Proof.
  unfold cmd_tip. destruct (is_group chat); cbn [negb fst]; [|reflexivity].
  destruct cmd as [| |mode amt]; try reflexivity.
  destruct (db_get_user st uid) as [sender|]; [|reflexivity].
  destruct amt as [amount|[|]|]; try reflexivity.
  destruct (coef amount <=? 0); [reflexivity|].
  destruct (ltb (balance sender) amount); [reflexivity|].
  destruct mode as [| |target].
  - destruct (other_active cfg st now uid); [reflexivity|]. apply issued_tip_single.
  - destruct (other_active cfg st now uid); [reflexivity|]. apply issued_tip_split.
  - destruct (find_by_username st (lower target)); [|reflexivity].
    apply issued_tip_single.
Qed.

Lemma issued_cmd_withdraw st now chat uid uname cmd send :
  issued (fst (cmd_withdraw cfg st now chat uid uname cmd send)) = issued st.
Proof.
  pose proof (issued_upsert st uid uname now) as U.
  unfold cmd_withdraw. destruct (is_private chat); cbn [negb fst]; [|reflexivity].
  destruct cmd as [[[a|] address]|]; try exact U.
  destruct a as [amount|[|]|]; try exact U.
  - destruct (coef amount <=? 0); [exact U|].
    destruct (db_get_user _ uid) as [u|]; [|exact U].
    destruct (ltb (balance u) amount); [exact U|].
    destruct (coef (sub amount (WITHDRAW_FEE cfg)) <=? 0); [exact U|].
    destruct send as [tx|]; cbn [fst]; [|exact U].
    rewrite issued_add_transfer, Z.add_0_r. exact U.
  - destruct (db_get_user _ uid); exact U.
Qed.

Lemma issued_cmd_faucet st now at_wait at_claim uid uname :
  issued st <= issued (fst (cmd_faucet cfg st now at_wait at_claim uid uname)).
Proof.
  pose proof (issued_upsert st uid uname now) as U.
  unfold cmd_faucet. destruct (db_get_user _ uid) as [u|]; [|cbn [fst]; lia].
  destruct (_ <? _); cbn [fst]; [lia|].
  rewrite issued_add_transfer.
  pose proof (units_nonneg _ (proj2 faucet_ok)).
  change (issued (db_set_last_faucet _ uid at_claim))
    with (issued (db_upsert_user st uid uname now)). lia.
Qed.

Lemma issued_apply_credit st now r total :
  issued st <= issued (apply_credit st now r total).
Proof.
  unfold apply_credit. destruct (ltb (row_credited r) total) eqn:L; [|lia].
  rewrite issued_add_transfer.
  change (issued (db_set_credited_total _ _ _)) with (issued st).
  apply sub_pos in L. pose proof (units_nonneg (sub total (row_credited r))). lia.
Qed.

Lemma issued_scan_step recv now st r :
  issued st <= issued (scan_step cfg recv now st r).
Proof.
  unfold scan_step.
  set (st1 := rpc_request st (GetReceivedByAddress (row_addr r) (MIN_CONF cfg))).
  change (issued st) with (issued st1).
  destruct (recv _ _) as [t|]; [|lia].
  apply issued_apply_credit.
Qed.

Lemma issued_scan recv now rows : forall st,
  issued st <= issued (fold_left (scan_step cfg recv now) rows st).
Proof.
  induction rows as [|r rows IH]; intros st; cbn [fold_left]; [lia|].
  pose proof (issued_scan_step recv now st r). specialize (IH (scan_step cfg recv now st r)).
  lia.
Qed.

Lemma issued_step st ev : issued st <= issued (fst (step cfg st ev)).
Proof.
  destruct ev as [now o]. unfold step. cbn [fst snd]. destruct o.
  - unfold cmd_start. destruct (is_private chat); cbn [negb fst]; [|lia].
    pose proof (transfers_get_or_create (db_upsert_user st uid uname now) uid newaddr) as T.
    destruct (get_or_create_deposit_address _ uid newaddr) as [s [a|]];
      cbn [fst] in *; rewrite (issued_ext _ _ T), issued_upsert; lia.
  - unfold cmd_deposit. destruct (is_private chat); cbn [negb fst]; [|lia].
    pose proof (transfers_get_or_create (db_upsert_user st uid uname now) uid newaddr) as T.
    destruct (get_or_create_deposit_address _ uid newaddr) as [s [a|]];
      cbn [fst] in *; rewrite (issued_ext _ _ T), issued_upsert; lia.
  - unfold cmd_balance. destruct (is_private chat); cbn [negb fst]; [|lia].
    destruct (db_get_user _ uid); cbn [fst]; rewrite issued_upsert; lia.
  - rewrite issued_cmd_withdraw. lia.
  - unfold mark_active. destruct (is_group chat); cbn [negb fst]; [|lia].
    destruct from as [[[uid uname] [|]]|]; cbn [fst]; try lia.
    change (issued (db_set_active _ uid now)) with (issued (db_upsert_user st uid uname now)).
    rewrite issued_upsert. lia.
  - rewrite issued_cmd_tip. lia.
  - apply issued_cmd_faucet.
  - cbn [fst]. apply issued_scan.
Qed.

Lemma issued_run_from evs : forall st, issued st <= issued (run_from cfg st evs).
Proof.
  induction evs as [|ev evs IH]; intros st; [cbn; lia|].
  cbn [run_from fold_left]. pose proof (issued_step st ev).
  specialize (IH (fst (step cfg st ev))). unfold run_from in IH. lia.
Qed.

End IssuedMonotone.

(** ** The invariant is kept by every handler *)

Lemma inv_add_tip_record st uid rid a now :
  amount_ok a -> ledger_wf st ->
  sum_balances st = sum_kind Deposit st + sum_kind Faucet st - sum_kind Withdraw st ->
  ledger_inv (db_add_transfer st Tip (Some uid) (Some rid) a None now).
Proof.
  intros A W C. split; [now apply wf_add_transfer|].
  unfold conservation. rewrite !sum_kind_add_transfer. cbn [kind_eqb].
  change (sum_balances (db_add_transfer st Tip (Some uid) (Some rid) a None now))
    with (sum_balances st). lia.
Qed.

Lemma inv_tip_single st now uid sender amount rid :
  ledger_inv st -> db_get_user st uid = Some sender ->
  amount_ok amount -> ltb (balance sender) amount = false ->
  issued st < bound -> In rid (map tg_id (users st)) ->
  ledger_inv (fst (tip_single st now uid sender amount rid)).
Proof.
  intros [W C] Hs A L B Hr. unfold tip_single.
  pose proof (inv_balance_bound st uid sender (conj W C) Hs) as Bs.
  destruct (debit_exact st uid sender amount W Hs A L ltac:(lia)) as [W1 S1].
  set (st1 := db_update_balance st uid (sub (balance sender) amount)) in *.
  assert (Hr1 : In rid (map tg_id (users st1)))
    by (unfold st1; now rewrite ids_update_balance).
  destruct (get_in_ids st1 rid Hr1) as [u Hu]. rewrite Hu. cbn [fst].
  pose proof (sum_kind_nonneg Withdraw st W) as Wd.
  unfold conservation in C. fold (issued st) in C.
  destruct (credit_exact st1 rid u amount W1 Hu A) as [W2 S2]; [lia|].
  assert (I3 : ledger_inv
                 (db_add_transfer
                    (db_update_balance st1 rid (add (balance u) amount))
                    Tip (Some uid) (Some rid) amount None now)).
  { apply inv_add_tip_record; [exact A | exact W2 |].
    rewrite S2, S1.
    change (sum_kind ?k (db_update_balance st1 rid (add (balance u) amount)))
      with (sum_kind k st).
    unfold issued in C. lia. }
  destruct (fmt_amt amount); cbn [fst]; [|exact I3].
  apply (inv_frame (db_add_transfer _ Tip (Some uid) (Some rid) amount None now));
    [intros ?; reflexivity | now split | exact I3].
Qed.

Lemma split_share_ok amount n share :
  0 < coef amount -> (0 < n)%nat ->
  split_share amount n = Some share -> amount_ok share.
Proof.
  intros Ha Hn H. split; [|now apply (split_share_nonneg amount n)].
  unfold split_share in H. destruct (div _ _); [|discriminate].
  apply quantize_down_spec in H. unfold eight_dp. destruct H as (-> & _). lia.
Qed.

Lemma inv_tip_split st now uid sender amount recipients :
  ledger_inv st -> db_get_user st uid = Some sender ->
  0 < coef amount -> recipients <> [] ->
  Forall (fun r => In r (map tg_id (users st))) recipients ->
  issued st < bound ->
  ledger_inv (fst (tip_split st now uid sender amount recipients)).
Proof.
  intros [W C] Hs Ha Hne Fr B. unfold tip_split.
  destruct (split_share amount (List.length recipients)) as [share|] eqn:S;
    [|now split].
  assert (Hn : (0 < List.length recipients)%nat)
    by (destruct recipients; [contradiction | cbn; lia]).
  pose proof (split_share_ok _ _ _ Ha Hn S) as [Es Cs].
  set (n := Z.of_nat (List.length recipients)) in *.
  destruct (mul_units share n Es Cs ltac:(lia)) as (Et & Ct & X & Y).
  set (total := mul share (of_Z n)) in *.
  destruct (ltb (balance sender) total) eqn:L; [now split|].
  pose proof (inv_balance_bound st uid sender (conj W C) Hs) as Bs.
  destruct (wf_get st uid sender W Hs) as [[Eb Cb] _].
  rewrite (ltb_units _ _ Eb Et) in L. apply Z.ltb_ge in L.
  assert (Xt : units total = units share * n).
  { destruct (Z_lt_le_dec (units share * n) (10 ^ 18)) as [Lt|Ge]; [now apply X|].
    specialize (Y Ge). unfold bound in B. lia. }
  assert (L' : ltb (balance sender) total = false).
  { rewrite (ltb_units _ _ Eb Et). now apply Z.ltb_ge. }
  destruct (debit_exact st uid sender total W Hs (conj Et Ct) L' ltac:(lia)) as [W1 S1].
  set (st1 := db_update_balance st uid (sub (balance sender) total)) in *.
  assert (F1 : Forall (fun r => In r (map tg_id (users st1))) recipients).
  { apply (Forall_impl _ (P := fun r => In r (map tg_id (users st)))); [|exact Fr].
    intros r I. unfold st1. now rewrite ids_update_balance. }
  pose proof (sum_kind_nonneg Withdraw st W) as Wd.
  unfold conservation in C. fold (issued st) in C.
  destruct (credit_each_exact now uid share (conj Es Cs) recipients st1 W1 F1)
    as (A1 & A2 & A3 & A4); [fold n; lia|].
  destruct (credit_each st1 now uid share recipients) as [st2 ok].
  cbn [fst snd] in *. subst ok.
  assert (I2 : ledger_inv st2).
  { split; [exact A2|]. unfold conservation.
    rewrite A3, S1, !A4 by discriminate. fold n.
    change (sum_kind ?k st1) with (sum_kind k st).
    unfold issued in C. lia. }
  destruct (fmt_amt share); cbn [fst]; [|exact I2].
  apply (inv_frame st2); [intros ?; reflexivity | now split | exact I2].
Qed.

Lemma active_since_ids st cutoff r :
  In r (active_since st cutoff) -> In r (map tg_id (users st)).
Proof.
  unfold active_since. intros I. apply in_map_iff in I.
  destruct I as (u & <- & I). apply filter_In in I. now apply in_map.
Qed.

Lemma find_by_username_ids st name rid :
  find_by_username st name = Some rid -> In rid (map tg_id (users st)).
Proof.
  unfold find_by_username. intros H.
  destruct (find _ (users st)) as [u|] eqn:E; [|discriminate].
  injection H as <-. apply find_some in E. now apply in_map.
Qed.

Section HandlerInvariant.

Variable cfg : config.
Hypothesis faucet_ok : amount_ok (FAUCET_AMOUNT cfg).

Lemma other_active_ids st now uid r :
  In r (other_active cfg st now uid) -> In r (map tg_id (users st)).
Proof.
  unfold other_active. intros I. apply filter_In in I.
  now apply (active_since_ids st (now - ACTIVE_WINDOW cfg)).
Qed.

Lemma inv_cmd_tip st now chat uid cmd choice :
  ledger_inv st -> op_8dp (OpTip chat uid cmd choice) -> issued st < bound ->
  ledger_inv (fst (cmd_tip cfg st now chat uid cmd choice)).
Proof.
  intros I O B. unfold cmd_tip.
  destruct (is_group chat); cbn [negb fst]; [|exact I].
  destruct cmd as [| |mode amt]; [exact I | exact I |].
  destruct (db_get_user st uid) as [sender|] eqn:E; [|exact I].
  destruct amt as [amount|[|]|]; try exact I.
  cbn in O.
  destruct (coef amount <=? 0) eqn:Ea; [exact I|]. apply Z.leb_gt in Ea.
  destruct (ltb (balance sender) amount) eqn:L; [exact I|].
  assert (A : amount_ok amount) by (split; [exact O | lia]).
  destruct mode as [| |target].
  - destruct (other_active cfg st now uid) as [|c rest] eqn:Oa; [exact I|].
    apply inv_tip_single; auto.
    apply (other_active_ids st now uid). rewrite Oa.
    apply nth_In. apply Nat.mod_upper_bound. discriminate.
  - destruct (other_active cfg st now uid) as [|c rest] eqn:Oa; [exact I|].
    apply inv_tip_split; auto; [discriminate|].
    apply Forall_forall. intros r Hr. apply (other_active_ids st now uid).
    now rewrite Oa.
  - destruct (find_by_username st (lower target)) as [rid|] eqn:F; [|exact I].
    apply inv_tip_single; auto. now apply (find_by_username_ids st (lower target)).
Qed.

Lemma inv_cmd_withdraw st now chat uid uname cmd send :
  ledger_inv st -> op_8dp (OpWithdraw chat uid uname cmd send) ->
  issued st < bound ->
  ledger_inv (fst (cmd_withdraw cfg st now chat uid uname cmd send)).
Proof.
  intros I O B. pose proof (inv_upsert st uid uname now I) as U.
  unfold cmd_withdraw. destruct (is_private chat); cbn [negb fst]; [|exact I].
  destruct cmd as [[[a|] address]|]; try exact U.
  destruct a as [amount|[|]|]; try exact U.
  - cbn in O.
    destruct (coef amount <=? 0) eqn:Ea; [exact U|]. apply Z.leb_gt in Ea.
    destruct (db_get_user _ uid) as [u|] eqn:E; [|exact U].
    destruct (ltb (balance u) amount) eqn:L; [exact U|].
    destruct (coef (sub amount (WITHDRAW_FEE cfg)) <=? 0); [exact U|].
    destruct send as [tx|]; cbn [fst]; [|now apply inv_rpc].
    assert (A : amount_ok amount) by (split; [exact O | lia]).
    set (st1 := db_upsert_user st uid uname now) in *.
    pose proof (inv_rpc st1 (SendToAddress address (float_of (sub amount (WITHDRAW_FEE cfg)))) U)
      as [W2 C2].
    set (st2 := rpc_request st1 _) in *.
    assert (E2 : db_get_user st2 uid = Some u) by exact E.
    pose proof (inv_balance_bound st2 uid u (conj W2 C2) E2) as Bu.
    assert (B2 : issued st2 < bound).
    { change (issued st2) with (issued st1). unfold st1. now rewrite issued_upsert. }
    destruct (debit_exact st2 uid u amount W2 E2 A L ltac:(lia)) as [W3 S3].
    split; [now apply wf_add_transfer|].
    unfold conservation in *. rewrite !sum_kind_add_transfer. cbn [kind_eqb].
    change (sum_balances (db_add_transfer ?s Withdraw (Some uid) None amount (Some tx) now))
      with (sum_balances s).
    rewrite S3.
    change (sum_kind ?k (db_update_balance st2 uid (sub (balance u) amount)))
      with (sum_kind k st2).
    lia.
  - destruct (db_get_user _ uid); exact U.
Qed.

Lemma inv_cmd_faucet st now at_wait at_claim uid uname :
  ledger_inv st -> issued (fst (cmd_faucet cfg st now at_wait at_claim uid uname)) < bound ->
  ledger_inv (fst (cmd_faucet cfg st now at_wait at_claim uid uname)).
Proof.
  intros I. pose proof (inv_upsert st uid uname now I) as U.
  unfold cmd_faucet. destruct (db_get_user _ uid) as [u|] eqn:E; [|intros _; exact U].
  destruct (_ <? _); cbn [fst]; [intros _; exact U|].
  rewrite issued_add_transfer.
  change (issued (db_set_last_faucet _ uid at_claim))
    with (issued (db_upsert_user st uid uname now)).
  intros B. destruct U as [W1 C1].
  set (st1 := db_upsert_user st uid uname now) in *.
  pose proof (sum_kind_nonneg Withdraw st1 W1) as Wd.
  unfold conservation in C1. fold (issued st1) in C1.
  destruct (credit_exact st1 uid u (FAUCET_AMOUNT cfg) W1 E faucet_ok) as [W2 S2];
    [lia|].
  set (st2 := db_update_balance st1 uid _) in *.
  assert (W3 : ledger_wf (db_set_last_faucet st2 uid at_claim)).
  { apply wf_frame; [intros ?; reflexivity | now split | exact W2]. }
  split; [now apply wf_add_transfer|].
  unfold conservation. rewrite !sum_kind_add_transfer. cbn [kind_eqb].
  change (sum_balances (db_add_transfer ?s Faucet None (Some uid) (FAUCET_AMOUNT cfg) None now))
    with (sum_balances s).
  unfold db_set_last_faucet. rewrite sum_balances_frame by reflexivity.
  rewrite S2.
  change (sum_kind ?k (with_users st2 _)) with (sum_kind k st1).
  unfold issued in C1. lia.
Qed.

End HandlerInvariant.

(** ** The scanner *)

Lemma inv_apply_credit st now r total :
  ledger_inv st -> row_current st r -> eight_dp total ->
  issued (apply_credit st now r total) < bound ->
  ledger_inv (apply_credit st now r total).
Proof.
  intros [W C] (u & Hu & _ & Hc & Hb) Et. unfold apply_credit.
  destruct (ltb (row_credited r) total) eqn:L; [|intros _; now split].
  rewrite issued_add_transfer.
  change (issued (db_set_credited_total _ _ _)) with (issued st).
  intros B.
  destruct (wf_get st (row_id r) u W Hu) as [[Eb Cb] Ec].
  rewrite <- Hc, <- Hb in *.
  assert (L' : ltb total (credited_total u) = false).
  { rewrite (ltb_units _ _ Ec Et) in L. rewrite (ltb_units _ _ Et Ec).
    apply Z.ltb_lt in L. apply Z.ltb_ge. lia. }
  destruct (sub_units total (credited_total u) Et Ec L') as (Ed & Cd & X & Y).
  set (diff := sub total (credited_total u)) in *.
  pose proof (sum_kind_nonneg Withdraw st W) as Wd.
  pose proof (sum_kind_nonneg Deposit st W) as Dp.
  pose proof (sum_kind_nonneg Faucet st W) as Fc.
  pose proof (units_nonneg diff Cd) as Ud.
  unfold conservation in C. unfold issued in B.
  destruct (credit_exact st (row_id r) u diff W Hu (conj Ed Cd)) as [W1 S1]; [lia|].
  set (st1 := db_update_balance st (row_id r) (add (balance u) diff)) in *.
  assert (W2 : ledger_wf (db_set_credited_total st1 (row_id r) total))
    by (now apply wf_set_credited).
  split; [now apply wf_add_transfer|].
  unfold conservation. rewrite !sum_kind_add_transfer. cbn [kind_eqb].
  change (sum_balances (db_add_transfer ?s Deposit None (Some (row_id r)) diff None now))
    with (sum_balances s).
  unfold db_set_credited_total. rewrite sum_balances_frame by reflexivity.
  rewrite S1.
  change (sum_kind ?k (with_users st1 _)) with (sum_kind k st).
  lia.
Qed.

Lemma inv_scan_step cfg recv now st r :
  (forall id addr t, recv id addr = Some t -> eight_dp t) ->
  ledger_inv st -> row_current st r ->
  issued (scan_step cfg recv now st r) < bound ->
  ledger_inv (scan_step cfg recv now st r).
Proof.
  intros R I Rc. unfold scan_step.
  destruct (recv (row_id r) (row_addr r)) as [t|] eqn:E; [|intros _; now apply inv_rpc].
  apply inv_apply_credit; [now apply inv_rpc | exact Rc | now apply (R _ _ _ E)].
Qed.

(** Crediting one row leaves the snapshot of the other rows current. *)
Lemma row_current_scan_step cfg recv now st r r' :
  row_id r' <> row_id r -> row_current st r' ->
  row_current (scan_step cfg recv now st r) r'.
Proof.
  intros N (u & Hu & Ha & Hc & Hb). exists u.
  split; [|now repeat split].
  unfold scan_step. destruct (recv _ _); [|exact Hu].
  unfold apply_credit. destruct (ltb _ _); [|exact Hu].
  get_simpl. apply Z.eqb_neq in N. now rewrite N.
Qed.

Lemma inv_scan cfg recv now :
  (forall id addr t, recv id addr = Some t -> eight_dp t) ->
  forall rows st,
    NoDup (map row_id rows) -> Forall (row_current st) rows ->
    ledger_inv st ->
    issued (fold_left (scan_step cfg recv now) rows st) < bound ->
    ledger_inv (fold_left (scan_step cfg recv now) rows st).
Proof.
  intros R. induction rows as [|r rows IH]; intros st N F I B; [exact I|].
  cbn [fold_left] in *. cbn [map] in N.
  inversion N as [|? ? Hn N']; subst. inversion F as [|? ? Hr Fr]; subst.
  pose proof (issued_scan cfg recv now rows (scan_step cfg recv now st r)) as M.
  apply IH; [exact N' | | | exact B].
  - apply Forall_forall. intros r' Ir'. rewrite Forall_forall in Fr.
    apply row_current_scan_step; [|now apply Fr].
    intros Eq. apply Hn. rewrite <- Eq. now apply in_map.
  - apply inv_scan_step; auto. lia.
Qed.

Lemma scan_rows_sub us x :
  In x (map row_id (scan_rows (mkState us [] []))) -> In x (map tg_id us).
Proof.
  unfold scan_rows. cbn [users].
  induction us as [|u us IH]; intros I; [exact I|].
  cbn [flat_map] in I. rewrite map_app, in_app_iff in I. cbn [map].
  destruct I as [I|I]; [|right; now apply IH].
  destruct (deposit_address u); [|contradiction].
  destruct I as [<-|[]]. now left.
Qed.

Lemma scan_rows_key st :
  NoDup (map tg_id (users st)) -> NoDup (map row_id (scan_rows st)).
Proof.
  unfold scan_rows. induction (users st) as [|u us IH]; intros N; [constructor|].
  cbn [map] in N. inversion N as [|? ? Hn N']; subst.
  cbn [flat_map]. rewrite map_app.
  destruct (deposit_address u); cbn [map app]; [|now apply IH].
  constructor; [|now apply IH]. intros I. apply Hn.
  now apply (scan_rows_sub us).
Qed.

Lemma scan_rows_current st :
  NoDup (map tg_id (users st)) -> Forall (row_current st) (scan_rows st).
Proof.
  intros N. apply Forall_forall. intros r I. unfold scan_rows in I.
  apply in_flat_map in I. destruct I as (u & Iu & Ir).
  destruct (deposit_address u) as [a|] eqn:A; [|contradiction].
  destruct Ir as [<-|[]]. exists u. cbn. repeat split; auto.
  unfold db_get_user. now apply find_id_unique.
Qed.

Section RunInvariant.

Variable cfg : config.
Hypothesis faucet_ok : amount_ok (FAUCET_AMOUNT cfg).

Lemma inv_step st ev :
  ledger_inv st -> op_8dp (snd ev) -> issued (fst (step cfg st ev)) < bound ->
  ledger_inv (fst (step cfg st ev)).
Proof.
  intros I O B. pose proof (issued_step cfg faucet_ok st ev) as M.
  assert (B0 : issued st < bound) by lia.
  destruct ev as [now o]. unfold step in *. cbn [fst snd] in *. destruct o.
  - unfold cmd_start. destruct (is_private chat); cbn [negb fst]; [|exact I].
    pose proof (inv_get_or_create _ uid newaddr (inv_upsert st uid uname now I)) as G.
    destruct (get_or_create_deposit_address _ uid newaddr) as [s [a|]]; exact G.
  - unfold cmd_deposit. destruct (is_private chat); cbn [negb fst]; [|exact I].
    pose proof (inv_get_or_create _ uid newaddr (inv_upsert st uid uname now I)) as G.
    destruct (get_or_create_deposit_address _ uid newaddr) as [s [a|]]; exact G.
  - unfold cmd_balance. destruct (is_private chat); cbn [negb fst]; [|exact I].
    destruct (db_get_user _ uid); now apply inv_upsert.
  - now apply inv_cmd_withdraw.
  - unfold mark_active. destruct (is_group chat); cbn [negb fst]; [|exact I].
    destruct from as [[[uid uname] [|]]|]; cbn [fst]; try exact I.
    apply (inv_frame (db_upsert_user st uid uname now));
      [intros ?; reflexivity | now split | now apply inv_upsert].
  - now apply inv_cmd_tip.
  - now apply inv_cmd_faucet.
  - cbn [fst] in *. unfold scanner_pass in *. destruct I as [W C].
    apply inv_scan; auto.
    + apply scan_rows_key, (wf_key st W).
    + apply scan_rows_current, (wf_key st W).
    + now split.
Qed.

Lemma inv_run_from evs : forall st,
  ledger_inv st -> Forall (fun ev => op_8dp (snd ev)) evs ->
  issued (run_from cfg st evs) < bound ->
  ledger_inv (run_from cfg st evs).
Proof.
  induction evs as [|ev evs IH]; intros st I F B; [exact I|].
  inversion F as [|? ? Hev Fevs]; subst.
  cbn [run_from fold_left] in *.
  pose proof (issued_run_from cfg faucet_ok evs (fst (step cfg st ev))) as M.
  unfold run_from in M.
  apply IH; [|exact Fevs|exact B]. apply inv_step; auto. lia.
Qed.

Lemma inv_empty : ledger_inv empty_state.
Proof.
  split; [constructor; constructor|]. reflexivity.
Qed.

End RunInvariant.


(* ===================================================================== *)
(** * Split tips and scanner passes *)
(* ===================================================================== *)

(** ** The share of a split tip *)

(** [strip_zeros] keeps the value. *)
Lemma strip_zeros_value fuel : forall c e ideal,
  0 < c ->
  let out := strip_zeros fuel c e ideal in
  0 < fst out /\ e <= snd out /\ fst out * 10 ^ (snd out - e) = c.
Proof.
  induction fuel as [|f IH]; intros c e ideal Hc; cbv zeta; cbn [strip_zeros].
  - cbn [fst snd]. rewrite Z.sub_diag. repeat split; lia.
  - destruct ((e <? ideal) && (c mod 10 =? 0)) eqn:E.
    + apply andb_prop in E. destruct E as [_ E]. apply Z.eqb_eq in E.
      pose proof (Z.div_mod c 10 ltac:(lia)) as DM. rewrite E in DM.
      assert (Hc' : 0 < c / 10) by lia.
      destruct (IH (c / 10) (e + 1) ideal Hc') as (A & B & C).
      set (out := strip_zeros f (c / 10) (e + 1) ideal) in *.
      split; [exact A|]. split; [lia|].
      replace (snd out - e) with ((snd out - (e + 1)) + 1) by lia.
      rewrite pow10_split by lia. change (10 ^ 1) with 10. lia.
    + cbn [fst snd]. rewrite Z.sub_diag. repeat split; lia.
Qed.

(** Rounding to the context precision, read on the value scaled to an
    exponent [e] below the decimal's own: the value moves to a neighbouring
    multiple of [P = 10 ^ (digits - 18)], upwards only from the upper half. *)
Lemma fix_scaled (c1 e1 e : Z) :
  0 < c1 -> e <= e1 ->
  let V1 := c1 * 10 ^ (e1 - e) in
  let P := 10 ^ Z.max 0 (ndigits V1 - 18) in
  let R := fix_ctx (mk c1 e1) in
  let VR := coef R * 10 ^ (dexp R - e) in
  e1 <= dexp R /\ 0 < coef R /\
  (VR = V1 / P * P \/ (VR = V1 / P * P + P /\ P <= 2 * (V1 mod P))).
Proof.
  intros Hc He. cbv zeta.
  set (k := e1 - e). assert (Hk : 0 <= k) by (unfold k; lia).
  pose proof (pow10_pos k Hk) as Pk.
  rewrite (ndigits_mul_pow c1 k Hc Hk).
  destruct (Z_le_gt_dec (ndigits c1) 18) as [S|L].
  - (* no rounding *)
    assert (F : fix_ctx (mk c1 e1) = mk c1 e1).
    { unfold fix_ctx. cbn [coef]. apply Z.leb_le in S. unfold prec. now rewrite S. }
    rewrite F. cbn [coef dexp]. fold k.
    split; [lia|]. split; [exact Hc|]. left.
    set (j := Z.max 0 (ndigits c1 + k - 18)).
    assert (Hj : 0 <= j <= k) by (unfold j; lia).
    replace k with ((k - j) + j) at 1 2 by lia.
    rewrite pow10_split by lia. rewrite Z.mul_assoc.
    rewrite Z.div_mul by (pose proof (pow10_pos j); lia). reflexivity.
  - (* rounding *)
    destruct (ndigits_spec c1) as (_ & B & C). specialize (C ltac:(lia)).
    rewrite Z.abs_eq in B, C by lia.
    replace (Z.max 0 (ndigits c1 + k - 18)) with ((ndigits c1 - 18) + k) by lia.
    set (drop := ndigits c1 - 18) in *.
    assert (Hd : 1 <= drop) by (unfold drop; lia).
    pose proof (pow10_pos drop ltac:(lia)) as Pd.
    rewrite (pow10_split drop k) by lia.
    assert (Hq : c1 * 10 ^ k / (10 ^ drop * 10 ^ k) = c1 / 10 ^ drop).
    { apply Z.div_mul_cancel_r; lia. }
    assert (Hr : (c1 * 10 ^ k) mod (10 ^ drop * 10 ^ k) = (c1 mod 10 ^ drop) * 10 ^ k).
    { apply Z.mul_mod_distr_r; lia. }
    rewrite Hq, Hr.
    unfold fix_ctx. cbn [coef dexp].
    assert (E : (ndigits c1 <=? prec) = false) by (apply Z.leb_gt; unfold prec; lia).
    rewrite E. fold drop. unfold prec. change (ndigits c1 - 18) with drop.
    rewrite Z.abs_eq, Z.sgn_pos by lia.
    assert (Hlo : 10 ^ 17 <= c1 / 10 ^ drop).
    { apply Z.div_le_lower_bound; [lia|].
      assert (Hs : 10 ^ (ndigits c1 - 1) = 10 ^ drop * 10 ^ 17).
      { rewrite <- pow10_split by lia. f_equal. unfold drop. lia. }
      lia. }
    assert (RH : round_half_even c1 drop = c1 / 10 ^ drop \/
                 (round_half_even c1 drop = c1 / 10 ^ drop + 1 /\
                  10 ^ drop <= 2 * (c1 mod 10 ^ drop))).
    { unfold round_half_even.
      destruct (10 ^ drop <? 2 * (c1 mod 10 ^ drop)) eqn:E1; cbn [orb].
      - right. apply Z.ltb_lt in E1. split; lia.
      - destruct (10 ^ drop =? 2 * (c1 mod 10 ^ drop)) eqn:E2; cbn [andb].
        + apply Z.eqb_eq in E2. destruct (Z.odd _); [right; split; lia | now left].
        + now left. }
    set (rq := round_half_even c1 drop) in *.
    assert (VR : forall cR eR, cR * 10 ^ (eR - e1) = rq * 10 ^ drop -> e1 <= eR ->
                 cR * 10 ^ (eR - e) = rq * (10 ^ drop * 10 ^ k)).
    { intros cR eR H1 H2. replace (eR - e) with ((eR - e1) + k) by (unfold k; lia).
      rewrite pow10_split by lia. nia. }
    destruct (rq =? 10 ^ 18) eqn:Q.
    + apply Z.eqb_eq in Q. cbn [coef dexp].
      split; [lia|]. split; [lia|].
      assert (V : 1 * 10 ^ (18 - 1) * 10 ^ (e1 + drop + 1 - e) = rq * (10 ^ drop * 10 ^ k)).
      { apply VR; [|lia]. replace (e1 + drop + 1 - e1) with (1 + drop) by lia.
        rewrite pow10_split by lia. rewrite Q. change (10 ^ (18 - 1)) with (10 ^ 17).
        change (10 ^ 18) with (10 ^ 17 * 10 ^ 1). lia. }
      rewrite V. destruct RH as [->|[-> H2]]; [left; lia | right; split; nia].
    + cbn [coef dexp]. split; [lia|]. split; [destruct RH as [->|[-> _]]; lia|].
      assert (V : 1 * rq * 10 ^ (e1 + drop - e) = rq * (10 ^ drop * 10 ^ k)).
      { rewrite Z.mul_1_l. apply VR; [|lia]. f_equal. f_equal. lia. }
      rewrite V. destruct RH as [->|[-> H2]]; [left; lia | right; split; nia].
Qed.

(** Truncation to eight decimals, read on the value scaled by [10 ^ f]. *)
Lemma quantize_scaled (cR eR f : Z) :
  0 < cR -> 0 <= f -> -8 - f <= eR ->
  let VR := cR * 10 ^ (eR - (-8 - f)) in
  VR < 10 ^ (18 + f) ->
  quantize_down (mk cR eR) (-8) = Some (mk (VR / 10 ^ f) (-8)).
Proof.
  intros Hc Hf He VR Hv.
  set (k := eR - (-8 - f)) in *. assert (Hk : 0 <= k) by (unfold k; lia).
  pose proof (pow10_pos k Hk) as Pk. pose proof (pow10_pos f Hf) as Pf.
  assert (Dv : ndigits cR + k <= 18 + f).
  { rewrite <- ndigits_mul_pow by lia. apply ndigits_le; [lia|].
    rewrite Z.abs_eq by (unfold VR in *; nia). exact Hv. }
  assert (Q : VR / 10 ^ f < 10 ^ 18).
  { apply Z.div_lt_upper_bound; [lia|]. rewrite <- pow10_split by lia.
    replace (f + 18) with (18 + f) by lia. exact Hv. }
  assert (Q0 : 0 <= VR / 10 ^ f) by (apply Z.div_pos; unfold VR; nia).
  unfold quantize_down. cbn [coef dexp].
  assert (E0 : (cR =? 0) = false) by (apply Z.eqb_neq; lia). rewrite E0.
  assert (E1 : (prec <? ndigits cR + eR - -8) = false).
  { apply Z.ltb_ge. unfold prec, k in *. lia. }
  rewrite E1.
  assert (C : (if -8 <=? eR then cR * 10 ^ (eR - -8)
               else cR ÷ 10 ^ (-8 - eR)) = VR / 10 ^ f).
  { destruct (-8 <=? eR) eqn:E.
    - apply Z.leb_le in E. unfold VR, k.
      replace (eR - (-8 - f)) with ((eR - -8) + f) by lia.
      rewrite pow10_split by lia. rewrite Z.mul_assoc.
      now rewrite Z.div_mul by lia.
    - apply Z.leb_gt in E.
      rewrite Z.quot_div_nonneg by (try lia; apply pow10_pos; lia).
      unfold VR. replace f with ((-8 - eR) + k) at 1 by (unfold k; lia).
      rewrite pow10_split by lia.
      rewrite Z.div_mul_cancel_r; [reflexivity| |lia].
      pose proof (pow10_pos (-8 - eR)). lia. }
  rewrite C.
  assert (E2 : (prec <? ndigits (VR / 10 ^ f)) = false).
  { apply Z.ltb_ge. apply ndigits_le; [unfold prec; lia|].
    rewrite Z.abs_eq by lia. exact Q. }
  now rewrite E2.
Qed.

(** A quotient that the sticky digit may have bumped keeps its number of
    digits. *)
Lemma ndigits_sticky (q : Z) :
  0 < q -> q mod 5 = 0 -> ndigits (q + 1) = ndigits q.
Proof.
  intros Hq H5.
  destruct (ndigits_spec q) as (A & B & C). specialize (C ltac:(lia)).
  rewrite Z.abs_eq in B, C by lia.
  apply ndigits_unique; [lia | lia |].
  destruct (Z.eq_dec (q + 1) (10 ^ ndigits q)) as [E|]; [exfalso|lia].
  assert (T : 10 ^ ndigits q = 5 * (2 * 10 ^ (ndigits q - 1))).
  { replace (ndigits q) with ((ndigits q - 1) + 1) at 1 by lia.
    rewrite pow10_split by lia. change (10 ^ 1) with 10. lia. }
  assert (q = 5 * (2 * 10 ^ (ndigits q - 1) - 1) + 4) by lia.
  assert ((5 * (2 * 10 ^ (ndigits q - 1) - 1) + 4) mod 5 = 4).
  { rewrite Z.add_comm, Z.mul_comm, Z.mod_add by lia. reflexivity. }
  congruence.
Qed.

(** The arithmetic core: a quotient [q = N / b] of 19 or 20 digits, with
    [N = A * 10 ^ f], rounded to a multiple of [P] and cut at [10 ^ f],
    gives [A / b] as long as [b * P < 2 * 10 ^ f]. *)
Lemma rounded_quotient_floor (A b f d q r V1 VR : Z) :
  0 < b -> 0 <= A -> 1 <= d <= f ->
  A * 10 ^ f = b * q + r -> 0 <= r < b ->
  b * 10 ^ d < 2 * 10 ^ f ->
  (V1 = q \/ (V1 = q + 1 /\ q mod 5 = 0)) ->
  (VR = V1 / 10 ^ d * 10 ^ d \/
   (VR = V1 / 10 ^ d * 10 ^ d + 10 ^ d /\ 10 ^ d <= 2 * (V1 mod 10 ^ d))) ->
  A / b * 10 ^ f <= VR < (A / b + 1) * 10 ^ f.
Proof.
  intros Hb HA Hd HN Hr HP HV HR.
  set (m0 := A / b) in *.
  set (P := 10 ^ d) in *.
  assert (PG : 10 ^ f = P * 10 ^ (f - d)).
  { unfold P. rewrite <- pow10_split by lia. f_equal. lia. }
  set (G := 10 ^ (f - d)) in *.
  assert (HG : 0 < G) by (apply pow10_pos; lia).
  assert (HPp : 0 < P) by (apply pow10_pos; lia).
  assert (P5 : exists P', P = 10 * P' /\ 0 < P').
  { exists (10 ^ (d - 1)). split; [|apply pow10_pos; lia].
    unfold P. replace d with (1 + (d - 1)) at 1 by lia.
    rewrite pow10_split by lia. reflexivity. }
  destruct P5 as (P' & EP & HP').
  pose proof (Z.div_mod A b ltac:(lia)) as DA. fold m0 in DA.
  pose proof (Z.mod_pos_bound A b Hb) as MA.
  assert (Hm0 : 0 <= m0) by (apply Z.div_pos; lia).
  (* q lies between m0 * 10^f and (m0 + 1) * 10^f, well below the latter *)
  assert (Lq : m0 * (P * G) <= q) by nia.
  assert (Uq : 2 * ((m0 + 1) * (P * G) - q) >= P + 1).
  { assert (((m0 + 1) * (P * G) - q) * b >= P * G + r) by nia.
    assert (2 * ((m0 + 1) * (P * G) - q) * b > b * P) by nia.
    nia. }
  assert (Uq' : 2 * ((m0 + 1) * (P * G) - q) >= P + 2).
  { assert (exists t, 2 * ((m0 + 1) * (P * G) - q) - P = 2 * t) as [t Ht].
    { exists ((m0 + 1) * (P * G) - q - 5 * P'). lia. }
    lia. }
  assert (UV : 2 * ((m0 + 1) * (P * G) - V1) > P).
  { destruct HV as [->|[-> H5]]; [lia|].
    destruct (Z.eq_dec (2 * ((m0 + 1) * (P * G) - (q + 1))) P) as [E|]; [exfalso|lia].
    assert (Eq : q = 5 * (2 * (m0 + 1) * P' * G - P' - 1) + 4) by nia.
    assert (M : (5 * (2 * (m0 + 1) * P' * G - P' - 1) + 4) mod 5 = 4).
    { rewrite Z.add_comm, Z.mul_comm, Z.mod_add by lia. reflexivity. }
    rewrite <- Eq in M. lia. }
  assert (LV : m0 * (P * G) <= V1) by (destruct HV as [->|[-> _]]; lia).
  pose proof (Z.div_mod V1 P ltac:(lia)) as DV.
  pose proof (Z.mod_pos_bound V1 P HPp) as MV.
  set (K := V1 / P) in *. set (R0 := V1 mod P) in *.
  assert (LK : m0 * G <= K).
  { assert (T : P * (m0 * G) < P * (K + 1)) by lia.
    apply Z.mul_lt_mono_pos_l in T; lia. }
  assert (UK : K + 1 <= (m0 + 1) * G).
  { assert (T : P * K < P * ((m0 + 1) * G)) by lia.
    apply Z.mul_lt_mono_pos_l in T; lia. }
  assert (LKP : P * (m0 * G) <= P * K)
    by (apply Z.mul_le_mono_nonneg_l; lia).
  assert (UKP : P * (K + 1) <= P * ((m0 + 1) * G))
    by (apply Z.mul_le_mono_nonneg_l; lia).
  rewrite PG.
  destruct HR as [->|[-> HU]]; split; lia.
Qed.

(** In the everyday range the split share is the floor: for an amount of
    at most eight decimal places below 2 * 10^9 coins, [split_share] is the
    amount in units divided (floor) by the number of recipients. *)
Theorem split_share_is_floor (amount : decimal) (n : nat) :
  eight_dp amount -> 0 < coef amount -> units amount < 2 * 10 ^ 17 ->
  (0 < n)%nat ->
  split_share amount n = Some (mk (units amount / Z.of_nat n) (-8)).
Proof.
  intros E8 Ha HA Hn.
  destruct amount as [a ea]. unfold eight_dp, units in *. cbn [coef dexp] in *.
  set (b := Z.of_nat n). assert (Hb : 0 < b) by (unfold b; lia).
  set (A := a * 10 ^ (ea + 8)) in *.
  pose proof (pow10_pos (ea + 8) ltac:(lia)) as Pe.
  assert (HaA : a <= A) by (unfold A; nia).
  destruct (ndigits_spec a) as (La1 & La2 & La3). specialize (La3 ltac:(lia)).
  destruct (ndigits_spec b) as (Lb1 & Lb2 & Lb3). specialize (Lb3 ltac:(lia)).
  rewrite Z.abs_eq in La2, La3, Lb2, Lb3 by lia.
  set (la := ndigits a) in *. set (lb := ndigits b) in *.
  assert (Hla : la <= 18).
  { destruct (Z_le_gt_dec la 18); [assumption|exfalso].
    assert (10 ^ 18 <= 10 ^ (la - 1)) by (apply Z.pow_le_mono_r; lia).
    change (10 ^ 17) with 100000000000000000 in *.
    change (10 ^ 18) with 1000000000000000000 in *. lia. }
  set (shift := lb - la + 19).
  assert (Hs : 2 <= shift) by (unfold shift; lia).
  set (N := a * 10 ^ shift).
  set (q := N / b). set (r := N mod b).
  pose proof (Z.div_mod N b ltac:(lia)) as DN. fold q r in DN.
  pose proof (Z.mod_pos_bound N b Hb) as Mr. fold r in Mr.
  assert (NL : 10 ^ 18 * 10 ^ lb <= N).
  { unfold N. assert (E : 10 ^ (la - 1) * 10 ^ shift = 10 ^ 18 * 10 ^ lb).
    { rewrite <- !pow10_split by lia. f_equal. unfold shift. lia. }
    pose proof (pow10_pos shift ltac:(lia)). nia. }
  assert (NU : N < 10 ^ 20 * 10 ^ (lb - 1)).
  { unfold N. assert (E : 10 ^ la * 10 ^ shift = 10 ^ 20 * 10 ^ (lb - 1)).
    { rewrite <- !pow10_split by lia. f_equal. unfold shift. lia. }
    pose proof (pow10_pos shift ltac:(lia)). nia. }
  pose proof (pow10_pos lb ltac:(lia)) as Plb.
  pose proof (pow10_pos (lb - 1) ltac:(lia)) as Plb1.
  assert (qL : 10 ^ 18 <= q).
  { unfold q. apply Z.div_le_lower_bound; [lia|]. nia. }
  assert (qU : q < 10 ^ 20).
  { unfold q. apply Z.div_lt_upper_bound; [lia|]. nia. }
  (* the exponent of the raw quotient lies below the eighth decimal *)
  set (f := shift - ea - 8).
  assert (Hf : 1 <= f).
  { destruct (Z_le_gt_dec 1 f); [assumption|exfalso].
    assert (10 ^ shift <= 10 ^ (ea + 8)) by (apply Z.pow_le_mono_r; unfold f in *; lia).
    assert (N <= A) by (unfold N, A; nia).
    assert (10 ^ 1 <= 10 ^ lb) by (apply Z.pow_le_mono_r; lia).
    change (10 ^ 1) with 10 in *.
    change (10 ^ 17) with 100000000000000000 in *.
    change (10 ^ 18) with 1000000000000000000 in *. nia. }
  assert (NA : A * 10 ^ f = N).
  { unfold A, N. rewrite <- Z.mul_assoc, <- pow10_split by lia.
    do 2 f_equal. unfold f. lia. }
  pose proof (pow10_pos f ltac:(lia)) as Pf.
  (* the number of digits dropped by the rounding *)
  set (D := ndigits q).
  destruct (ndigits_spec q) as (Lq1 & Lq2 & Lq3). specialize (Lq3 ltac:(lia)).
  rewrite Z.abs_eq in Lq2, Lq3 by lia. fold D in Lq1, Lq2, Lq3.
  assert (HD : 19 <= D <= 20).
  { pose proof (ndigits_gt q 18 ltac:(lia)) as G.
    pose proof (ndigits_le q 20 ltac:(lia)) as L.
    rewrite Z.abs_eq in G, L by lia. specialize (G qL). specialize (L qU).
    fold D in G, L. lia. }
  set (d := D - 18). assert (Hd1 : 1 <= d <= 2) by (unfold d; lia).
  assert (Lq17 : 10 ^ 17 * 10 ^ d <= q).
  { rewrite <- pow10_split by lia. replace (17 + d) with (D - 1) by (unfold d; lia).
    exact Lq3. }
  pose proof (pow10_pos d ltac:(lia)) as Pd.
  assert (HbP : b * 10 ^ d < 2 * 10 ^ f).
  { assert (B1 : b * (10 ^ 17 * 10 ^ d) <= b * q)
      by (apply Z.mul_le_mono_nonneg_l; lia).
    assert (B2 : A * 10 ^ f < 2 * 10 ^ 17 * 10 ^ f)
      by (apply Z.mul_lt_mono_pos_r; lia).
    apply (Z.mul_lt_mono_pos_l (10 ^ 17)); [reflexivity|]. lia. }
  assert (Hdf : d <= f).
  { destruct (Z_le_gt_dec d f); [assumption|exfalso].
    assert (10 ^ (f + 1) <= 10 ^ d) by (apply Z.pow_le_mono_r; lia).
    rewrite pow10_split in * by lia. change (10 ^ 1) with 10 in *. nia. }
  (* the decimal handed to the rounding *)
  unfold split_share, div. cbn [coef dexp of_Z]. fold b.
  assert (Eb : (b =? 0) = false) by (apply Z.eqb_neq; lia).
  assert (Ea : (a =? 0) = false) by (apply Z.eqb_neq; lia).
  rewrite Eb, Ea, !Z.abs_eq, !Z.sgn_pos by lia.
  fold la lb. unfold prec.
  replace (lb - la + 18 + 1) with shift by (unfold shift; lia).
  assert (Es : (0 <=? shift) = true) by (apply Z.leb_le; lia).
  rewrite Es. fold N. fold q r.
  set (e := ea - 0 - shift).
  assert (He : e = -8 - f) by (unfold e, f; lia).
  assert (Pre : exists q' e' V1,
             (if r =? 0 then strip_zeros (Z.to_nat shift) q e (ea - 0)
              else (if q mod 5 =? 0 then q + 1 else q, e)) = (q', e') /\
             0 < q' /\ e <= e' /\ q' * 10 ^ (e' - e) = V1 /\
             ndigits V1 = D /\
             (V1 = q \/ (V1 = q + 1 /\ q mod 5 = 0))).
  { destruct (r =? 0) eqn:Er.
    - destruct (strip_zeros_value (Z.to_nat shift) q e (ea - 0) ltac:(lia))
        as (S1 & S2 & S3).
      destruct (strip_zeros (Z.to_nat shift) q e (ea - 0)) as [q' e'].
      cbn [fst snd] in *. exists q', e', q. repeat split; auto.
    - destruct (q mod 5 =? 0) eqn:E5.
      + apply Z.eqb_eq in E5. exists (q + 1), e, (q + 1).
        rewrite Z.sub_diag, Z.mul_1_r.
        repeat split; try lia. apply ndigits_sticky; lia.
      + exists q, e, q. rewrite Z.sub_diag, Z.mul_1_r. repeat split; auto; lia. }
  destruct Pre as (q' & e' & V1 & -> & Hq' & He' & HV1 & HDV & HV).
  replace (1 * 1 * q') with q' by lia.
  destruct (fix_scaled q' e' e Hq' He') as (F1 & F2 & F3).
  rewrite HV1, HDV in F3. fold d in F3.
  replace (Z.max 0 d) with d in F3 by lia.
  set (R := fix_ctx (mk q' e')) in *.
  assert (S : A / b * 10 ^ f <= coef R * 10 ^ (dexp R - e)
              < (A / b + 1) * 10 ^ f).
  { apply (rounded_quotient_floor A b f d q r V1); auto; lia. }
  assert (HA0 : 0 <= A / b) by (apply Z.div_pos; lia).
  assert (HAb : A / b <= A).
  { apply Z.div_le_upper_bound; [lia|].
    rewrite <- (Z.mul_1_l A) at 1. apply Z.mul_le_mono_nonneg_r; lia. }
  destruct R as [cR eR]. cbn [coef dexp] in *. rewrite He in *.
  rewrite (quantize_scaled cR eR f F2 ltac:(lia) ltac:(lia)).
  - do 2 f_equal. symmetry.
    apply Z.div_unique_pos
      with (r := cR * 10 ^ (eR - (-8 - f)) - A / b * 10 ^ f); lia.
  - rewrite pow10_split by lia.
    apply Z.lt_le_trans with ((A / b + 1) * 10 ^ f); [apply S|].
    apply Z.mul_le_mono_nonneg_r; [lia|].
    change (10 ^ 17) with 100000000000000000 in *.
    change (10 ^ 18) with 1000000000000000000. lia.
Qed.

(** ** What a split tip does to the rows *)


Lemma stored_balance_update st id b k :
  stored_balance (db_update_balance st id b) k =
  if k =? id then (match db_get_user st k with Some _ => b | None => zero end)
  else stored_balance st k.
Proof.
  unfold stored_balance. rewrite get_update_balance.
  destruct (k =? id); [|reflexivity]. now destruct (db_get_user st k).
Qed.

(** The loop credits each of the distinct recipients once and appends one
    tip record per recipient, in order. *)
Lemma credit_each_effect now uid share : forall recipients st,
  NoDup recipients ->
  Forall (fun r => In r (map tg_id (users st))) recipients ->
  let out := credit_each st now uid share recipients in
  snd out = true /\
  transfers (fst out) = transfers st ++ map (tip_record uid share now) recipients /\
  rpc_calls (fst out) = rpc_calls st /\
  (forall r, In r recipients ->
     stored_balance (fst out) r = add (stored_balance st r) share) /\
  (forall k, ~ In k recipients -> db_get_user (fst out) k = db_get_user st k).
Proof.
  induction recipients as [|rid rest IH]; intros st N F; cbv zeta.
  - cbn [credit_each fst snd map]. rewrite app_nil_r.
    repeat split; auto. intros r [].
  - inversion N as [|? ? Hn N']; subst. inversion F as [|? ? Hr Fr]; subst.
    cbn [credit_each]. destruct (get_in_ids st rid Hr) as [u Hu]. rewrite Hu.
    set (st1 := db_update_balance st rid (add (balance u) share)).
    set (st2 := db_add_transfer st1 Tip (Some uid) (Some rid) share None now).
    assert (F2 : Forall (fun r => In r (map tg_id (users st2))) rest).
    { apply (Forall_impl _ (P := fun r => In r (map tg_id (users st)))); [|exact Fr].
      intros r I. unfold st2, st1. cbn [users db_add_transfer].
      now rewrite ids_update_balance. }
    destruct (IH st2 N' F2) as (A1 & A2 & A3 & A4 & A5).
    split; [exact A1|]. split; [|split; [exact A3|split]].
    + rewrite A2. unfold st2. cbn [transfers db_add_transfer db_update_balance with_users map].
      now rewrite <- app_assoc.
    + intros r [<-|I].
      * unfold stored_balance at 1. rewrite (A5 rid Hn).
        unfold st2, st1. rewrite get_add_transfer, get_update_balance, Z.eqb_refl, Hu.
        cbn [option_map set_balance balance]. unfold stored_balance. now rewrite Hu.
      * rewrite (A4 r I). f_equal. unfold st2.
        change (stored_balance (db_add_transfer st1 Tip (Some uid) (Some rid) share None now) r)
          with (stored_balance st1 r).
        unfold st1. rewrite stored_balance_update.
        assert (E : (r =? rid) = false) by (apply Z.eqb_neq; intros ->; contradiction).
        now rewrite E.
    + intros k Hk. rewrite A5 by (intros I; apply Hk; now right).
      unfold st2, st1. rewrite get_add_transfer, get_update_balance.
      assert (E : (k =? rid) = false) by (apply Z.eqb_neq; intros ->; apply Hk; now left).
      now rewrite E.
Qed.

Lemma active_since_nodup st cutoff :
  NoDup (map tg_id (users st)) -> NoDup (active_since st cutoff).
Proof.
  unfold active_since. induction (users st) as [|u us IH]; intros N; [constructor|].
  cbn [map] in N. inversion N as [|? ? Hn N']; subst. cbn [filter].
  destruct (cutoff <=? last_active_ts u); [|now apply IH].
  cbn [map]. constructor; [|now apply IH].
  intros I. apply Hn. apply in_map_iff in I. destruct I as (v & E & I).
  apply filter_In in I. rewrite <- E. now apply in_map.
Qed.

Lemma other_active_spec cfg st now uid :
  NoDup (map tg_id (users st)) ->
  NoDup (other_active cfg st now uid) /\
  ~ In uid (other_active cfg st now uid) /\
  Forall (fun r => In r (map tg_id (users st))) (other_active cfg st now uid).
Proof.
  intros N. unfold other_active. split; [|split].
  - apply NoDup_filter. now apply active_since_nodup.
  - intros I. apply filter_In in I. destruct I as [_ I].
    rewrite Z.eqb_refl in I. discriminate.
  - apply Forall_forall. intros r I. apply filter_In in I.
    now apply (active_since_ids st (now - ACTIVE_WINDOW cfg)).
Qed.

(** The share of a split tip can always be shown: [fmt_amt(share)] does
    not raise. *)
Lemma split_share_formats amount n share :
  split_share amount n = Some share -> fmt_amt share <> None.
Proof.
  unfold split_share. destruct (div amount _) as [q|]; [|discriminate].
  intros Q. apply quantize_down_spec in Q. destruct Q as (E & _ & B).
  apply fmt_amt_in_range.
  - unfold eight_dp. lia.
  - unfold units. rewrite E. change (10 ^ (-8 + 8)) with 1.
    rewrite Z.mul_1_r. exact B.
Qed.

(** The split tip, in the arithmetic of the context: the sender's balance
    becomes [balance - share * n], each recipient's balance becomes
    [balance + share], the other balances are kept and one tip transfer of
    amount [share] is appended per recipient. *)
Lemma tip_split_effect st now uid sender amount recipients share :
  db_get_user st uid = Some sender ->
  NoDup recipients -> ~ In uid recipients ->
  Forall (fun r => In r (map tg_id (users st))) recipients ->
  split_share amount (List.length recipients) = Some share ->
  let total := mul share (of_Z (Z.of_nat (List.length recipients))) in
  ltb (balance sender) total = false ->
  let out := tip_split st now uid sender amount recipients in
  snd out = TippedActive (List.length recipients) share /\
  stored_balance (fst out) uid = sub (balance sender) total /\
  (forall r, In r recipients ->
     stored_balance (fst out) r = add (stored_balance st r) share) /\
  (forall k, k <> uid -> ~ In k recipients ->
     stored_balance (fst out) k = stored_balance st k) /\
  transfers (fst out) =
    transfers st ++ map (tip_record uid share now) recipients.
Proof.
  intros Hs N Hu F S total L. cbv zeta. unfold tip_split. rewrite S.
  fold total. rewrite L.
  set (st1 := db_update_balance st uid (sub (balance sender) total)).
  assert (F1 : Forall (fun r => In r (map tg_id (users st1))) recipients).
  { apply (Forall_impl _ (P := fun r => In r (map tg_id (users st)))); [|exact F].
    intros r I. unfold st1. now rewrite ids_update_balance. }
  destruct (credit_each_effect now uid share recipients st1 N F1)
    as (A1 & A2 & A3 & A4 & A5).
  destruct (credit_each st1 now uid share recipients) as [st2 ok].
  cbn [fst snd] in *. subst ok.
  destruct (fmt_amt share) eqn:Fm;
    [|exfalso; now apply (split_share_formats _ _ _ S)].
  cbn [fst snd].
  assert (SA : forall k, stored_balance (db_set_active st2 uid now) k
                         = stored_balance st2 k).
  { intros k. unfold stored_balance. rewrite get_set_active.
    destruct (k =? uid); [|reflexivity]. now destruct (db_get_user st2 k). }
  split; [reflexivity|]. split; [|split; [|split]].
  - rewrite SA. unfold stored_balance. rewrite (A5 uid Hu).
    unfold st1. rewrite get_update_balance, Z.eqb_refl, Hs. reflexivity.
  - intros r I. rewrite SA, (A4 r I). f_equal. unfold st1.
    rewrite stored_balance_update.
    assert (E : (r =? uid) = false) by (apply Z.eqb_neq; intros ->; contradiction).
    now rewrite E.
  - intros k K1 K2. rewrite SA. unfold stored_balance at 1. rewrite (A5 k K2).
    unfold st1. rewrite get_update_balance.
    assert (E : (k =? uid) = false) by (now apply Z.eqb_neq).
    now rewrite E.
  - exact A2.
Qed.

Lemma stored_balance_ok st k :
  ledger_wf st -> amount_ok (stored_balance st k) /\
                  0 <= units (stored_balance st k) <= sum_balances st.
Proof.
  intros W. unfold stored_balance. destruct (db_get_user st k) as [u|] eqn:E.
  - split; [apply (wf_get st k u W E) | apply (balance_le_sum st k u W E)].
  - split; [apply amount_ok_zero|]. change (units zero) with 0.
    pose proof (sumZ_nonneg _ (sum_balances_nonneg st W)). unfold sum_balances. lia.
Qed.

(** X1: the split tip in the everyday range: on well-formed tables whose
    balances sum to less than 10^10 coins, a split tip of an amount of at
    most eight decimal places below 2 * 10^9 coins gives every recipient the
    floor share, debits the sender exactly [share * n], which does not
    exceed the amount, and appends one tip transfer of amount [share] per
    recipient. *)
Theorem split_tip_in_range (cfg : config) (st : state) (now : Z)
    (chat : chat_type) (uid : Z) (choice : nat) (sender : user)
    (amount : decimal) :
  is_group chat = true ->
  ledger_wf st -> sum_balances st < 10 ^ 18 ->
  db_get_user st uid = Some sender ->
  eight_dp amount -> 0 < coef amount -> units amount < 2 * 10 ^ 17 ->
  ltb (balance sender) amount = false ->
  other_active cfg st now uid <> [] ->
  let recipients := other_active cfg st now uid in
  let n := Z.of_nat (List.length recipients) in
  let share := units amount / n in
  let out := cmd_tip cfg st now chat uid (TipParsed Active (Finite amount)) choice in
  snd out = TippedActive (List.length recipients) (mk share (-8)) /\
  0 <= share * n <= units amount /\
  units (stored_balance (fst out) uid) = units (balance sender) - share * n /\
  (forall r, In r recipients ->
     units (stored_balance (fst out) r) = units (stored_balance st r) + share) /\
  (forall k, k <> uid -> ~ In k recipients ->
     stored_balance (fst out) k = stored_balance st k) /\
  transfers (fst out) =
    transfers st ++ map (tip_record uid (mk share (-8)) now) recipients.
Proof.
  intros G W B Hs E8 Ha HA L Hne recipients n share out.
  destruct (other_active_spec cfg st now uid (wf_key st W)) as (N & Hu & F).
  fold recipients in N, Hu, F, Hne.
  assert (Hn : (0 < List.length recipients)%nat)
    by (destruct recipients; [contradiction | cbn; lia]).
  assert (Hn' : 0 < n) by (unfold n; lia).
  pose proof (split_share_is_floor amount (List.length recipients) E8 Ha HA Hn) as S.
  fold n share in S.
  pose proof (units_nonneg amount ltac:(lia)) as UA.
  assert (Sh : 0 <= share) by (apply Z.div_pos; lia).
  assert (ShN : share * n <= units amount).
  { unfold share. rewrite Z.mul_comm. apply Z.mul_div_le. lia. }
  assert (Ok : amount_ok (mk share (-8))) by (split; [unfold eight_dp; cbn; lia | exact Sh]).
  destruct (wf_get st uid sender W Hs) as [[Eb Cb] _].
  pose proof (balance_le_sum st uid sender W Hs) as Bs.
  assert (LA : units amount <= units (balance sender)).
  { rewrite (ltb_units _ _ Eb E8) in L. now apply Z.ltb_ge in L. }
  destruct (mul_units (mk share (-8)) n (proj1 Ok) (proj2 Ok) ltac:(lia))
    as (Et & Ct & X & _).
  change (units (mk share (-8))) with (share * 10 ^ 0) in X.
  change (10 ^ 0) with 1 in X. rewrite Z.mul_1_r in X.
  specialize (X ltac:(nia)).
  set (total := mul (mk share (-8)) (of_Z n)) in *.
  assert (Lt : ltb (balance sender) total = false).
  { rewrite (ltb_units _ _ Eb Et). apply Z.ltb_ge. lia. }
  destruct (tip_split_effect st now uid sender amount recipients (mk share (-8))
              Hs N Hu F S Lt) as (T1 & T2 & T3 & T4 & T5).
  assert (Out : out = tip_split st now uid sender amount recipients).
  { unfold out, cmd_tip. rewrite G, Hs. cbn [negb].
    assert (Ea : (coef amount <=? 0) = false) by (apply Z.leb_gt; lia).
    rewrite Ea, L. fold recipients.
    destruct recipients; [contradiction | reflexivity]. }
  rewrite Out. split; [exact T1|]. split; [lia|]. split; [|split; [|split]].
  - rewrite T2.
    change (mul (mk share (-8)) (of_Z (Z.of_nat (List.length recipients))))
      with total.
    destruct (sub_units (balance sender) total Eb Et Lt) as (_ & _ & Y & _).
    rewrite Y by lia. lia.
  - intros r I. rewrite (T3 r I).
    destruct (stored_balance_ok st r W) as [[Er Cr] Br].
    destruct (add_units (stored_balance st r) (mk share (-8)) Er (proj1 Ok) Cr (proj2 Ok))
      as (_ & _ & Y & _).
    change (units (mk share (-8))) with (share * 10 ^ 0) in Y.
    change (10 ^ 0) with 1 in Y. rewrite Z.mul_1_r in Y.
    apply Y.
    (* the recipient is not the sender: look at the tables after the debit *)
    destruct (debit_exact st uid sender total W Hs (conj Et Ct) Lt ltac:(unfold bound; lia))
      as [W1 S1].
    set (st1 := db_update_balance st uid (sub (balance sender) total)) in *.
    destruct (stored_balance_ok st1 r W1) as [_ Br1].
    assert (E : stored_balance st1 r = stored_balance st r).
    { unfold st1. rewrite stored_balance_update.
      assert (Ne : (r =? uid) = false) by (apply Z.eqb_neq; intros ->; contradiction).
      now rewrite Ne. }
    rewrite E in Br1. nia.
  - exact T4.
  - exact T5.
Qed.

(** ** Replaying a scanner pass *)



Lemma scan_step_settled cfg recv now st r :
  row_settled recv r -> ledger_of (scan_step cfg recv now st r) = ledger_of st.
Proof.
  intros S. unfold scan_step. destruct (recv _ _) as [t|] eqn:E; [|reflexivity].
  unfold apply_credit. now rewrite (S t E).
Qed.

Lemma scan_settled cfg recv now rows : forall st,
  Forall (row_settled recv) rows ->
  ledger_of (fold_left (scan_step cfg recv now) rows st) = ledger_of st.
Proof.
  induction rows as [|r rows IH]; intros st F; [reflexivity|].
  inversion F as [|? ? Hr Fr]; subst. cbn [fold_left].
  rewrite (IH _ Fr). now apply scan_step_settled.
Qed.

(** After its step the row of a scanned account is settled. *)
Lemma scan_step_settles cfg recv now st r :
  row_current st r ->
  exists u', db_get_user (scan_step cfg recv now st r) (row_id r) = Some u' /\
             deposit_address u' = Some (row_addr r) /\
             row_settled recv (row_of u' (row_addr r)).
Proof.
  intros (u & Hu & Ha & Hc & Hb).
  destruct (get_user_spec st (row_id r) u Hu) as [_ Hid].
  unfold scan_step. destruct (recv (row_id r) (row_addr r)) as [t|] eqn:E.
  - unfold apply_credit. destruct (ltb (row_credited r) t) eqn:L.
    + eexists. split.
      { rewrite get_add_transfer, get_set_credited, get_update_balance, Z.eqb_refl.
        rewrite get_rpc_request, Hu. reflexivity. }
      split; [exact Ha|]. intros t'. cbn. rewrite Hid, E.
      intros [= <-]. apply ltb_irrefl.
    + exists u. split; [exact Hu|]. split; [exact Ha|].
      intros t'. cbn. rewrite Hid, E, Hc. now intros [= <-].
  - exists u. split; [exact Hu|]. split; [exact Ha|].
    intros t'. cbn. rewrite Hid, E. discriminate.
Qed.

Lemma scan_step_other cfg recv now st r k :
  k <> row_id r -> db_get_user (scan_step cfg recv now st r) k = db_get_user st k.
Proof.
  intros N. unfold scan_step. destruct (recv _ _); [|reflexivity].
  unfold apply_credit. destruct (ltb _ _); [|reflexivity].
  rewrite get_add_transfer, get_set_credited, get_update_balance.
  apply Z.eqb_neq in N. now rewrite N.
Qed.

Lemma scan_step_ids cfg recv now st r :
  map tg_id (users (scan_step cfg recv now st r)) = map tg_id (users st).
Proof.
  unfold scan_step. destruct (recv _ _); [|reflexivity].
  unfold apply_credit. destruct (ltb _ _); [|reflexivity].
  cbn [users db_add_transfer db_set_credited_total db_update_balance with_users rpc_request].
  rewrite !update_where_ids by (intros ?; reflexivity). reflexivity.
Qed.

(** What a pass leaves behind: every row it visited is settled, every row
    it did not visit is as before. *)
Lemma scan_settles cfg recv now rows : forall st,
  NoDup (map row_id rows) -> Forall (row_current st) rows ->
  let st' := fold_left (scan_step cfg recv now) rows st in
  map tg_id (users st') = map tg_id (users st) /\
  (forall r, In r rows ->
     exists u', db_get_user st' (row_id r) = Some u' /\
                deposit_address u' = Some (row_addr r) /\
                row_settled recv (row_of u' (row_addr r))) /\
  (forall k, ~ In k (map row_id rows) -> db_get_user st' k = db_get_user st k).
Proof.
  induction rows as [|r rows IH]; intros st N F; cbv zeta.
  - cbn [fold_left]. split; [reflexivity|]. split; [intros r []|reflexivity].
  - cbn [map] in N. inversion N as [|? ? Hn N']; subst.
    inversion F as [|? ? Hr Fr]; subst. cbn [fold_left].
    set (st1 := scan_step cfg recv now st r).
    assert (F1 : Forall (row_current st1) rows).
    { apply Forall_forall. intros r' I. rewrite Forall_forall in Fr.
      apply row_current_scan_step; [|now apply Fr].
      intros E. apply Hn. rewrite <- E. now apply in_map. }
    destruct (IH st1 N' F1) as (A1 & A2 & A3).
    split; [rewrite A1; apply scan_step_ids|]. split.
    + intros r' [<-|I]; [|now apply A2].
      rewrite (A3 (row_id r) Hn). now apply scan_step_settles.
    + intros k Hk. cbn [map] in Hk.
      rewrite A3 by (intros I; apply Hk; now right).
      apply scan_step_other. intros E. apply Hk. now left.
Qed.

Lemma scan_rows_complete st u a :
  In u (users st) -> deposit_address u = Some a -> In (row_of u a) (scan_rows st).
Proof.
  intros I A. unfold scan_rows. apply in_flat_map. exists u. split; [exact I|].
  rewrite A. now left.
Qed.

(** X2: the watermark at the level of a pass: a second pass over the same
    readings credits nothing; it changes neither the users table nor the
    transfer log. *)
Theorem scanner_pass_replay (cfg : config) (st : state) (now now' : Z)
    (recv : Z -> string -> option decimal) :
  NoDup (map tg_id (users st)) ->
  let st1 := scanner_pass cfg st now recv in
  let st2 := scanner_pass cfg st1 now' recv in
  users st2 = users st1 /\ transfers st2 = transfers st1.
Proof.
  intros N. cbv zeta.
  destruct (scan_settles cfg recv now (scan_rows st) st (scan_rows_key st N)
              (scan_rows_current st N)) as (A1 & A2 & A3).
  fold (scanner_pass cfg st now recv) in A1, A2, A3.
  set (st1 := scanner_pass cfg st now recv) in *.
  assert (N1 : NoDup (map tg_id (users st1))) by (now rewrite A1).
  assert (S : Forall (row_settled recv) (scan_rows st1)).
  { apply Forall_forall. intros r1 I1. unfold scan_rows in I1.
    apply in_flat_map in I1. destruct I1 as (u1 & Iu1 & Ir1).
    destruct (deposit_address u1) as [a|] eqn:Ad; [|contradiction].
    destruct Ir1 as [<-|[]].
    assert (G1 : db_get_user st1 (tg_id u1) = Some u1)
      by (unfold db_get_user; now apply find_id_unique).
    (* the row was in the first snapshot unless its address is new, which a
       pass never writes *)
    destruct (in_dec Z.eq_dec (tg_id u1) (map row_id (scan_rows st))) as [I|NI].
    - apply in_map_iff in I. destruct I as (r & Er & Ir).
      destruct (A2 r Ir) as (u' & G' & Ad' & S').
      rewrite Er, G1 in G'. injection G' as <-.
      rewrite Ad in Ad'. injection Ad' as ->. exact S'.
    - exfalso. rewrite (A3 _ NI) in G1.
      apply NI. apply get_user_spec in G1. destruct G1 as [I0 _].
      apply in_map_iff. exists (row_of u1 a). split; [reflexivity|].
      now apply scan_rows_complete. }
  pose proof (scan_settled cfg recv now' (scan_rows st1) st1 S) as E.
  unfold ledger_of in E. fold (scanner_pass cfg st1 now' recv) in E.
  now injection E.
Qed.

(** The scanner writes [snapshot balance + diff]: when a withdrawal runs
    between the snapshot and the credit of its row, the debit is lost.
    Erin withdrew her 10 and still ends with 15, and the ledger no longer
    balances. *)
Example stale_snapshot_loses_a_withdrawal :
  scan_rows two_depositors = [row_of dave "addrD"; row_of erin "addrE"] /\
  stored_balance interleaved_pass 5 = mk 15 0 /\
  ~ conservation interleaved_pass.
Proof.
  split; [reflexivity|]. split; [reflexivity|].
  unfold conservation. vm_compute. discriminate.
Qed.

(* ===================================================================== *)
(** * Properties of whole runs *)
(* ===================================================================== *)

Section Runs.
Variable cfg : config.

(** C2: with a faucet amount that is not negative, after every finite
    sequence of operations on the empty ledger every balance is [>= 0].
    Every debit is guarded: a withdrawal of more than the balance sends
    nothing to the node and debits nothing; a tip (in every mode) of more
    than the sender's balance leaves the state as it was; a split tip whose
    rounded total exceeds the sender's balance leaves the state as it
    was. *)
Theorem balance_never_negative :
  0 <= coef (FAUCET_AMOUNT cfg) ->
  (forall evs u, In u (users (run cfg evs)) -> 0 <= coef (balance u)) /\
  (forall st now chat uid uname amount address send,
      ltb (stored_balance st uid) amount = true ->
      let out := cmd_withdraw cfg st now chat uid uname
                   (Some (Some (Finite amount), address)) send in
      rpc_calls (fst out) = rpc_calls st /\ ledger_untouched st (fst out)) /\
  (forall st now chat uid mode amount choice,
      ltb (stored_balance st uid) amount = true ->
      fst (cmd_tip cfg st now chat uid (TipParsed mode (Finite amount)) choice) = st) /\
  (forall st now uid sender amount recipients share,
      split_share amount (List.length recipients) = Some share ->
      ltb (balance sender)
          (mul share (of_Z (Z.of_nat (List.length recipients)))) = true ->
      fst (tip_split st now uid sender amount recipients) = st).
Proof.
  intros F. split; [|split; [|split]].
  - intros evs u I.
    pose proof (nonneg_run_from cfg F evs empty_state (Forall_nil _)) as N.
    unfold balances_nonneg in N. rewrite Forall_forall in N. now apply N.
  - intros st now chat uid uname amount address send L. cbv zeta.
    assert (U : rpc_calls (db_upsert_user st uid uname now) = rpc_calls st /\
                ledger_untouched st (db_upsert_user st uid uname now)).
    { split; [apply upsert_rpc | apply upsert_untouched]. }
    unfold cmd_withdraw. destruct (is_private chat); cbn [negb fst];
      [|split; [reflexivity | apply untouched_refl]].
    destruct (coef amount <=? 0); [exact U|].
    rewrite upsert_get_same.
    assert (Hb : balance (match db_get_user st uid with
                          | Some u => set_username_active uname now u
                          | None => new_user uid uname now
                          end) = stored_balance st uid).
    { unfold stored_balance. now destruct (db_get_user st uid). }
    rewrite Hb, L. exact U.
  - intros st now chat uid mode amount choice L. unfold cmd_tip.
    destruct (is_group chat); cbn [negb fst]; [|reflexivity].
    unfold stored_balance in L.
    destruct (db_get_user st uid) as [sender|]; [|reflexivity].
    destruct (coef amount <=? 0); [reflexivity|]. now rewrite L.
  - intros st now uid sender amount recipients share S L.
    unfold tip_split. now rewrite S, L.
Qed.

(** C1 (amended): for every finite sequence of operations on the empty
    ledger in which every amount (tip and withdrawal amounts, the wallet's
    readings, the faucet amount) has at most eight decimal places and in
    which the deposits and faucet claims recorded stay below 10^10 coins
    (10^18 units, so that the 18-digit context never rounds), the sum of all
    balances equals the sum of the recorded deposit amounts plus the sum of
    the recorded faucet amounts minus the sum of the recorded withdraw
    amounts.  A withdraw record carries the full debited amount, fee
    included, so no separate fee term is subtracted; tips net to zero.  The
    tables stay well formed: unique ids, amounts of at most eight decimals,
    nothing negative. *)
Theorem balances_are_conserved (evs : list (Z * op)) :
  eight_dp (FAUCET_AMOUNT cfg) ->
  0 <= coef (FAUCET_AMOUNT cfg) ->
  Forall (fun ev => op_8dp (snd ev)) evs ->
  issued (run cfg evs) < 10 ^ 18 ->
  conservation (run cfg evs) /\ ledger_wf (run cfg evs).
Proof.
  intros E C F B.
  destruct (inv_run_from cfg (conj E C) evs empty_state (inv_empty) F B) as [W K].
  now split.
Qed.

End Runs.

(* ===================================================================== *)
(** * The claims on the scenarios *)
(* ===================================================================== *)

(** C1 as worded fails: after a deposit of 50 and a withdrawal of 5 (fee
    1.0) the balances sum to 45, the recorded deposits minus the recorded
    withdrawals are 50 - 5 = 45, and subtracting the fee once more gives
    44. *)
Lemma fee_is_inside_the_withdraw_record :
  ~ conservation_with_fees default_config
      (run default_config deposit_then_withdraw).
Proof. unfold conservation_with_fees. vm_compute. discriminate. Qed.

(** The amended C1 on the deposit-then-withdraw scenario. *)
Lemma balances_are_conserved_witness :
  conservation (run default_config deposit_then_withdraw) /\
  ledger_wf (run default_config deposit_then_withdraw).
Proof.
  apply (balances_are_conserved default_config deposit_then_withdraw).
  - unfold eight_dp. simpl. lia.
  - simpl. lia.
  - repeat constructor; cbn; unfold eight_dp; cbn; try lia.
    intros id addr t H. injection H as <-. cbn. lia.
  - vm_compute. reflexivity.
Defined.

(** C2 on the deposit-then-withdraw scenario. *)
Lemma balance_never_negative_witness :
  0 <= coef (FAUCET_AMOUNT default_config) /\
  Forall (fun u => 0 <= coef (balance u))
         (users (run default_config deposit_then_withdraw)).
Proof.
  assert (H : 0 <= coef (FAUCET_AMOUNT default_config)) by (simpl; lia).
  split; [exact H|]. apply Forall_forall.
  exact (proj1 (balance_never_negative default_config H) deposit_then_withdraw).
Defined.

(** C7 at a failing input: Alice (balance 50) tips 0.999999999999999999 to
    the two other active users.  The quotient by 2 is
    0.4999999999999999995, which the context rounds half-even to
    0.500000000000000000 before [quantize] truncates it, so each recipient
    receives 0.50000000 (the floor is 0.49999999) and Alice is debited
    1.00000000, more than the amount of the tip. *)
Theorem split_tip_rounds_share_up :
  let out := cmd_tip default_config funded_state 200 Group 1
               (TipParsed Active (Finite eighteen_nines)) 0 in
  snd out = TippedActive 2 (mk 50000000 (-8)) /\
  stored_balance (fst out) 2 = mk 50000000 (-8) /\
  stored_balance (fst out) 3 = mk 50000000 (-8) /\
  stored_balance (fst out) 1 = mk 4900000000 (-8) /\
  ltb eighteen_nines (mul (mk 50000000 (-8)) (of_Z 2)) = true /\
  div eighteen_nines (of_Z 2) = Some (mk 500000000000000000 (-18)).
Proof. vm_compute. repeat split; reflexivity. Qed.

(** C3 at a failing input.  The pass over Dave and Erin has fetched Erin's
    row with balance 10 and [credited_total] 10; while it awaits the
    notification of Dave's credit Erin withdraws her 10, so that her balance
    is 0 when the loop reaches her row with a reading of 15.  The credit
    sets [credited_total] to 15 and appends one deposit record of 5, but it
    writes the balance 15, the snapshot's 10 plus 5: the balance has gone
    up by 15, not by 5, and the withdrawn 10 are back.  The same block
    also misses [balance + diff] by rounding: on Alice's balance of
    0.99999999999999999 a reading of 100 over her 50 is credited as
    51.0000000000000000, more than the sum 50.99999999999999999. *)
Theorem credit_overwrites_a_withdrawal :
  let st := erin_withdraws_mid_pass in
  let r := row_of erin "addrE" in
  let st' := apply_credit st 202 r (mk 15 0) in
  In r (scan_rows two_depositors) /\
  stored_balance st 5 = mk 0 0 /\
  stored_credited st 5 = mk 10 0 /\
  stored_credited st' 5 = mk 15 0 /\
  transfers st' =
    transfers st ++ [mkTransfer Deposit None (Some 5) (mk 5 0) None 202] /\
  stored_balance st' 5 = mk 15 0 /\
  add (stored_balance st 5) (mk 5 0) = mk 5 0 /\
  (let st := alice_after_odd_withdrawal in
   let r := row_of (mkUser 1 "alice" (Some "addrA"%string) (mk 50 0)
                      (mk 99999999999999999 (-17)) 0 150 100) "addrA" in
   let st' := apply_credit st 300 r (mk 100 0) in
   scan_rows st = [r] /\
   transfers st' =
     transfers st ++ [mkTransfer Deposit None (Some 1) (mk 50 0) None 300] /\
   stored_balance st' 1 = mk 510000000000000000 (-16) /\
   99999999999999999 + 50 * 10 ^ 17 = 5099999999999999999 /\
   ltb (mk 5099999999999999999 (-17)) (stored_balance st' 1) = true).
Proof. vm_compute. repeat split; auto. Qed.

(** C8 at a failing input.  Alice's balance is 0.99999999999999999 (she has
    withdrawn 49.00000000000000001 of her 50).  Her faucet claim of 50 is
    granted, [last_faucet_ts] is set and one faucet record of 50 is
    appended, but her balance becomes 51.0000000000000000: the sum
    50.99999999999999999 has nineteen digits and the context rounds it to
    eighteen.  The balance has gone up by more than the faucet amount. *)
Theorem faucet_claim_rounds_the_balance :
  let st := alice_after_odd_withdrawal in
  let out := cmd_faucet default_config st 10000 10000 10000 1 "alice" in
  stored_balance st 1 = mk 99999999999999999 (-17) /\
  FAUCET_AMOUNT default_config = mk 50 0 /\
  snd out = FaucetReceived (mk 510000000000000000 (-16)) /\
  stored_last_faucet (fst out) 1 = 10000 /\
  transfers (fst out) =
    transfers st ++ [mkTransfer Faucet None (Some 1) (mk 50 0) None 10000] /\
  stored_balance (fst out) 1 = mk 510000000000000000 (-16) /\
  99999999999999999 + 50 * 10 ^ 17 = 5099999999999999999 /\
  ltb (mk 5099999999999999999 (-17)) (stored_balance (fst out) 1) = true.
Proof. vm_compute. repeat split; reflexivity. Qed.

(** C5 as worded fails: the withdraw record of a withdrawal of 5 with fee
    1.0 does not carry the net amount 4.0 (it carries 5). *)
Lemma withdraw_record_is_not_net :
  let out := cmd_withdraw default_config funded_state 200 Private 1 "alice"
               (Some (Some (Finite (mk 5 0)), "dest"%string)) (Some "tx1"%string) in
  transfers (fst out) <>
  transfers funded_state ++
    [mkTransfer Withdraw (Some 1) None
       (sub (mk 5 0) (WITHDRAW_FEE default_config)) (Some "tx1"%string) 200].
Proof. vm_compute. intros H. discriminate H. Qed.

(** C6 as worded fails: on an empty balance a withdrawal of 0.5, which does
    not exceed the fee 1.0, is not answered with the fee message (the
    balance check comes first). *)
Lemma small_withdraw_reports_balance_first :
  leb (mk 5 (-1)) (WITHDRAW_FEE default_config) = true /\
  snd (cmd_withdraw default_config empty_state 200 Private 1 "alice"
         (Some (Some (Finite (mk 5 (-1))), "dest"%string)) None)
  <> AmountMustExceedFee.
Proof. split; [reflexivity|]. vm_compute. discriminate. Qed.

(** C9 as worded fails: upserting Alice's existing row, even under the same
    username, does not leave it unchanged ([last_active_ts] is rewritten). *)
Lemma upsert_refreshes_existing_row :
  db_get_user funded_state 1 = Some alice /\
  db_get_user (db_upsert_user funded_state 1 "alice" 200) 1 <> Some alice.
Proof. split; [reflexivity|]. vm_compute. intros H. discriminate H. Qed.

(** C10 as worded fails: setting a second, different deposit address does
    not fail and replaces the stored one. *)
Lemma set_deposit_address_overwrites :
  stored_address funded_state 1 = Some "addrA"%string /\
  stored_address (db_set_deposit_address funded_state 1 "addrB") 1
  <> stored_address funded_state 1.
Proof. split; [reflexivity|]. vm_compute. intros H. discriminate H. Qed.

(** Alice's row, as the table holds it, with a reading of 75 over a
    watermark of 50. *)
Example credit_of_alices_row :
  db_get_user funded_state 1 = Some alice /\
  transfers (apply_credit funded_state 200 (row_of alice "addrA") (mk 75 0)) =
  transfers funded_state ++
    [mkTransfer Deposit None (Some 1) (sub (mk 75 0) (mk 50 0)) None 200].
Proof.
  split; [reflexivity|].
  pose proof (credit_of_a_current_row funded_state 200 300 1 alice "addrA"
                (mk 75 0) eq_refl) as H.
  cbv zeta in H.
  change (ltb (credited_total alice) (mk 75 0)) with true in H. cbv iota in H.
  exact (proj1 (proj2 (proj2 H))).
Qed.

(** C4 on Alice withdrawing 5 while the node refuses. *)
Lemma withdraw_send_failure_witness :
  snd (cmd_withdraw default_config funded_state 200 Private 1 "alice"
         (Some (Some (Finite (mk 5 0)), "dest"%string)) None) = RpcError /\
  transfers (fst (cmd_withdraw default_config funded_state 200 Private 1 "alice"
         (Some (Some (Finite (mk 5 0)), "dest"%string)) None))
  = transfers funded_state.
Proof.
  destruct (withdraw_send_failure default_config funded_state 200 1 "alice"
              (mk 5 0) "dest") as (A & _ & C & _);
    [simpl; lia | reflexivity | reflexivity |].
  split; assumption.
Defined.

(** The amended C5 on Alice withdrawing 5. *)
Lemma withdraw_success_witness :
  units (stored_balance
           (fst (cmd_withdraw default_config funded_state 200 Private 1 "alice"
                   (Some (Some (Finite (mk 5 0)), "dest"%string))
                   (Some "tx1"%string))) 1)
  = units (stored_balance funded_state 1) - units (mk 5 0).
Proof.
  destruct (withdraw_success default_config funded_state 200 1 "alice"
              (mk 5 0) "dest" "tx1") as (_ & _ & _ & B & _).
  - simpl. lia.
  - unfold eight_dp. simpl. lia.
  - unfold eight_dp. simpl. lia.
  - vm_compute. reflexivity.
  - split; [unfold eight_dp; simpl; lia | simpl; lia].
  - reflexivity.
  - reflexivity.
  - exact B.
Defined.

(** The amended C6 on Alice (balance 50) withdrawing 0.5. *)
Lemma withdraw_checks_witness :
  snd (cmd_withdraw default_config funded_state 200 Private 1 "alice"
         (Some (Some (Finite (mk 5 (-1))), "dest"%string)) None)
  = AmountMustExceedFee.
Proof.
  assert (P : 0 < coef (mk 5 (-1))) by (simpl; lia).
  pose proof (withdraw_checks_balance_then_fee default_config funded_state 200 1
                "alice" (mk 5 (-1)) "dest" None P) as H.
  cbv zeta in H.
  change (ltb (stored_balance funded_state 1) (mk 5 (-1))) with false in H.
  change (leb (mk 5 (-1)) (WITHDRAW_FEE default_config)) with true in H.
  cbv iota in H. exact (proj1 H).
Defined.

(** The amended C10 on Alice, whose address is set. *)
Lemma deposit_address_kept_witness :
  get_or_create_deposit_address funded_state 1 (Some "addrB"%string)
  = (funded_state, Some "addrA"%string).
Proof.
  assert (N : "addrA"%string <> EmptyString) by discriminate.
  exact (proj1 (deposit_address_kept funded_state 200 1 "alice"
                  (Some "addrB"%string) alice "addrA" eq_refl eq_refl N)).
Defined.

(** Below eight decimals the context rounds: a tip of 1E-18 out of a
    balance of 50 leaves the sender's balance at 50 and credits the
    recipient. *)
Example tiny_tip_is_rounded_away :
  let out := cmd_tip default_config funded_state 200 Group 1
               (TipParsed (Direct "bob") (Finite (mk 1 (-18)))) 0 in
  eqb (stored_balance (fst out) 1) (mk 50 0) = true /\
  stored_balance (fst out) 2 = mk 1 (-18).
Proof. vm_compute. split; reflexivity. Qed.

(* ===================================================================== *)
(** * What every operation preserves *)
(* ===================================================================== *)

(** A relation between the state before and the state after that is
    reflexive, transitive and kept by every write the handlers perform is
    kept by every operation and by every run. *)
Section WriteClosure.

Variable cfg : config.
Variable R : state -> state -> Prop.

Hypothesis R_refl : forall st, R st st.
Hypothesis R_trans : forall a b c, R a b -> R b c -> R a c.
Hypothesis R_upsert : forall st id name now, R st (db_upsert_user st id name now).
Hypothesis R_balance : forall st id b, R st (db_update_balance st id b).
Hypothesis R_last_faucet : forall st id t, R st (db_set_last_faucet st id t).
Hypothesis R_active : forall st id t, R st (db_set_active st id t).
Hypothesis R_transfer :
  forall st k f t a tx now, R st (db_add_transfer st k f t a tx now).
Hypothesis R_rpc : forall st c, R st (rpc_request st c).
Hypothesis R_get_or_create :
  forall st id na, R st (fst (get_or_create_deposit_address st id na)).
Hypothesis R_pass : forall st now recv, R st (scanner_pass cfg st now recv).

Ltac through :=
  repeat first
    [ apply R_refl
    | eapply R_trans; [|apply R_transfer]
    | eapply R_trans; [|apply R_active]
    | eapply R_trans; [|apply R_last_faucet]
    | eapply R_trans; [|apply R_balance]
    | eapply R_trans; [|apply R_rpc]
    | eapply R_trans; [|apply R_upsert] ].

Lemma closed_credit_each now uid share : forall recipients st,
  R st (fst (credit_each st now uid share recipients)).
Proof.
  induction recipients as [|rid rest IH]; intros st; cbn [credit_each fst].
  - apply R_refl.
  - destruct (db_get_user st rid) as [u|]; [|apply R_refl].
    eapply R_trans; [|apply IH]. through.
Qed.

Lemma closed_tip_single st now uid sender amount rid :
  R st (fst (tip_single st now uid sender amount rid)).
Proof.
  unfold tip_single. destruct (db_get_user _ rid); cbn [fst]; [|through].
  destruct (fmt_amt amount); cbn [fst]; through.
Qed.

Lemma closed_tip_split st now uid sender amount recipients :
  R st (fst (tip_split st now uid sender amount recipients)).
Proof.
  unfold tip_split. destruct (split_share _ _) as [share|]; [|apply R_refl].
  destruct (ltb _ _); [apply R_refl|].
  pose proof (closed_credit_each now uid share recipients
                (db_update_balance st uid
                   (sub (balance sender)
                        (mul share (of_Z (Z.of_nat (List.length recipients)))))))
    as C.
  destruct (credit_each _ now uid share recipients) as [st2 [|]];
    cbn [fst] in *.
  - destruct (fmt_amt share); cbn [fst].
    + eapply R_trans; [|apply R_active]. eapply R_trans; [|exact C]. through.
    + eapply R_trans; [|exact C]. through.
  - eapply R_trans; [|exact C]. through.
Qed.

Lemma closed_cmd_tip st now chat uid cmd choice :
  R st (fst (cmd_tip cfg st now chat uid cmd choice)).
Proof.
  unfold cmd_tip. destruct (is_group chat); cbn [negb]; [|apply R_refl].
  destruct cmd as [| |mode amt]; try apply R_refl.
  destruct (db_get_user st uid) as [sender|]; [|apply R_refl].
  destruct amt as [amount|[|]|]; try apply R_refl.
  destruct (coef amount <=? 0); [apply R_refl|].
  destruct (ltb (balance sender) amount); [apply R_refl|].
  destruct mode as [| |target].
  - destruct (other_active cfg st now uid) as [|c rest]; [apply R_refl|].
    apply closed_tip_single.
  - destruct (other_active cfg st now uid) as [|c rest]; [apply R_refl|].
    apply closed_tip_split.
  - destruct (find_by_username st (lower target)); [|apply R_refl].
    apply closed_tip_single.
Qed.

Lemma closed_cmd_withdraw st now chat uid uname cmd send :
  R st (fst (cmd_withdraw cfg st now chat uid uname cmd send)).
Proof.
  unfold cmd_withdraw. destruct (is_private chat); cbn [negb fst]; [|apply R_refl].
  destruct cmd as [[[a|] address]|]; cbn [fst]; try apply R_upsert.
  destruct a as [amount|[|]|]; cbn [fst]; try apply R_upsert.
  - destruct (coef amount <=? 0); cbn [fst]; [apply R_upsert|].
    destruct (db_get_user _ uid) as [u|]; cbn [fst]; [|apply R_upsert].
    destruct (ltb (balance u) amount); cbn [fst]; [apply R_upsert|].
    destruct (coef (sub amount (WITHDRAW_FEE cfg)) <=? 0); cbn [fst];
      [apply R_upsert|].
    destruct send; cbn [fst]; through.
  - destruct (db_get_user _ uid); cbn [fst]; apply R_upsert.
Qed.

Lemma closed_cmd_faucet st now at_wait at_claim uid uname :
  R st (fst (cmd_faucet cfg st now at_wait at_claim uid uname)).
Proof.
  unfold cmd_faucet. destruct (db_get_user _ uid) as [u|]; cbn [fst];
    [|apply R_upsert].
  destruct (now - last_faucet_ts u <? FAUCET_INTERVAL cfg); cbn [fst]; through.
Qed.

Lemma closed_step st ev : R st (fst (step cfg st ev)).
Proof.
  destruct ev as [now o]. unfold step. cbn [fst snd]. destruct o.
  - unfold cmd_start. destruct (is_private chat); cbn [negb fst]; [|apply R_refl].
    pose proof (R_get_or_create (db_upsert_user st uid uname now) uid newaddr) as G.
    destruct (get_or_create_deposit_address _ uid newaddr) as [s [a|]];
      cbn [fst] in *; (eapply R_trans; [apply R_upsert | exact G]).
  - unfold cmd_deposit. destruct (is_private chat); cbn [negb fst]; [|apply R_refl].
    pose proof (R_get_or_create (db_upsert_user st uid uname now) uid newaddr) as G.
    destruct (get_or_create_deposit_address _ uid newaddr) as [s [a|]];
      cbn [fst] in *; (eapply R_trans; [apply R_upsert | exact G]).
  - unfold cmd_balance. destruct (is_private chat); cbn [negb fst]; [|apply R_refl].
    destruct (db_get_user _ uid); apply R_upsert.
  - apply closed_cmd_withdraw.
  - unfold mark_active. destruct (is_group chat); cbn [negb fst]; [|apply R_refl].
    destruct from as [[[uid uname] [|]]|]; cbn [fst]; through.
  - apply closed_cmd_tip.
  - apply closed_cmd_faucet.
  - cbn [fst]. apply R_pass.
Qed.

Lemma closed_run evs : forall st, R st (run_from cfg st evs).
Proof.
  induction evs as [|ev evs IH]; intros st; cbn [run_from fold_left].
  - apply R_refl.
  - eapply R_trans; [apply closed_step|]. apply IH.
Qed.

End WriteClosure.

(** A relation kept by the writes of the scanner is kept by a pass. *)
Lemma closed_pass (cfg : config) (R : state -> state -> Prop) :
  (forall st, R st st) ->
  (forall a b c, R a b -> R b c -> R a c) ->
  (forall st id b, R st (db_update_balance st id b)) ->
  (forall st id t, R st (db_set_credited_total st id t)) ->
  (forall st k f t a tx now, R st (db_add_transfer st k f t a tx now)) ->
  (forall st c, R st (rpc_request st c)) ->
  forall st now recv, R st (scanner_pass cfg st now recv).
Proof.
  intros Rr Rt Rb Rc Ra Rq st now recv. unfold scanner_pass.
  generalize (scan_rows st) as rows. intros rows. revert st.
  induction rows as [|r rows IH]; intros st; cbn [fold_left]; [apply Rr|].
  eapply Rt; [|apply IH].
  unfold scan_step. destruct (recv _ _) as [t|]; [|apply Rq].
  unfold apply_credit. destruct (ltb _ _); [|apply Rq].
  eapply Rt; [|apply Ra]. eapply Rt; [|apply Rc]. eapply Rt; [|apply Rb].
  apply Rq.
Qed.

(** The same for [get_or_create_deposit_address]. *)
Lemma closed_get_or_create (R : state -> state -> Prop) :
  (forall st, R st st) ->
  (forall a b c, R a b -> R b c -> R a c) ->
  (forall st id a, R st (db_set_deposit_address st id a)) ->
  (forall st c, R st (rpc_request st c)) ->
  forall st id na, R st (fst (get_or_create_deposit_address st id na)).
Proof.
  intros Rr Rt Rs Rq st id na.
  assert (C : R st (fst (match na with
                         | Some a => (db_set_deposit_address
                                        (rpc_request st (GetNewAddress id)) id a,
                                      Some a)
                         | None => (rpc_request st (GetNewAddress id), None)
                         end))).
  { destruct na; cbn [fst]; [|apply Rq]. eapply Rt; [apply Rq | apply Rs]. }
  unfold get_or_create_deposit_address.
  destruct (db_get_user st id) as [u|]; [|exact C].
  destruct (deposit_address u) as [a|]; [|exact C].
  destruct (String.eqb a ""); [exact C | apply Rr].
Qed.

(* ===================================================================== *)
(** * The logs and the accounts over whole runs *)
(* ===================================================================== *)

Lemma logs_extend_refl st : logs_extend st st.
Proof. split; exists []; now rewrite app_nil_r. Qed.

Lemma logs_extend_trans a b c :
  logs_extend a b -> logs_extend b c -> logs_extend a c.
Proof.
  intros [[t1 T1] [c1 C1]] [[t2 T2] [c2 C2]]. split.
  - exists (t1 ++ t2). now rewrite T2, T1, app_assoc.
  - exists (c1 ++ c2). now rewrite C2, C1, app_assoc.
Qed.

Lemma logs_extend_users st us : logs_extend st (with_users st us).
Proof. split; exists []; cbn [with_users transfers rpc_calls]; now rewrite app_nil_r. Qed.

Ltac unfold_setters :=
  unfold db_update_balance, db_set_last_faucet, db_set_active,
    db_set_credited_total, db_set_deposit_address.

(** X3: over every run, from every state, the transfer log is only appended
    to and so is the sequence of requests sent to the wallet node: no
    operation removes or rewrites a transfer record. *)
Theorem logs_are_append_only (cfg : config) (st : state)
    (evs : list (Z * op)) :
  (exists ts, transfers (run_from cfg st evs) = transfers st ++ ts) /\
  (exists cs, rpc_calls (run_from cfg st evs) = rpc_calls st ++ cs).
Proof.
  assert (U : forall s id name now, logs_extend s (db_upsert_user s id name now)).
  { intros s id name now. unfold db_upsert_user.
    destruct (db_get_user s id); apply logs_extend_users. }
  assert (T : forall s k f t a tx now,
             logs_extend s (db_add_transfer s k f t a tx now)).
  { intros. split; [eexists; reflexivity | exists []; now rewrite app_nil_r]. }
  assert (Q : forall s c, logs_extend s (rpc_request s c)).
  { intros. split; [exists []; now rewrite app_nil_r | eexists; reflexivity]. }
  apply (closed_run cfg logs_extend logs_extend_refl logs_extend_trans); auto;
    try (intros; unfold_setters; apply logs_extend_users).
  - apply closed_get_or_create;
      [apply logs_extend_refl | apply logs_extend_trans | | exact Q].
    intros; unfold_setters; apply logs_extend_users.
  - apply closed_pass;
      [apply logs_extend_refl | apply logs_extend_trans | | | exact T | exact Q];
      intros; unfold_setters; apply logs_extend_users.
Qed.

Lemma accounts_kept_refl st : accounts_kept st st.
Proof. intros id u H. now exists u. Qed.

Lemma accounts_kept_same st st' : users st' = users st -> accounts_kept st st'.
Proof. intros E id u H. exists u. unfold db_get_user in *. now rewrite E. Qed.

Lemma accounts_kept_trans a b c :
  accounts_kept a b -> accounts_kept b c -> accounts_kept a c.
Proof.
  intros A B id u H. destruct (A id u H) as (u1 & H1 & E1).
  destruct (B id u1 H1) as (u2 & H2 & E2). exists u2. split; [exact H2|].
  congruence.
Qed.

Lemma accounts_kept_update st id f :
  keeps_id f -> (forall u, created_ts (f u) = created_ts u) ->
  accounts_kept st (with_users st (update_where id f (users st))).
Proof.
  intros K C k u H. rewrite get_update by exact K. rewrite H.
  destruct (k =? id); cbn [option_map]; eexists; split; try reflexivity.
  apply C.
Qed.

Lemma accounts_kept_upsert st id name now :
  accounts_kept st (db_upsert_user st id name now).
Proof.
  intros k u H. destruct (Z.eq_dec k id) as [->|N].
  - rewrite upsert_get_same, H. eexists; split; reflexivity.
  - rewrite upsert_get_other by exact N. now exists u.
Qed.

(** X4: no operation deletes an account or changes its creation time. *)
Theorem accounts_are_never_deleted (cfg : config) (st : state)
    (evs : list (Z * op)) (id : Z) (u : user) :
  db_get_user st id = Some u ->
  exists u', db_get_user (run_from cfg st evs) id = Some u' /\
             tg_id u' = id /\ created_ts u' = created_ts u.
Proof.
  intros H.
  assert (S : forall s k f, keeps_id f ->
              (forall v, created_ts (f v) = created_ts v) ->
              accounts_kept s (with_users s (update_where k f (users s)))).
  { intros; now apply accounts_kept_update. }
  assert (K : accounts_kept st (run_from cfg st evs)).
  { apply (closed_run cfg accounts_kept accounts_kept_refl accounts_kept_trans);
      try (intros; unfold_setters; apply S; intros ?; reflexivity).
    - apply accounts_kept_upsert.
    - intros; apply accounts_kept_same; reflexivity.
    - intros; apply accounts_kept_same; reflexivity.
    - apply closed_get_or_create;
        [apply accounts_kept_refl | apply accounts_kept_trans | |].
      + intros; unfold_setters; apply S; intros ?; reflexivity.
      + intros; apply accounts_kept_same; reflexivity.
    - apply closed_pass;
        [apply accounts_kept_refl | apply accounts_kept_trans | | | |];
        try (intros; unfold_setters; apply S; intros ?; reflexivity);
        intros; apply accounts_kept_same; reflexivity. }
  destruct (K id u H) as (u' & H' & E). exists u'. split; [exact H'|].
  split; [|exact E]. now apply get_user_spec in H'.
Qed.

Lemma address_kept_refl st : address_kept st st.
Proof. intros id a H _. exact H. Qed.

Lemma address_kept_same st st' : users st' = users st -> address_kept st st'.
Proof.
  intros E id a H _. unfold stored_address, db_get_user in *. now rewrite E.
Qed.

Lemma address_kept_trans a b c :
  address_kept a b -> address_kept b c -> address_kept a c.
Proof. intros A B id x H N. apply B; [now apply A | exact N]. Qed.

Lemma address_kept_update st id f :
  keeps_id f -> (forall u, deposit_address (f u) = deposit_address u) ->
  address_kept st (with_users st (update_where id f (users st))).
Proof.
  intros K C k a H _. unfold stored_address in *.
  rewrite get_update by exact K.
  destruct (k =? id); [|exact H].
  destruct (db_get_user st k) as [u|]; [|discriminate]. cbn [option_map].
  now rewrite C.
Qed.

Lemma address_kept_upsert st id name now :
  address_kept st (db_upsert_user st id name now).
Proof.
  intros k a H _. destruct (upsert_stored st id name now k) as (_ & _ & _ & A).
  now rewrite A.
Qed.

Lemma address_kept_get_or_create st id na :
  address_kept st (fst (get_or_create_deposit_address st id na)).
Proof.
  intros k a H N.
  assert (C : forall x, x = None \/ x = Some ""%string ->
              stored_address st id = x ->
              stored_address
                (fst (match na with
                      | Some b => (db_set_deposit_address
                                     (rpc_request st (GetNewAddress id)) id b,
                                   Some b)
                      | None => (rpc_request st (GetNewAddress id), None)
                      end)) k = Some a).
  { intros x Hx E. destruct na as [b|]; cbn [fst]; [|exact H].
    unfold stored_address in *. rewrite get_set_address, get_rpc_request.
    destruct (k =? id) eqn:Ek; [|exact H].
    apply Z.eqb_eq in Ek. subst k. rewrite E in H.
    destruct Hx as [->| ->]; [discriminate|].
    injection H as <-. now contradiction N. }
  unfold get_or_create_deposit_address.
  destruct (db_get_user st id) as [u|] eqn:G.
  - destruct (deposit_address u) as [b|] eqn:D.
    + destruct (String.eqb b "") eqn:Eb; [|exact H].
      apply String.eqb_eq in Eb. subst b.
      apply (C (Some ""%string)); [now right|].
      unfold stored_address. now rewrite G.
    + apply (C None); [now left|]. unfold stored_address. now rewrite G.
  - apply (C None); [now left|]. unfold stored_address. now rewrite G.
Qed.

(** X5: once an account has a (non-empty) deposit address, no run of
    operations changes it. *)
Theorem deposit_address_is_permanent (cfg : config) (st : state)
    (evs : list (Z * op)) (id : Z) (a : string) :
  stored_address st id = Some a -> a <> EmptyString ->
  stored_address (run_from cfg st evs) id = Some a.
Proof.
  assert (S : forall s k f, keeps_id f ->
              (forall v, deposit_address (f v) = deposit_address v) ->
              address_kept s (with_users s (update_where k f (users s)))).
  { intros; now apply address_kept_update. }
  revert id a.
  apply (closed_run cfg address_kept address_kept_refl address_kept_trans);
    try (intros; unfold_setters; apply S; intros ?; reflexivity).
  - apply address_kept_upsert.
  - intros; apply address_kept_same; reflexivity.
  - intros; apply address_kept_same; reflexivity.
  - apply address_kept_get_or_create.
  - apply closed_pass;
      [apply address_kept_refl | apply address_kept_trans | | | |];
      try (intros; unfold_setters; apply S; intros ?; reflexivity);
      intros; apply address_kept_same; reflexivity.
Qed.

(* ===================================================================== *)
(** * The order of decimals *)
(* ===================================================================== *)

(** [leb] compares the coefficients brought to any common exponent. *)
Lemma leb_spec x y m :
  m <= dexp x -> m <= dexp y ->
  leb x y = (coef x * 10 ^ (dexp x - m) <=? coef y * 10 ^ (dexp y - m)).
Proof.
  intros Hx Hy. unfold leb, align_l, align_r.
  set (m0 := Z.min (dexp x) (dexp y)).
  assert (Hm : m <= m0 /\ m0 <= dexp x /\ m0 <= dexp y) by (unfold m0; lia).
  pose proof (pow10_pos (m0 - m) ltac:(lia)) as P.
  assert (Ex : 10 ^ (dexp x - m) = 10 ^ (dexp x - m0) * 10 ^ (m0 - m)).
  { rewrite <- pow10_split by lia. f_equal. lia. }
  assert (Ey : 10 ^ (dexp y - m) = 10 ^ (dexp y - m0) * 10 ^ (m0 - m)).
  { rewrite <- pow10_split by lia. f_equal. lia. }
  rewrite Ex, Ey, !Z.mul_assoc.
  destruct (coef x * 10 ^ (dexp x - m0) <=? coef y * 10 ^ (dexp y - m0)) eqn:L;
    symmetry.
  - apply Z.leb_le in L. apply Z.leb_le.
    apply Z.mul_le_mono_nonneg_r; lia.
  - apply Z.leb_gt in L. apply Z.leb_gt.
    apply Z.mul_lt_mono_pos_r; lia.
Qed.

Lemma leb_refl x : leb x x = true.
Proof. unfold leb, align_l, align_r. apply Z.leb_refl. Qed.

Lemma leb_trans x y z : leb x y = true -> leb y z = true -> leb x z = true.
Proof.
  set (m := Z.min (dexp x) (Z.min (dexp y) (dexp z))).
  rewrite (leb_spec x y m), (leb_spec y z m), (leb_spec x z m)
    by (unfold m; lia).
  rewrite !Z.leb_le. lia.
Qed.

Lemma ltb_leb x y : ltb x y = true -> leb x y = true.
Proof. unfold ltb, leb. rewrite Z.ltb_lt, Z.leb_le. lia. Qed.

(* ===================================================================== *)
(** * A scanner pass, row by row *)
(* ===================================================================== *)

Lemma update_where_middle id f pre u rest :
  tg_id u = id ->
  ~ In id (map tg_id pre) -> ~ In id (map tg_id rest) ->
  update_where id f (pre ++ u :: rest) = pre ++ f u :: rest.
Proof.
  intros E Hp Hr. unfold update_where. rewrite map_app. cbn [map].
  fold (update_where id f pre). fold (update_where id f rest).
  rewrite (update_where_absent id f pre Hp), (update_where_absent id f rest Hr).
  apply Z.eqb_eq in E. now rewrite E.
Qed.

Lemma credited_user_id recv : keeps_id (credited_user recv).
Proof.
  intros u. unfold credited_user. destruct (deposit_address u); [|reflexivity].
  destruct (recv _ _); [|reflexivity]. now destruct (ltb _ _).
Qed.

Lemma scan_rows_cons u us :
  scan_rows (mkState (u :: us) [] []) =
  match deposit_address u with
  | Some a => [row_of u a]
  | None => []
  end ++ scan_rows (mkState us [] []).
Proof. reflexivity. Qed.

(** The fold of a pass over the rows of [us], in a table [pre ++ us] whose
    rows [pre] it has already visited. *)
Lemma scan_fold_effect cfg recv now : forall us pre s,
  users s = pre ++ us ->
  NoDup (map tg_id (pre ++ us)) ->
  let s' := fold_left (scan_step cfg recv now) (scan_rows (mkState us [] [])) s in
  users s' = pre ++ map (credited_user recv) us /\
  transfers s' = transfers s ++ flat_map (deposit_record recv now) us /\
  rpc_calls s' =
    rpc_calls s ++ map (scan_request cfg) (scan_rows (mkState us [] [])).
Proof.
  induction us as [|u us IH]; intros pre s E N; cbv zeta.
  - cbn. rewrite app_nil_r in E. rewrite !app_nil_r. auto.
  - assert (N' : NoDup (map tg_id ((pre ++ [u]) ++ us)))
      by (now rewrite <- app_assoc).
    assert (Hp : ~ In (tg_id u) (map tg_id pre)).
    { rewrite map_app in N. cbn [map] in N.
      apply NoDup_remove_2 in N. rewrite in_app_iff in N. tauto. }
    assert (Hr : ~ In (tg_id u) (map tg_id us)).
    { rewrite map_app in N. cbn [map] in N.
      apply NoDup_remove_2 in N. rewrite in_app_iff in N. tauto. }
    rewrite scan_rows_cons. cbn [map flat_map].
    (* the step of the row of [u], if it has one *)
    assert (Step : exists s1,
               fold_left (scan_step cfg recv now)
                 (match deposit_address u with
                  | Some a => [row_of u a]
                  | None => []
                  end) s = s1 /\
               users s1 = (pre ++ [credited_user recv u]) ++ us /\
               transfers s1 = transfers s ++ deposit_record recv now u /\
               rpc_calls s1 =
                 rpc_calls s ++
                 map (scan_request cfg)
                   (match deposit_address u with
                    | Some a => [row_of u a]
                    | None => []
                    end)).
    { unfold credited_user, deposit_record.
      destruct (deposit_address u) as [a|] eqn:A.
      - cbn [fold_left map]. unfold scan_step. cbn [row_of row_id row_addr].
        destruct (recv (tg_id u) a) as [t|] eqn:Rv.
        + unfold apply_credit. cbn [row_of row_credited row_balance row_id row_addr].
          destruct (ltb (credited_total u) t) eqn:L.
          * eexists. split; [reflexivity|].
            cbn [users transfers rpc_calls db_add_transfer db_set_credited_total
                 db_update_balance with_users rpc_request].
            split; [|split; reflexivity].
            rewrite E.
            rewrite (update_where_middle (tg_id u) _ pre u us eq_refl Hp Hr).
            rewrite (update_where_middle (tg_id u) _ pre (set_balance _ u) us
                       eq_refl Hp Hr).
            now rewrite <- app_assoc.
          * eexists. split; [reflexivity|].
            cbn [users transfers rpc_calls rpc_request].
            rewrite E, <- app_assoc, app_nil_r. auto.
        + eexists. split; [reflexivity|].
          cbn [users transfers rpc_calls rpc_request].
          rewrite E, <- app_assoc, app_nil_r. auto.
      - exists s. cbn [fold_left map].
        rewrite E, <- app_assoc, !app_nil_r. auto. }
    destruct Step as (s1 & F1 & E1 & T1 & Q1).
    rewrite fold_left_app, F1.
    assert (N1 : NoDup (map tg_id ((pre ++ [credited_user recv u]) ++ us))).
    { rewrite !map_app in *. cbn [map] in *.
      now rewrite credited_user_id. }
    destruct (IH _ s1 E1 N1) as (U & T & Q).
    rewrite U, T, Q, T1, Q1, map_app, <- !app_assoc. cbn [app]. auto.
Qed.

Lemma scan_rows_users st : scan_rows st = scan_rows (mkState (users st) [] []).
Proof. reflexivity. Qed.

Lemma scanner_pass_rows cfg st now recv :
  NoDup (map tg_id (users st)) ->
  users (scanner_pass cfg st now recv) = map (credited_user recv) (users st) /\
  transfers (scanner_pass cfg st now recv) =
    transfers st ++ flat_map (deposit_record recv now) (users st) /\
  rpc_calls (scanner_pass cfg st now recv) =
    rpc_calls st ++ map (scan_request cfg) (scan_rows st).
Proof.
  intros N. unfold scanner_pass. rewrite scan_rows_users.
  exact (scan_fold_effect cfg recv now (users st) [] st eq_refl N).
Qed.

(** X6: one pass of the scanner treats every account on its own.  On a
    table with unique ids the pass leaves, for each row, the row credited
    from the node's reading for its own address (balance plus the excess of
    the reading over [credited_total], watermark moved to the reading) when
    the reading exceeds the watermark, and the row as it was when the
    account has no address, when the node's call fails or when the reading
    is not above the watermark.  It appends one deposit record per credited
    row, in table order, and asks the node once per row that has an
    address. *)
Theorem scanner_pass_effect (cfg : config) (st : state) (now : Z)
    (recv : Z -> string -> option decimal) :
  NoDup (map tg_id (users st)) ->
  let st' := scanner_pass cfg st now recv in
  users st' = map (credited_user recv) (users st) /\
  transfers st' = transfers st ++ flat_map (deposit_record recv now) (users st) /\
  rpc_calls st' = rpc_calls st ++ map (scan_request cfg) (scan_rows st).
Proof. intros N. exact (scanner_pass_rows cfg st now recv N). Qed.

(* ===================================================================== *)
(** * Unique ids over runs *)
(* ===================================================================== *)

Lemma key_kept_update st id f :
  keeps_id f -> key_kept st (with_users st (update_where id f (users st))).
Proof.
  intros K N. cbn [users with_users]. now rewrite update_where_ids.
Qed.

Lemma key_kept_upsert st id name now :
  key_kept st (db_upsert_user st id name now).
Proof.
  intros N. unfold db_upsert_user.
  destruct (db_get_user st id) as [u|] eqn:E.
  - cbn [users with_users]. rewrite update_where_ids by (intros ?; reflexivity).
    exact N.
  - cbn [users with_users].
    apply (Permutation_NoDup
             (Permutation_sym
                (Permutation_map tg_id (insert_row_perm (new_user id name now)
                                                        (users st))))).
    cbn [map tg_id new_user]. constructor; [|exact N].
    now apply find_id_none.
Qed.

Lemma key_kept_run cfg evs st : key_kept st (run_from cfg st evs).
Proof.
  assert (Rr : forall s, key_kept s s) by (intros s N; exact N).
  assert (Rt : forall a b c, key_kept a b -> key_kept b c -> key_kept a c)
    by (intros a b c A B N; auto).
  assert (S : forall s k f, keeps_id f ->
              key_kept s (with_users s (update_where k f (users s))))
    by (intros; now apply key_kept_update).
  assert (Same : forall s s', users s' = users s -> key_kept s s')
    by (intros s s' E N; now rewrite E).
  apply (closed_run cfg key_kept Rr Rt);
    try (intros; unfold_setters; apply S; intros ?; reflexivity);
    try (intros; apply Same; reflexivity).
  - apply key_kept_upsert.
  - apply closed_get_or_create; [exact Rr | exact Rt | |];
      try (intros; unfold_setters; apply S; intros ?; reflexivity);
      intros; apply Same; reflexivity.
  - apply closed_pass; [exact Rr | exact Rt | | | |];
      try (intros; unfold_setters; apply S; intros ?; reflexivity);
      intros; apply Same; reflexivity.
Qed.

(* ===================================================================== *)
(** * The watermark over runs *)
(* ===================================================================== *)

Lemma watermarks_rise_refl st : watermarks_rise st st.
Proof. intros N. split; [exact N|]. intros id. apply leb_refl. Qed.

Lemma watermarks_rise_trans a b c :
  watermarks_rise a b -> watermarks_rise b c -> watermarks_rise a c.
Proof.
  intros A B N. destruct (A N) as [N1 L1]. destruct (B N1) as [N2 L2].
  split; [exact N2|]. intros id. eapply leb_trans; [apply L1 | apply L2].
Qed.

Lemma watermarks_same_refl st : watermarks_same st st.
Proof. intros id. reflexivity. Qed.

Lemma watermarks_same_trans a b c :
  watermarks_same a b -> watermarks_same b c -> watermarks_same a c.
Proof. intros A B id. now rewrite B, A. Qed.

Lemma watermarks_same_update st id f :
  keeps_id f -> (forall u, credited_total (f u) = credited_total u) ->
  watermarks_same st (with_users st (update_where id f (users st))).
Proof.
  intros K C k. unfold stored_credited. rewrite get_update by exact K.
  destruct (k =? id); [|reflexivity].
  destruct (db_get_user st k); cbn [option_map]; [apply C | reflexivity].
Qed.

Lemma watermarks_same_upsert st id name now :
  watermarks_same st (db_upsert_user st id name now).
Proof.
  intros k. now destruct (upsert_stored st id name now k) as (_ & C & _).
Qed.

Lemma watermarks_same_users st st' :
  users st' = users st -> watermarks_same st st'.
Proof. intros E id. unfold stored_credited, db_get_user. now rewrite E. Qed.

Lemma watermarks_same_handlers cfg st now o :
  (forall recv, o <> OpScan recv) ->
  watermarks_same st (fst (step cfg st (now, o))).
Proof.
  intros NS.
  assert (S : forall s k f, keeps_id f ->
              (forall v, credited_total (f v) = credited_total v) ->
              watermarks_same s (with_users s (update_where k f (users s))))
    by (intros; now apply watermarks_same_update).
  assert (G : forall s id na,
              watermarks_same s (fst (get_or_create_deposit_address s id na))).
  { apply closed_get_or_create;
      [apply watermarks_same_refl | apply watermarks_same_trans | |].
    - intros; unfold_setters; apply S; intros ?; reflexivity.
    - intros; apply watermarks_same_users; reflexivity. }
  unfold step. cbn [fst snd]. destruct o.
  - unfold cmd_start. destruct (is_private chat); cbn [negb fst];
      [|apply watermarks_same_refl].
    pose proof (G (db_upsert_user st uid uname now) uid newaddr) as Hg.
    destruct (get_or_create_deposit_address _ uid newaddr) as [s [a|]];
      cbn [fst] in *;
      (eapply watermarks_same_trans; [apply watermarks_same_upsert | exact Hg]).
  - unfold cmd_deposit. destruct (is_private chat); cbn [negb fst];
      [|apply watermarks_same_refl].
    pose proof (G (db_upsert_user st uid uname now) uid newaddr) as Hg.
    destruct (get_or_create_deposit_address _ uid newaddr) as [s [a|]];
      cbn [fst] in *;
      (eapply watermarks_same_trans; [apply watermarks_same_upsert | exact Hg]).
  - unfold cmd_balance. destruct (is_private chat); cbn [negb fst];
      [|apply watermarks_same_refl].
    destruct (db_get_user _ uid); apply watermarks_same_upsert.
  - apply (closed_cmd_withdraw cfg watermarks_same watermarks_same_refl
             watermarks_same_trans watermarks_same_upsert);
      try (intros; unfold_setters; apply S; intros ?; reflexivity);
      intros; apply watermarks_same_users; reflexivity.
  - unfold mark_active. destruct (is_group chat); cbn [negb fst];
      [|apply watermarks_same_refl].
    destruct from as [[[uid uname] [|]]|]; cbn [fst];
      try apply watermarks_same_refl.
    eapply watermarks_same_trans; [apply watermarks_same_upsert|].
    unfold_setters. apply S; intros ?; reflexivity.
  - apply (closed_cmd_tip cfg watermarks_same watermarks_same_refl
             watermarks_same_trans);
      try (intros; unfold_setters; apply S; intros ?; reflexivity);
      intros; apply watermarks_same_users; reflexivity.
  - apply (closed_cmd_faucet cfg watermarks_same watermarks_same_refl
             watermarks_same_trans watermarks_same_upsert);
      try (intros; unfold_setters; apply S; intros ?; reflexivity);
      intros; apply watermarks_same_users; reflexivity.
  - exfalso. now apply (NS recv).
Qed.

Lemma find_map_users (f : user -> user) us id :
  keeps_id f ->
  find (fun v => tg_id v =? id) (map f us) =
  option_map f (find (fun v => tg_id v =? id) us).
Proof.
  intros K. induction us as [|u us IH]; [reflexivity|].
  cbn [map find]. rewrite K. destruct (tg_id u =? id); [reflexivity | exact IH].
Qed.

Lemma credited_user_rises recv u :
  leb (credited_total u) (credited_total (credited_user recv u)) = true.
Proof.
  unfold credited_user. destruct (deposit_address u); [|apply leb_refl].
  destruct (recv _ _) as [t|]; [|apply leb_refl].
  destruct (ltb (credited_total u) t) eqn:L; [|apply leb_refl].
  cbn [credited_total set_credited]. now apply ltb_leb.
Qed.

Lemma watermarks_rise_pass cfg st now recv :
  watermarks_rise st (scanner_pass cfg st now recv).
Proof.
  intros N. destruct (scanner_pass_rows cfg st now recv N) as (U & _ & _).
  split.
  - rewrite U, map_map.
    rewrite (map_ext _ tg_id (credited_user_id recv)). exact N.
  - intros id. unfold stored_credited, db_get_user. rewrite U.
    rewrite find_map_users by apply credited_user_id.
    destruct (find _ (users st)) as [u|]; cbn [option_map];
      [apply credited_user_rises | apply leb_refl].
Qed.

Lemma watermarks_rise_step cfg st ev :
  watermarks_rise st (fst (step cfg st ev)).
Proof.
  destruct ev as [now o].
  assert (D : (exists recv, o = OpScan recv) \/ forall recv, o <> OpScan recv).
  { destruct o; try (right; intros ?; discriminate). left. eauto. }
  destruct D as [[recv ->]|NS].
  - apply watermarks_rise_pass.
  - intros N. split.
    + apply (key_kept_run cfg [(now, o)] st N).
    + intros id. rewrite (watermarks_same_handlers cfg st now o NS id).
      apply leb_refl.
Qed.

(** X7: [credited_total] is written by the scanner only and never goes
    down.  Every handler leaves the watermark of every account as it was,
    and over any run from a table with unique ids the watermark of an
    account is at least what it was. *)
Theorem credited_total_never_decreases (cfg : config) (st : state)
    (evs : list (Z * op)) :
  NoDup (map tg_id (users st)) ->
  (forall id,
     leb (stored_credited st id) (stored_credited (run_from cfg st evs) id)
     = true) /\
  (forall now o id, (forall recv, o <> OpScan recv) ->
     stored_credited (fst (step cfg st (now, o))) id = stored_credited st id).
Proof.
  intros N. split.
  - assert (R : watermarks_rise st (run_from cfg st evs)).
    { clear N. revert st.
      induction evs as [|ev evs IH]; intros st; cbn [run_from fold_left].
      - apply watermarks_rise_refl.
      - eapply watermarks_rise_trans; [apply watermarks_rise_step | apply IH]. }
    apply (R N).
  - intros now o id NS. now apply watermarks_same_handlers.
Qed.

(* ===================================================================== *)
(** * The records of the transfer log *)
(* ===================================================================== *)

Lemma grown_refl st : grown st st.
Proof. split; auto. Qed.

Lemma grown_trans a b c : grown a b -> grown b c -> grown a c.
Proof. intros [A1 A2] [B1 B2]. split; auto. Qed.

Lemma record_ok_grown cfg st st' t :
  grown st st' -> record_ok cfg st t -> record_ok cfg st' t.
Proof.
  intros [G1 G2] (S & F & T & A & B). unfold record_ok, party_exists in *.
  split; [exact S|]. split; [destruct (from_tg t); auto|].
  split; [destruct (to_tg t); auto|]. split; [exact A|].
  intros K. destruct (B K) as [addr I]. exists addr. auto.
Qed.

Section Records.

Variable cfg : config.

Lemma added_refl st : records_added cfg st st.
Proof.
  split; [apply grown_refl|]. exists []. now rewrite app_nil_r.
Qed.

Lemma added_trans a b c : records_added cfg a b -> records_added cfg b c -> records_added cfg a c.
Proof.
  intros [G1 (t1 & T1 & F1)] [G2 (t2 & T2 & F2)].
  split; [now apply (grown_trans a b c)|].
  exists (t1 ++ t2). split; [now rewrite T2, T1, app_assoc|].
  apply Forall_app. split; [|exact F2].
  apply (Forall_impl _ (P := record_ok cfg b)); [|exact F1].
  intros t. now apply record_ok_grown.
Qed.

(** A write to the users table that keeps the ids. *)
Lemma added_update st id f :
  keeps_id f -> records_added cfg st (with_users st (update_where id f (users st))).
Proof.
  intros K. split.
  - split; [|auto]. intros k. cbn [users with_users].
    now rewrite update_where_ids.
  - exists []. cbn [transfers with_users]. now rewrite app_nil_r.
Qed.

Lemma added_upsert st id name now : records_added cfg st (db_upsert_user st id name now).
Proof.
  split.
  - split; [intros k; apply ids_upsert_incl|]. now rewrite upsert_rpc.
  - exists []. now rewrite upsert_transfers, app_nil_r.
Qed.

Lemma added_rpc st c : records_added cfg st (rpc_request st c).
Proof.
  split.
  - split; [auto|]. intros x I. cbn [rpc_calls rpc_request].
    apply in_or_app. now left.
  - exists []. cbn [transfers rpc_request]. now rewrite app_nil_r.
Qed.

Lemma added_transfer st k f t a tx now :
  record_ok cfg st (mkTransfer k f t a tx now) ->
  records_added cfg st (db_add_transfer st k f t a tx now).
Proof.
  intros O.
  assert (G : grown st (db_add_transfer st k f t a tx now)) by (split; auto).
  split; [exact G|].
  exists [mkTransfer k f t a tx now]. split; [reflexivity|].
  constructor; [|constructor]. now apply (record_ok_grown cfg st).
Qed.

Lemma added_get_or_create st id na :
  records_added cfg st (fst (get_or_create_deposit_address st id na)).
Proof.
  apply closed_get_or_create; [apply added_refl | apply added_trans | |].
  - intros; unfold_setters; apply added_update; intros ?; reflexivity.
  - apply added_rpc.
Qed.

Ltac setter := unfold_setters; apply added_update; intros ?; reflexivity.

Ltac record_goal :=
  unfold record_ok, record_shape, record_amount, record_backed, party_exists;
  cbn [kind from_tg to_tg amount txid users rpc_calls db_update_balance
       db_set_last_faucet db_set_credited_total with_users rpc_request].

(** Peels the writes that add no record off the state on the right. *)
Ltac peel :=
  repeat first
    [ apply added_refl
    | apply added_upsert
    | eapply added_trans; [|apply added_rpc]
    | eapply added_trans; [|setter] ].

Lemma tip_record_ok st uid rid a now :
  In uid (map tg_id (users st)) -> In rid (map tg_id (users st)) ->
  0 <= coef a ->
  record_ok cfg st (mkTransfer Tip (Some uid) (Some rid) a None now).
Proof.
  intros Iu Ir A. unfold record_ok, record_shape, record_amount, record_backed.
  cbn. repeat split; auto; discriminate.
Qed.

Lemma get_some_in st id u : db_get_user st id = Some u -> In id (map tg_id (users st)).
Proof.
  intros H. apply get_user_spec in H. destruct H as [I <-]. now apply in_map.
Qed.

Lemma added_tip_single st now uid sender amount rid :
  In uid (map tg_id (users st)) -> 0 <= coef amount ->
  records_added cfg st (fst (tip_single st now uid sender amount rid)).
Proof.
  intros Iu A. unfold tip_single.
  destruct (db_get_user _ rid) as [u|] eqn:G; cbn [fst]; [|peel].
  apply get_some_in in G.
  destruct (fmt_amt amount); cbn [fst]; [eapply added_trans; [|setter]|];
    (eapply added_trans; [|apply added_transfer];
     [peel | apply tip_record_ok; [| |exact A]]).
  all: cbn [users db_update_balance with_users] in *;
    rewrite !update_where_ids in * by (intros ?; reflexivity); assumption.
Qed.

Lemma added_credit_each now uid share : forall recipients st,
  In uid (map tg_id (users st)) -> 0 <= coef share ->
  records_added cfg st (fst (credit_each st now uid share recipients)).
Proof.
  induction recipients as [|rid rest IH]; intros st Iu A; cbn [credit_each fst].
  - apply added_refl.
  - destruct (db_get_user st rid) as [u|] eqn:G; [|apply added_refl].
    apply get_some_in in G.
    eapply added_trans; [|apply IH; [|exact A]].
    + eapply added_trans; [|apply added_transfer]; [peel|].
      apply tip_record_ok; [| |exact A];
        cbn [users db_update_balance with_users];
        rewrite update_where_ids by (intros ?; reflexivity); assumption.
    + cbn [users db_add_transfer db_update_balance with_users].
      rewrite update_where_ids by (intros ?; reflexivity). exact Iu.
Qed.

Lemma added_tip_split st now uid sender amount recipients :
  In uid (map tg_id (users st)) -> 0 < coef amount -> recipients <> [] ->
  records_added cfg st (fst (tip_split st now uid sender amount recipients)).
Proof.
  intros Iu A Ne. unfold tip_split.
  destruct (split_share _ _) as [share|] eqn:S; [|apply added_refl].
  destruct (ltb _ _); [apply added_refl|].
  assert (Sh : 0 <= coef share).
  { apply (split_share_nonneg amount (List.length recipients)); auto.
    destruct recipients; [contradiction | cbn; lia]. }
  set (st1 := db_update_balance st uid _).
  assert (I1 : In uid (map tg_id (users st1))).
  { unfold st1. cbn [users db_update_balance with_users].
    rewrite update_where_ids by (intros ?; reflexivity). exact Iu. }
  pose proof (added_credit_each now uid share recipients st1 I1 Sh) as C.
  destruct (credit_each st1 now uid share recipients) as [st2 [|]];
    cbn [fst] in *.
  - destruct (fmt_amt share); cbn [fst].
    + eapply added_trans; [|setter]. eapply added_trans; [|exact C].
      unfold st1. peel.
    + eapply added_trans; [|exact C]. unfold st1. peel.
  - eapply added_trans; [|exact C]. unfold st1. peel.
Qed.


Lemma added_cmd_tip st now chat uid cmd choice :
  records_added cfg st (fst (cmd_tip cfg st now chat uid cmd choice)).
Proof.
  unfold cmd_tip. destruct (is_group chat); cbn [negb]; [|apply added_refl].
  destruct cmd as [| |mode amt]; try apply added_refl.
  destruct (db_get_user st uid) as [sender|] eqn:G; [|apply added_refl].
  apply get_some_in in G.
  destruct amt as [amount|[|]|]; try apply added_refl.
  destruct (coef amount <=? 0) eqn:P; [apply added_refl|].
  apply Z.leb_gt in P.
  destruct (ltb (balance sender) amount); [apply added_refl|].
  destruct mode as [| |target].
  - destruct (other_active cfg st now uid) as [|c rest]; [apply added_refl|].
    apply added_tip_single; [exact G | lia].
  - destruct (other_active cfg st now uid) as [|c rest] eqn:O;
      [apply added_refl|].
    apply added_tip_split; [exact G | exact P | discriminate].
  - destruct (find_by_username st (lower target)); [|apply added_refl].
    apply added_tip_single; [exact G | lia].
Qed.

Lemma added_cmd_withdraw st now chat uid uname cmd send :
  records_added cfg st (fst (cmd_withdraw cfg st now chat uid uname cmd send)).
Proof.
  unfold cmd_withdraw. destruct (is_private chat); cbn [negb fst];
    [|apply added_refl].
  destruct cmd as [[[a|] address]|]; cbn [fst]; try apply added_upsert.
  destruct a as [amount|[|]|]; cbn [fst]; try apply added_upsert.
  - destruct (coef amount <=? 0) eqn:P; cbn [fst]; [apply added_upsert|].
    apply Z.leb_gt in P.
    destruct (db_get_user _ uid) as [u|] eqn:G; cbn [fst]; [|apply added_upsert].
    apply get_some_in in G.
    destruct (ltb (balance u) amount); cbn [fst]; [apply added_upsert|].
    destruct (coef (sub amount (WITHDRAW_FEE cfg)) <=? 0); cbn [fst];
      [apply added_upsert|].
    destruct send as [tx|]; cbn [fst].
    + eapply added_trans; [|apply added_transfer]; [peel|].
      record_goal.
      split; [repeat split; discriminate|].
      split; [rewrite update_where_ids by (intros ?; reflexivity); exact G|].
      split; [exact I|]. split; [exact P|]. intros _. exists address.
      apply in_or_app. right. now left.
    + peel.
  - destruct (db_get_user _ uid); cbn [fst]; apply added_upsert.
Qed.

Lemma added_cmd_faucet st now at_wait at_claim uid uname :
  records_added cfg st (fst (cmd_faucet cfg st now at_wait at_claim uid uname)).
Proof.
  unfold cmd_faucet. destruct (db_get_user _ uid) as [u|] eqn:G; cbn [fst];
    [|apply added_upsert].
  apply get_some_in in G.
  destruct (now - last_faucet_ts u <? FAUCET_INTERVAL cfg); cbn [fst];
    [apply added_upsert|].
  eapply added_trans; [|apply added_transfer]; [peel|].
  record_goal.
  split; [repeat split; discriminate|]. split; [exact I|].
  split; [|split; [reflexivity | discriminate]].
  rewrite !update_where_ids by (intros ?; reflexivity). exact G.
Qed.

Lemma added_scan recv now rows : forall st,
  Forall (fun r => In (row_id r) (map tg_id (users st))) rows ->
  records_added cfg st (fold_left (scan_step cfg recv now) rows st).
Proof.
  induction rows as [|r rows IH]; intros st F; cbn [fold_left];
    [apply added_refl|].
  inversion F as [|? ? Hr Fr]; subst.
  eapply added_trans; [|apply IH].
  - unfold scan_step. destruct (recv _ _) as [t|]; [|apply added_rpc].
    unfold apply_credit. destruct (ltb (row_credited r) t) eqn:L;
      [|apply added_rpc].
    eapply added_trans; [|apply added_transfer]; [peel|].
    record_goal.
    split; [repeat split; discriminate|]. split; [exact I|].
    split; [|split; [now apply sub_pos | discriminate]].
    rewrite !update_where_ids by (intros ?; reflexivity). exact Hr.
  - rewrite scan_step_ids. exact Fr.
Qed.

Lemma scan_rows_ids st :
  Forall (fun r => In (row_id r) (map tg_id (users st))) (scan_rows st).
Proof.
  apply Forall_forall. intros r I. apply (scan_rows_sub (users st)).
  now apply in_map.
Qed.

Lemma added_step st ev : records_added cfg st (fst (step cfg st ev)).
Proof.
  destruct ev as [now o]. unfold step. cbn [fst snd]. destruct o.
  - unfold cmd_start. destruct (is_private chat); cbn [negb fst];
      [|apply added_refl].
    pose proof (added_get_or_create (db_upsert_user st uid uname now) uid newaddr)
      as G.
    destruct (get_or_create_deposit_address _ uid newaddr) as [s [a|]];
      cbn [fst] in *; (eapply added_trans; [apply added_upsert | exact G]).
  - unfold cmd_deposit. destruct (is_private chat); cbn [negb fst];
      [|apply added_refl].
    pose proof (added_get_or_create (db_upsert_user st uid uname now) uid newaddr)
      as G.
    destruct (get_or_create_deposit_address _ uid newaddr) as [s [a|]];
      cbn [fst] in *; (eapply added_trans; [apply added_upsert | exact G]).
  - unfold cmd_balance. destruct (is_private chat); cbn [negb fst];
      [|apply added_refl].
    destruct (db_get_user _ uid); apply added_upsert.
  - apply added_cmd_withdraw.
  - unfold mark_active. destruct (is_group chat); cbn [negb fst];
      [|apply added_refl].
    destruct from as [[[uid uname] [|]]|]; cbn [fst]; try apply added_refl.
    peel.
  - apply added_cmd_tip.
  - apply added_cmd_faucet.
  - cbn [fst]. unfold scanner_pass. apply added_scan. apply scan_rows_ids.
Qed.

Lemma added_run evs : forall st, records_added cfg st (run_from cfg st evs).
Proof.
  induction evs as [|ev evs IH]; intros st; cbn [run_from fold_left].
  - apply added_refl.
  - eapply added_trans; [apply added_step | apply IH].
Qed.

Lemma records_of_run evs :
  Forall (record_ok cfg (run cfg evs)) (transfers (run cfg evs)).
Proof.
  destruct (added_run evs empty_state) as [_ (ts & T & F)].
  unfold run. rewrite T. exact F.
Qed.

End Records.

(** X8: after every run on the empty ledger every transfer record has the
    columns of its kind (a deposit or faucet record names a receiver only, a
    tip a sender and a receiver, a withdrawal a sender and its transaction
    id), names only accounts that exist, and carries an amount that is
    positive for deposits and withdrawals, not negative for tips and equal
    to [FAUCET_AMOUNT] for faucet claims. *)
Theorem transfer_records_are_well_formed (cfg : config)
    (evs : list (Z * op)) :
  Forall (fun t => record_shape t /\
                   party_exists (run cfg evs) (from_tg t) /\
                   party_exists (run cfg evs) (to_tg t) /\
                   record_amount cfg t)
         (transfers (run cfg evs)).
Proof.
  apply (Forall_impl _ (P := record_ok cfg (run cfg evs)));
    [|apply records_of_run].
  intros t (S & F & T & A & _). auto.
Qed.

(** X9: no withdrawal is recorded without a request to the wallet node:
    after every run on the empty ledger, for every withdraw record of amount
    [a] the log of requests holds a [sendtoaddress] request, to some address,
    whose amount is the float made of the decimal [a - WITHDRAW_FEE]
    ([float(send_amount)]; the float itself is not interpreted). *)
Theorem withdrawals_are_backed_by_send_requests (cfg : config)
    (evs : list (Z * op)) :
  Forall (fun t =>
            kind t = Withdraw ->
            exists addr,
              In (SendToAddress addr
                    (float_of (sub (amount t) (WITHDRAW_FEE cfg))))
                 (rpc_calls (run cfg evs)))
         (transfers (run cfg evs)).
Proof.
  apply (Forall_impl _ (P := record_ok cfg (run cfg evs)));
    [|apply records_of_run].
  intros t (_ & _ & _ & _ & B). exact B.
Qed.

(* ===================================================================== *)
(** * Which operations talk to the wallet node *)
(* ===================================================================== *)

Lemma same_requests_trans a b c :
  same_requests a b -> same_requests b c -> same_requests a c.
Proof. unfold same_requests. congruence. Qed.

Lemma get_or_create_requests st id na :
  rpc_calls (fst (get_or_create_deposit_address st id na)) = rpc_calls st \/
  rpc_calls (fst (get_or_create_deposit_address st id na)) =
    rpc_calls st ++ [GetNewAddress id].
Proof.
  unfold get_or_create_deposit_address.
  destruct (db_get_user st id) as [u|];
    [destruct (deposit_address u) as [a|]; [destruct (String.eqb a "")|]|];
    try (left; reflexivity);
    destruct na; right; reflexivity.
Qed.

(** X10: tips, faucet claims, balance queries and the activity tracker never
    talk to the wallet node; [/start] and [/deposit] send at most one
    [getnewaddress] request, [/withdraw] at most one [sendtoaddress]
    request, and a scanner pass exactly one [getreceivedbyaddress] request
    per row that has a deposit address (with [MIN_CONF]), in table order. *)
Theorem wallet_requests_per_operation (cfg : config) (st : state) (now : Z)
    (o : op) :
  let st' := fst (step cfg st (now, o)) in
  match o with
  | OpBalance _ _ _ | OpMessage _ _ | OpTip _ _ _ _ | OpFaucet _ _ _ _ =>
      rpc_calls st' = rpc_calls st
  | OpStart _ uid _ _ | OpDeposit _ uid _ _ =>
      rpc_calls st' = rpc_calls st \/
      rpc_calls st' = rpc_calls st ++ [GetNewAddress uid]
  | OpWithdraw _ _ _ _ _ =>
      rpc_calls st' = rpc_calls st \/
      exists addr amt, rpc_calls st' = rpc_calls st ++ [SendToAddress addr amt]
  | OpScan _ =>
      rpc_calls st' = rpc_calls st ++ map (scan_request cfg) (scan_rows st)
  end.
Proof.
  assert (Rr : forall s, same_requests s s) by reflexivity.
  assert (Su : forall s us, same_requests s (with_users s us)) by reflexivity.
  assert (Sa : forall s k f t a tx n,
             same_requests s (db_add_transfer s k f t a tx n)) by reflexivity.
  cbv zeta. unfold step. cbn [fst snd]. destruct o.
  - unfold cmd_start. destruct (is_private chat); cbn [negb fst]; [|now left].
    pose proof (get_or_create_requests (db_upsert_user st uid uname now) uid
                  newaddr) as G.
    rewrite upsert_rpc in G.
    destruct (get_or_create_deposit_address _ uid newaddr) as [s [a|]];
      exact G.
  - unfold cmd_deposit. destruct (is_private chat); cbn [negb fst]; [|now left].
    pose proof (get_or_create_requests (db_upsert_user st uid uname now) uid
                  newaddr) as G.
    rewrite upsert_rpc in G.
    destruct (get_or_create_deposit_address _ uid newaddr) as [s [a|]];
      exact G.
  - unfold cmd_balance. destruct (is_private chat); cbn [negb fst];
      [|reflexivity].
    destruct (db_get_user _ uid); apply upsert_rpc.
  - unfold cmd_withdraw. destruct (is_private chat); cbn [negb fst];
      [|now left].
    destruct cmd as [[[a|] address]|]; cbn [fst];
      try (left; apply upsert_rpc).
    destruct a as [amount|[|]|]; cbn [fst]; try (left; apply upsert_rpc).
    + destruct (coef amount <=? 0); cbn [fst]; [left; apply upsert_rpc|].
      destruct (db_get_user _ uid) as [u|]; cbn [fst];
        [|left; apply upsert_rpc].
      destruct (ltb (balance u) amount); cbn [fst]; [left; apply upsert_rpc|].
      destruct (coef (sub amount (WITHDRAW_FEE cfg)) <=? 0); cbn [fst];
        [left; apply upsert_rpc|].
      right. exists address, (float_of (sub amount (WITHDRAW_FEE cfg))).
      destruct send; cbn [fst rpc_calls db_add_transfer db_update_balance
                          with_users rpc_request];
        now rewrite upsert_rpc.
    + destruct (db_get_user _ uid); cbn [fst]; left; apply upsert_rpc.
  - unfold mark_active. destruct (is_group chat); cbn [negb fst];
      [|reflexivity].
    destruct from as [[[uid uname] [|]]|]; cbn [fst]; try reflexivity.
    cbn [rpc_calls db_set_active with_users]. apply upsert_rpc.
  - apply (closed_cmd_tip cfg same_requests Rr same_requests_trans);
      intros; first [apply Su | apply Sa].
  - apply (closed_cmd_faucet cfg same_requests Rr same_requests_trans);
      intros; first [apply upsert_rpc | apply Su | apply Sa].
  - cbn [fst]. unfold scanner_pass.
    generalize (scan_rows st) as rows. intros rows. revert st.
    induction rows as [|r rows IH]; intros st; cbn [fold_left map].
    + now rewrite app_nil_r.
    + rewrite IH.
      assert (E : rpc_calls (scan_step cfg recv now st r) =
                  rpc_calls st ++ [scan_request cfg r]).
      { unfold scan_step. destruct (recv _ _); [|reflexivity].
        unfold apply_credit. now destruct (ltb _ _). }
      rewrite E, <- app_assoc. reflexivity.
Qed.

(* ===================================================================== *)
(** * Solvency *)
(* ===================================================================== *)


(* ===================================================================== *)
(** * Tips to one recipient *)
(* ===================================================================== *)

Lemma stored_balance_set_active st id t k :
  stored_balance (db_set_active st id t) k = stored_balance st k.
Proof.
  unfold stored_balance. rewrite get_set_active.
  destruct (k =? id); [|reflexivity]. now destruct (db_get_user st k).
Qed.

(** The one-recipient tip on well-formed tables in range. *)
Lemma tip_single_exact st now uid sender amount rid :
  ledger_wf st -> sum_balances st < 10 ^ 18 ->
  db_get_user st uid = Some sender ->
  eight_dp amount -> 0 < coef amount ->
  ltb (balance sender) amount = false ->
  In rid (map tg_id (users st)) ->
  let out := tip_single st now uid sender amount rid in
  snd out = Tipped amount /\
  (rid <> uid ->
   units (stored_balance (fst out) uid) = units (balance sender) - units amount /\
   units (stored_balance (fst out) rid) = units (stored_balance st rid) + units amount) /\
  (rid = uid -> units (stored_balance (fst out) uid) = units (balance sender)) /\
  (forall k, k <> uid -> k <> rid ->
     stored_balance (fst out) k = stored_balance st k) /\
  transfers (fst out) = transfers st ++ [tip_record uid amount now rid] /\
  rpc_calls (fst out) = rpc_calls st.
Proof.
  intros W B Hs E8 Ha L Ir. cbv zeta.
  destruct (wf_get st uid sender W Hs) as [[Eb Cb] _].
  pose proof (balance_le_sum st uid sender W Hs) as Bs.
  destruct (sub_units (balance sender) amount Eb E8 L) as (Es & Cs & Xs & _).
  specialize (Xs ltac:(pose proof (units_nonneg amount ltac:(lia)); lia)).
  assert (LA : units amount <= units (balance sender)).
  { rewrite (ltb_units _ _ Eb E8) in L. now apply Z.ltb_ge in L. }
  pose proof (units_nonneg amount ltac:(lia)) as UA.
  assert (Ok : amount_ok amount) by (split; [exact E8 | lia]).
  assert (Bb : units (balance sender) < bound) by (unfold bound; lia).
  destruct (debit_exact st uid sender amount W Hs Ok L Bb) as [W1 S1].
  set (st1 := db_update_balance st uid (sub (balance sender) amount)) in *.
  assert (I1 : In rid (map tg_id (users st1)))
    by (unfold st1; now rewrite ids_update_balance).
  destruct (get_in_ids st1 rid I1) as [u Hu].
  assert (Fm : fmt_amt amount <> None)
    by (apply fmt_amt_in_range; [exact E8 | lia]).
  unfold tip_single. fold st1. rewrite Hu.
  destruct (fmt_amt amount) as [txt|]; [clear Fm | now elim Fm].
  cbn [fst snd].
  split; [reflexivity|].
  assert (Bu : balance u = stored_balance st1 rid)
    by (unfold stored_balance; now rewrite Hu).
  destruct (stored_balance_ok st1 rid W1) as [[Er Cr] Br].
  destruct (add_units (stored_balance st1 rid) amount Er E8 Cr ltac:(lia))
    as (_ & _ & Xa & _).
  specialize (Xa ltac:(lia)).
  assert (Fin : forall k,
            stored_balance
              (db_set_active
                 (db_add_transfer
                    (db_update_balance st1 rid (add (balance u) amount))
                    Tip (Some uid) (Some rid) amount None now) uid now) k =
            if k =? rid then add (balance u) amount else stored_balance st1 k).
  { intros k. rewrite stored_balance_set_active.
    change (stored_balance (db_add_transfer ?s _ _ _ _ _ _) k)
      with (stored_balance s k).
    rewrite stored_balance_update. destruct (k =? rid) eqn:Ek; [|reflexivity].
    apply Z.eqb_eq in Ek. subst k. now rewrite Hu. }
  assert (S1u : stored_balance st1 uid = sub (balance sender) amount).
  { unfold st1. now rewrite stored_balance_update, Z.eqb_refl, Hs. }
  assert (S1o : forall k, k <> uid -> stored_balance st1 k = stored_balance st k).
  { intros k N. unfold st1. rewrite stored_balance_update.
    apply Z.eqb_neq in N. now rewrite N. }
  split; [|split; [|split; [|split]]].
  - intros N. rewrite !Fin, Z.eqb_refl.
    assert (Eu : (uid =? rid) = false) by (apply Z.eqb_neq; congruence).
    rewrite Eu, S1u, Bu, Xa, (S1o rid N). lia.
  - intros ->. rewrite Fin, Z.eqb_refl, Bu, Xa, S1u. lia.
  - intros k K1 K2. rewrite Fin.
    apply Z.eqb_neq in K2. rewrite K2. now apply S1o.
  - reflexivity.
  - reflexivity.
Qed.

Lemma cmd_tip_checked cfg st now chat uid sender amount mode choice :
  is_group chat = true ->
  db_get_user st uid = Some sender ->
  0 < coef amount -> ltb (balance sender) amount = false ->
  cmd_tip cfg st now chat uid (TipParsed mode (Finite amount)) choice =
  match mode with
  | Direct target =>
      match find_by_username st (lower target) with
      | None => (st, TargetNotFound)
      | Some rid => tip_single st now uid sender amount rid
      end
  | Active =>
      match other_active cfg st now uid with
      | [] => (st, NoActiveUsers)
      | recipients => tip_split st now uid sender amount recipients
      end
  | Lucky =>
      match other_active cfg st now uid with
      | [] => (st, NoActiveUsersToTip)
      | c :: rest =>
          tip_single st now uid sender amount
            (nth (Nat.modulo choice (List.length (c :: rest))) (c :: rest) c)
      end
  end.
Proof.
  intros G Hs Ha L. unfold cmd_tip. rewrite G, Hs. cbn [negb].
  assert (E : (coef amount <=? 0) = false) by (apply Z.leb_gt; lia).
  now rewrite E, L.
Qed.

(** X12: a tip to a named user.  On well-formed tables holding less than
    10^10 coins, [/tip @name a] from a registered sender in a group, for an
    amount [a > 0] of at most eight decimals that the sender's balance
    covers, goes to the first account whose username matches the name
    without regard to case; when that account is not the sender's, the
    sender's balance goes down by exactly [a], the recipient's goes up by
    exactly [a], every other balance is kept, exactly one tip record of
    amount [a] is appended and the wallet node is not involved. *)
Theorem direct_tip_effect (cfg : config) (st : state) (now : Z)
    (chat : chat_type) (uid : Z) (choice : nat) (sender : user)
    (amount : decimal) (target : string) (rid : Z) :
  is_group chat = true ->
  ledger_wf st -> sum_balances st < 10 ^ 18 ->
  db_get_user st uid = Some sender ->
  eight_dp amount -> 0 < coef amount ->
  ltb (balance sender) amount = false ->
  find_by_username st (lower target) = Some rid -> rid <> uid ->
  let out := cmd_tip cfg st now chat uid
               (TipParsed (Direct target) (Finite amount)) choice in
  snd out = Tipped amount /\
  units (stored_balance (fst out) uid) = units (balance sender) - units amount /\
  units (stored_balance (fst out) rid) = units (stored_balance st rid) + units amount /\
  (forall k, k <> uid -> k <> rid ->
     stored_balance (fst out) k = stored_balance st k) /\
  transfers (fst out) = transfers st ++ [tip_record uid amount now rid] /\
  rpc_calls (fst out) = rpc_calls st.
Proof.
  intros G W B Hs E8 Ha L F N. cbv zeta.
  rewrite (cmd_tip_checked cfg st now chat uid sender amount _ choice G Hs Ha L).
  rewrite F.
  destruct (tip_single_exact st now uid sender amount rid W B Hs E8 Ha L
              (find_by_username_ids st _ rid F)) as (A1 & A2 & _ & A4 & A5 & A6).
  destruct (A2 N) as [A2a A2b]. auto 10.
Qed.

(** X13: nothing stops a user from tipping their own name.  Under the
    conditions of a direct tip, when the name resolves to the sender's own
    account the tip succeeds, every balance (the sender's included) is what
    it was, and a tip record from the sender to the sender is appended. *)
Theorem tip_to_oneself_changes_no_balance (cfg : config) (st : state)
    (now : Z) (chat : chat_type) (uid : Z) (choice : nat) (sender : user)
    (amount : decimal) (target : string) :
  is_group chat = true ->
  ledger_wf st -> sum_balances st < 10 ^ 18 ->
  db_get_user st uid = Some sender ->
  eight_dp amount -> 0 < coef amount ->
  ltb (balance sender) amount = false ->
  find_by_username st (lower target) = Some uid ->
  let out := cmd_tip cfg st now chat uid
               (TipParsed (Direct target) (Finite amount)) choice in
  snd out = Tipped amount /\
  (forall k, units (stored_balance (fst out) k) = units (stored_balance st k)) /\
  transfers (fst out) =
    transfers st ++ [mkTransfer Tip (Some uid) (Some uid) amount None now].
Proof.
  intros G W B Hs E8 Ha L F. cbv zeta.
  rewrite (cmd_tip_checked cfg st now chat uid sender amount _ choice G Hs Ha L).
  rewrite F.
  destruct (tip_single_exact st now uid sender amount uid W B Hs E8 Ha L
              (find_by_username_ids st _ uid F)) as (A1 & _ & A3 & A4 & A5 & _).
  split; [exact A1|]. split; [|exact A5].
  intros k. destruct (Z.eq_dec k uid) as [->|N].
  - rewrite (A3 eq_refl). unfold stored_balance. now rewrite Hs.
  - now rewrite (A4 k N N).
Qed.

Lemma other_active_in cfg st now uid r :
  In r (other_active cfg st now uid) <->
  r <> uid /\
  exists u, In u (users st) /\ tg_id u = r /\
            now - ACTIVE_WINDOW cfg <= last_active_ts u.
Proof.
  unfold other_active, active_since. rewrite filter_In, in_map_iff.
  split.
  - intros [(u & E & I) N]. apply filter_In in I. destruct I as [I C].
    split; [intros ->; now rewrite Z.eqb_refl in N|].
    exists u. repeat split; auto. now apply Z.leb_le.
  - intros [N (u & I & E & C)]. split.
    + exists u. split; [exact E|]. apply filter_In. split; [exact I|].
      now apply Z.leb_le.
    + apply Z.eqb_neq in N. now rewrite N.
Qed.

(** X14: a lucky tip.  Under the same conditions [/tip a], when some other
    user has been active within [ACTIVE_WINDOW], goes to one account that
    is not the sender's and whose last activity is within the window; the
    sender's balance goes down by exactly [a], that account's goes up by
    exactly [a], every other balance is kept and exactly one tip record is
    appended. *)
Theorem lucky_tip_effect (cfg : config) (st : state) (now : Z)
    (chat : chat_type) (uid : Z) (choice : nat) (sender : user)
    (amount : decimal) :
  is_group chat = true ->
  ledger_wf st -> sum_balances st < 10 ^ 18 ->
  db_get_user st uid = Some sender ->
  eight_dp amount -> 0 < coef amount ->
  ltb (balance sender) amount = false ->
  other_active cfg st now uid <> [] ->
  let out := cmd_tip cfg st now chat uid
               (TipParsed Lucky (Finite amount)) choice in
  exists rid,
    rid <> uid /\
    (exists u, db_get_user st rid = Some u /\
               now - ACTIVE_WINDOW cfg <= last_active_ts u) /\
    snd out = Tipped amount /\
    units (stored_balance (fst out) uid) = units (balance sender) - units amount /\
    units (stored_balance (fst out) rid) = units (stored_balance st rid) + units amount /\
    (forall k, k <> uid -> k <> rid ->
       stored_balance (fst out) k = stored_balance st k) /\
    transfers (fst out) = transfers st ++ [tip_record uid amount now rid].
Proof.
  intros G W B Hs E8 Ha L Ne. cbv zeta.
  rewrite (cmd_tip_checked cfg st now chat uid sender amount _ choice G Hs Ha L).
  destruct (other_active cfg st now uid) as [|c rest] eqn:O; [contradiction|].
  set (rid := nth (Nat.modulo choice (List.length (c :: rest))) (c :: rest) c).
  assert (I : In rid (other_active cfg st now uid)).
  { rewrite O. apply nth_In. apply Nat.mod_upper_bound. cbn. lia. }
  apply other_active_in in I. destruct I as [N (u & Iu & Eu & Cu)].
  assert (Ir : In rid (map tg_id (users st))) by (rewrite <- Eu; now apply in_map).
  destruct (tip_single_exact st now uid sender amount rid W B Hs E8 Ha L Ir)
    as (A1 & A2 & _ & A4 & A5 & _).
  destruct (A2 N) as [A2a A2b].
  exists rid. split; [exact N|]. split.
  { exists u. split; [|exact Cu]. rewrite <- Eu. unfold db_get_user.
    apply find_id_unique; [apply (wf_key st W) | exact Iu]. }
  auto 10.
Qed.

(* ===================================================================== *)
(** * Amounts that cannot be used *)
(* ===================================================================== *)

(** X15: an amount that is not a positive finite number never moves
    anything.  For [/tip] the state is left exactly as it was: a registered
    sender in a group is told that the amount must be positive for a zero,
    a negative number or [-Infinity] and that the balance is insufficient
    for [Infinity], and for a NaN the handler raises without an answer.  For
    [/withdraw] no request reaches the wallet node and no balance,
    watermark or transfer changes: the answer is "Invalid amount" for a
    text [Decimal] rejects, a NaN, [-Infinity], zero or a negative number,
    and "Insufficient balance" for [Infinity]. *)
Theorem unusable_amounts_move_nothing (cfg : config) (st : state) (now : Z)
    (uid : Z) (uname : string) (sender : user) (mode : tip_mode)
    (a : amount_arg) (address : string) (send : option string)
    (choice : nat) :
  db_get_user st uid = Some sender ->
  match a with Finite d => coef d <= 0 | _ => True end ->
  cmd_tip cfg st now Group uid (TipParsed mode a) choice =
    (st, match a with
         | NaN => Raised
         | Infinity false => InsufficientBalance
         | _ => AmountMustBePositive
         end) /\
  (let out := cmd_withdraw cfg st now Private uid uname
                (Some (Some a, address)) send in
   snd out = match a with
             | Infinity false => InsufficientBalance
             | _ => InvalidAmount
             end /\
   rpc_calls (fst out) = rpc_calls st /\ ledger_untouched st (fst out)) /\
  (let out := cmd_withdraw cfg st now Private uid uname
                (Some (None, address)) send in
   snd out = InvalidAmount /\
   rpc_calls (fst out) = rpc_calls st /\ ledger_untouched st (fst out)).
Proof.
  intros Hs Ha.
  assert (U : rpc_calls (db_upsert_user st uid uname now) = rpc_calls st /\
              ledger_untouched st (db_upsert_user st uid uname now))
    by (split; [apply upsert_rpc | apply upsert_untouched]).
  split; [|split].
  - unfold cmd_tip. cbn [is_group negb]. rewrite Hs.
    destruct a as [d|[|]|]; try reflexivity.
    assert (E : (coef d <=? 0) = true) by (now apply Z.leb_le).
    now rewrite E.
  - cbv zeta. unfold cmd_withdraw. cbn [is_private negb].
    destruct a as [d|[|]|]; cbn [fst snd]; try (split; [reflexivity | exact U]).
    + assert (E : (coef d <=? 0) = true) by (now apply Z.leb_le).
      rewrite E. cbn [fst snd]. split; [reflexivity | exact U].
    + rewrite upsert_get_same. cbn [fst snd]. split; [reflexivity | exact U].
  - cbv zeta. unfold cmd_withdraw. cbn [is_private negb fst snd].
    split; [reflexivity | exact U].
Qed.

(* ===================================================================== *)
(** * Accounts, addresses and activity *)
(* ===================================================================== *)

Lemma with_users_same st : with_users st (users st) = st.
Proof. now destruct st. Qed.

(** X16: the [UPDATE] accessors never create a row: on an id that has no
    account each of them leaves the database exactly as it was, and
    [get_or_create_deposit_address] asks the node for an address, returns it
    and stores nothing. *)
Theorem updates_of_a_missing_account_do_nothing (st : state) (id : Z) :
  db_get_user st id = None ->
  (forall b, db_update_balance st id b = st) /\
  (forall a, db_set_deposit_address st id a = st) /\
  (forall t, db_set_credited_total st id t = st) /\
  (forall t, db_set_last_faucet st id t = st) /\
  (forall t, db_set_active st id t = st) /\
  (forall a, get_or_create_deposit_address st id (Some a) =
             (rpc_request st (GetNewAddress id), Some a)).
Proof.
  intros H. pose proof H as H'. apply find_id_none in H'.
  assert (A : forall f, with_users st (update_where id f (users st)) = st).
  { intros f. rewrite (update_where_absent id f (users st) H').
    apply with_users_same. }
  repeat split; intros; try apply A.
  unfold get_or_create_deposit_address. rewrite H.
  unfold db_set_deposit_address. cbn [users rpc_request].
  rewrite (update_where_absent id _ (users st) H'). reflexivity.
Qed.

(** X17: [/start] followed by [/deposit] shows the same address.  For an
    account without a deposit address (new, or with none stored), a
    [/start] that obtains the non-empty address [a] from the node stores it
    and answers with it after exactly one [getnewaddress] request; a later
    [/deposit] answers with the same [a], whatever the node would answer
    now, and sends no request. *)
Theorem start_then_deposit_show_one_address (st : state) (now now' uid : Z)
    (uname uname' : string) (a : string) (later : option string) :
  a <> EmptyString ->
  stored_address st uid = None \/ stored_address st uid = Some ""%string ->
  let out1 := cmd_start st now Private uid uname (Some a) in
  let out2 := cmd_deposit (fst out1) now' Private uid uname' later in
  snd out1 = StartText a /\
  rpc_calls (fst out1) = rpc_calls st ++ [GetNewAddress uid] /\
  stored_address (fst out1) uid = Some a /\
  snd out2 = DepositText a /\
  rpc_calls (fst out2) = rpc_calls (fst out1) /\
  stored_address (fst out2) uid = Some a.
Proof.
  intros Na H. cbv zeta.
  assert (Ne : String.eqb a "" = false) by (now apply String.eqb_neq).
  set (s0 := db_upsert_user st uid uname now).
  assert (G0 : exists u0, db_get_user s0 uid = Some u0 /\
                 (deposit_address u0 = None \/ deposit_address u0 = Some ""%string)).
  { unfold s0. rewrite upsert_get_same. eexists. split; [reflexivity|].
    unfold stored_address in H.
    destruct (db_get_user st uid) as [u|]; cbn; [exact H | now left]. }
  destruct G0 as (u0 & G0 & D0).
  assert (S1 : cmd_start st now Private uid uname (Some a) =
               (db_set_deposit_address (rpc_request s0 (GetNewAddress uid)) uid a,
                StartText a)).
  { unfold cmd_start. cbn [is_private negb]. fold s0.
    unfold get_or_create_deposit_address. rewrite G0.
    destruct D0 as [-> | ->]; reflexivity. }
  rewrite S1. cbn [fst snd].
  set (s1 := db_set_deposit_address (rpc_request s0 (GetNewAddress uid)) uid a).
  assert (G1 : db_get_user s1 uid = Some (set_address a u0)).
  { unfold s1. get_simpl. now rewrite G0. }
  assert (A1 : stored_address s1 uid = Some a)
    by (unfold stored_address; now rewrite G1).
  set (s2 := db_upsert_user s1 uid uname' now').
  assert (G2 : db_get_user s2 uid =
               Some (set_username_active uname' now' (set_address a u0))).
  { unfold s2. now rewrite upsert_get_same, G1. }
  assert (S2 : cmd_deposit s1 now' Private uid uname' later = (s2, DepositText a)).
  { unfold cmd_deposit. cbn [is_private negb]. fold s2.
    unfold get_or_create_deposit_address. rewrite G2. cbn [deposit_address
      set_username_active set_address]. now rewrite Ne. }
  rewrite S2. cbn [fst snd].
  split; [reflexivity|]. split.
  { unfold s1, s0. cbn [rpc_calls db_set_deposit_address with_users rpc_request].
    now rewrite upsert_rpc. }
  split; [exact A1|]. split; [reflexivity|]. split.
  { unfold s2. apply upsert_rpc. }
  unfold stored_address. now rewrite G2.
Qed.

(** X18: whoever writes in a group becomes a recipient.  [mark_active], run
    on a message of a user that is not a bot in a group or supergroup,
    creates the account if needed and sets its activity time to [now]; from
    then on this user is among the recipients of every other user's
    [/tip active] and lucky tip issued no later than [ACTIVE_WINDOW] seconds
    after [now].  No balance, watermark or transfer changes.  On a message
    of a bot, or without a sender, it changes nothing at all. *)
Theorem group_messages_make_recipients (cfg : config) (st : state) (now : Z)
    (chat : chat_type) (uid : Z) (uname : string) :
  is_group chat = true ->
  let st' := fst (mark_active st now chat (Some (uid, uname, false))) in
  (forall sender now', sender <> uid -> now' - ACTIVE_WINDOW cfg <= now ->
     In uid (other_active cfg st' now' sender)) /\
  ledger_untouched st st' /\
  mark_active st now chat (Some (uid, uname, true)) = (st, NoReply) /\
  mark_active st now chat None = (st, NoReply).
Proof.
  intros G. cbv zeta. unfold mark_active. rewrite G. cbn [negb fst].
  set (s1 := db_upsert_user st uid uname now).
  assert (G1 : exists u1, db_get_user s1 uid = Some u1)
    by (unfold s1; rewrite upsert_get_same; eauto).
  destruct G1 as [u1 G1].
  assert (G2 : db_get_user (db_set_active s1 uid now) uid = Some (set_active now u1)).
  { get_simpl. now rewrite G1. }
  split; [|split; [|split; reflexivity]].
  - intros sender now' N C. apply other_active_in. split; [congruence|].
    exists (set_active now u1). apply get_user_spec in G2.
    destruct G2 as [I E]. auto.
  - destruct (upsert_untouched st uid uname now) as [T K]. fold s1 in T, K.
    split; [exact T|]. intros k. destruct (K k) as [K1 K2].
    rewrite <- K1, <- K2. unfold stored_credited.
    rewrite stored_balance_set_active, get_set_active.
    split; [reflexivity|]. destruct (k =? uid); [|reflexivity].
    now destruct (db_get_user s1 k).
Qed.

(* ===================================================================== *)
(** * The faucet's waiting time *)
(* ===================================================================== *)

Lemma faucet_unfold cfg st now at_wait at_claim uid uname :
  cmd_faucet cfg st now at_wait at_claim uid uname =
  let st1 := db_upsert_user st uid uname now in
  if now - stored_last_faucet st uid <? FAUCET_INTERVAL cfg
  then (st1, FaucetAvailableIn
               ((FAUCET_INTERVAL cfg - (at_wait - stored_last_faucet st uid)) / 60))
  else
    let new_bal := add (stored_balance st uid) (FAUCET_AMOUNT cfg) in
    (db_add_transfer
       (db_set_last_faucet (db_update_balance st1 uid new_bal) uid at_claim)
       Faucet None (Some uid) (FAUCET_AMOUNT cfg) None now,
     match fmt_amt (FAUCET_AMOUNT cfg), fmt_amt new_bal with
     | Some _, Some _ => FaucetReceived new_bal
     | _, _ => Raised
     end).
Proof.
  unfold cmd_faucet. rewrite upsert_get_same.
  unfold stored_last_faucet, stored_balance.
  destruct (db_get_user st uid); reflexivity.
Qed.

(** X19: the faucet's waiting message rounds down.  [cmd_faucet] reads the
    clock once for its test ([now]) and once more for the message
    ([at_wait]).  When it answers "available in [m] minutes", the test found
    [now < last_faucet_ts + FAUCET_INTERVAL], and [m] is
    [wait = FAUCET_INTERVAL - (at_wait - last_faucet_ts)] seconds divided by
    60 rounded down, so [60 m <= wait < 60 m + 60]; when both readings fall
    in the same second [wait > 0] and [m >= 0], and the message says 0
    minutes during the last minute.  The refusal changes no balance,
    watermark, transfer or [last_faucet_ts].  A later claim is refused again
    as long as its first reading is before
    [last_faucet_ts + FAUCET_INTERVAL], and carried out otherwise: one
    faucet record is appended, [last_faucet_ts] becomes the claim's third
    reading, and the confirmation shows the new balance unless [fmt_amt]
    raises on [FAUCET_AMOUNT] or on that balance. *)
Theorem faucet_wait_is_rounded_down (cfg : config) (st : state)
    (now at_wait at_claim uid : Z) (uname : string) (m : Z) :
  snd (cmd_faucet cfg st now at_wait at_claim uid uname) = FaucetAvailableIn m ->
  let last := stored_last_faucet st uid in
  let wait := FAUCET_INTERVAL cfg - (at_wait - last) in
  let st1 := fst (cmd_faucet cfg st now at_wait at_claim uid uname) in
  now < last + FAUCET_INTERVAL cfg /\
  m = wait / 60 /\ 60 * m <= wait < 60 * m + 60 /\
  (at_wait = now -> 0 < wait /\ 0 <= m) /\
  ledger_untouched st st1 /\
  stored_last_faucet st1 uid = last /\
  forall t w c uname',
    let out := cmd_faucet cfg st1 t w c uid uname' in
    if t <? last + FAUCET_INTERVAL cfg
    then snd out = FaucetAvailableIn ((FAUCET_INTERVAL cfg - (w - last)) / 60) /\
         ledger_untouched st1 (fst out) /\
         stored_last_faucet (fst out) uid = last
    else
      transfers (fst out) =
        transfers st ++
        [mkTransfer Faucet None (Some uid) (FAUCET_AMOUNT cfg) None t] /\
      stored_last_faucet (fst out) uid = c /\
      snd out = match fmt_amt (FAUCET_AMOUNT cfg),
                      fmt_amt (stored_balance (fst out) uid) with
                | Some _, Some _ => FaucetReceived (stored_balance (fst out) uid)
                | _, _ => Raised
                end.
Proof.
  rewrite faucet_unfold. cbv zeta.
  destruct (now - stored_last_faucet st uid <? FAUCET_INTERVAL cfg) eqn:C;
    cbn [fst snd]; [|destruct (fmt_amt _); [destruct (fmt_amt _)|]; discriminate].
  intros [= <-]. apply Z.ltb_lt in C.
  set (last := stored_last_faucet st uid) in *.
  set (wait := FAUCET_INTERVAL cfg - (at_wait - last)).
  pose proof (Z.div_mod wait 60 ltac:(lia)) as D.
  pose proof (Z.mod_pos_bound wait 60 ltac:(lia)) as M.
  destruct (upsert_stored st uid uname now uid) as (Sb & _ & Sl & _).
  fold last in Sl.
  split; [lia|]. split; [reflexivity|]. split; [lia|].
  split.
  { intros E. assert (P : 0 < wait) by (unfold wait; lia).
    split; [exact P|]. apply Z.div_pos; lia. }
  split; [apply upsert_untouched|]. split; [exact Sl|].
  intros t w c uname'.
  pose proof (faucet_claim_effect cfg (db_upsert_user st uid uname now) t w c
                uid uname') as F.
  cbv zeta in F. rewrite Sl, Sb in F. destruct F as [_ F].
  replace (t <? last + FAUCET_INTERVAL cfg)
    with (t - last <? FAUCET_INTERVAL cfg)
    by (destruct (t - last <? _) eqn:A, (t <? last + _) eqn:B; try reflexivity;
        rewrite ?Z.ltb_lt, ?Z.ltb_ge in *; lia).
  destruct (t - last <? FAUCET_INTERVAL cfg) eqn:T.
  - destruct F as (R & _ & L & _). split; [exact R|]. split; [|exact L].
    rewrite faucet_unfold. cbv zeta. rewrite Sl. fold last. rewrite T.
    apply upsert_untouched.
  - destruct F as (R & B & L & T'). rewrite upsert_transfers in T'.
    rewrite B. auto.
Qed.

(* ===================================================================== *)
(** * When [fmt_amt] raises *)
(* ===================================================================== *)

(** X20: [fmt_amt] can raise.  It fails, through [quantize], exactly on a
    non-zero number of magnitude 10^10 or more whose text has a decimal
    point: a coefficient of [n] digits with exponent [e], [n + e > 10], and
    either [e < 0] or [e > 0] with [n > 1].  In particular it formats every
    amount of at most eight decimals below 10^10 coins. *)
Theorem fmt_amt_fails_exactly_on_large_fractions (x : decimal) :
  (fmt_amt x = None <->
   coef x <> 0 /\ 10 < ndigits (coef x) + dexp x /\
   (dexp x < 0 \/ (0 < dexp x /\ 1 < ndigits (coef x)))) /\
  (eight_dp x -> Z.abs (units x) < 10 ^ 18 -> fmt_amt x <> None).
Proof. split; [apply fmt_amt_none_iff | apply fmt_amt_in_range]. Qed.

(* ===================================================================== *)
(** * What [fmt_amt] shows *)
(* ===================================================================== *)

Lemma digits_low c : digits c = low_digits (Z.to_nat (ndigits c)) c.
Proof. reflexivity. Qed.

(** The text of a whole number. *)
Lemma str_of_integer c : 0 < c -> str_of false c 0 = digits c.
Proof.
  intros Hc. pose proof (ndigits_spec c) as (L1 & _ & _).
  unfold str_of. cbv zeta. cbn [Z.leb andb].
  assert (P : (0 <=? 0) && (-6 <? 0 + ndigits c) = true)
    by (apply andb_true_intro; split; [reflexivity | apply Z.ltb_lt; lia]).
  rewrite P.
  assert (D0 : (0 + ndigits c <=? 0) = false) by (apply Z.leb_gt; lia).
  assert (D1 : (ndigits c <=? 0 + ndigits c) = true) by (apply Z.leb_le; lia).
  rewrite D0, D1, Z.eqb_refl.
  replace (0 + ndigits c - ndigits c) with 0 by lia.
  cbn [Z.to_nat zeros append]. now rewrite !append_nil_r.
Qed.

(** The text of a number of units, eight decimals: the digits of the
    coins, a point, and the eight low digits. *)
Lemma str_of_units u :
  100 <= u ->
  str_of false u (-8) =
  append (digits (u / 10 ^ 8)) (String "." (low_digits 8 u)).
Proof.
  intros Hu. destruct (ndigits_spec u) as (L1 & L2 & L3).
  specialize (L3 ltac:(lia)). rewrite Z.abs_eq in L2, L3 by lia.
  assert (N3 : 3 <= ndigits u).
  { pose proof (ndigits_gt u 2 ltac:(lia)) as G. rewrite Z.abs_eq in G by lia.
    change (10 ^ 2) with 100 in G. lia. }
  unfold str_of. cbv zeta.
  assert (P : (-8 <=? 0) && (-6 <? -8 + ndigits u) = true)
    by (apply andb_true_intro; split; [reflexivity | apply Z.ltb_lt; lia]).
  rewrite P, Z.eqb_refl. cbn [append].
  destruct (-8 + ndigits u <=? 0) eqn:D0.
  - (* below one coin *)
    apply Z.leb_le in D0.
    assert (Small : u / 10 ^ 8 = 0).
    { apply Z.div_small. split; [lia|].
      assert (10 ^ ndigits u <= 10 ^ 8) by (apply Z.pow_le_mono_r; lia). lia. }
    rewrite Small. change (digits 0) with "0"%string.
    rewrite append_nil_r. cbn [append]. do 2 f_equal.
    replace (low_digits 8 u)
      with (low_digits (Z.to_nat (- (-8 + ndigits u)) + Z.to_nat (ndigits u)) u)
      by (f_equal; lia).
    rewrite low_digits_split, ndigits_nat.
    rewrite (Z.div_small u (10 ^ ndigits u)) by lia.
    now rewrite low_digits_zero.
  - apply Z.leb_gt in D0.
    assert (D1 : (ndigits u <=? -8 + ndigits u) = false) by (apply Z.leb_gt; lia).
    rewrite D1, append_nil_r.
    assert (Big : 10 ^ 8 <= u).
    { assert (10 ^ 8 <= 10 ^ (ndigits u - 1)) by (apply Z.pow_le_mono_r; lia).
      lia. }
    assert (Sp : digits u =
                 append (digits (u / 10 ^ 8)) (low_digits 8 u)).
    { rewrite (digits_low u).
      replace (Z.to_nat (ndigits u)) with (Z.to_nat (ndigits u - 8) + 8)%nat
        by lia.
      rewrite low_digits_split. change (Z.of_nat 8) with 8.
      rewrite (digits_low (u / 10 ^ 8)), ndigits_div_pow by lia. reflexivity. }
    assert (Len : String.length (digits (u / 10 ^ 8)) = Z.to_nat (-8 + ndigits u)).
    { rewrite digits_low, length_low_digits, ndigits_div_pow by lia.
      f_equal. lia. }
    rewrite Sp, <- Len, take_append, drop_append. reflexivity.
Qed.

Lemma quantize_down_units x :
  eight_dp x -> 0 < coef x -> units x < 10 ^ 18 ->
  quantize_down x (-8) = Some (mk (units x) (-8)).
Proof.
  intros E8 Hc B. unfold eight_dp, units in *.
  pose proof (pow10_pos (dexp x + 8) ltac:(lia)) as P.
  assert (U : 0 < coef x * 10 ^ (dexp x + 8)) by nia.
  assert (N : ndigits (coef x * 10 ^ (dexp x + 8)) <= 18).
  { apply ndigits_le; [lia|]. rewrite Z.abs_eq by lia. exact B. }
  rewrite ndigits_mul_pow in N by lia.
  unfold quantize_down, prec.
  assert (Z0 : (coef x =? 0) = false) by (apply Z.eqb_neq; lia).
  assert (C1 : (18 <? ndigits (coef x) + dexp x - -8) = false)
    by (apply Z.ltb_ge; lia).
  assert (Le : (-8 <=? dexp x) = true) by (apply Z.leb_le; lia).
  rewrite Z0, C1, Le.
  replace (dexp x - -8) with (dexp x + 8) by lia.
  assert (C2 : (18 <? ndigits (coef x * 10 ^ (dexp x + 8))) = false).
  { apply Z.ltb_ge. rewrite ndigits_mul_pow by lia. lia. }
  now rewrite C2.
Qed.

(** Stripping the zeros and the point from a text with eight decimals. *)
Lemma strip_eight_decimals i u :
  0 <= u -> all_digits i = true -> i <> EmptyString ->
  rstrip "." (rstrip "0" (append i (String "." (low_digits 8 u)))) =
  append i (if u mod 10 ^ 8 =? 0 then EmptyString
            else String "." (rstrip "0" (low_digits 8 u))).
Proof.
  intros Hu Di Ni.
  assert (NoDot : contains "." i = false) by (now apply digits_contain).
  pose proof (rstrip_low_digits 8 u Hu) as Z8. change (Z.of_nat 8) with 8 in Z8.
  change (String "." (low_digits 8 u))
    with (append (String "." EmptyString) (low_digits 8 u)).
  destruct (u mod 10 ^ 8 =? 0) eqn:E.
  - apply Z.eqb_eq in E. apply Z8 in E.
    rewrite <- append_assoc, (rstrip_append_drop "0" _ _ E).
    rewrite (rstrip_append_keep "0" i (String "." EmptyString)) by discriminate.
    change (rstrip "0" (String "." EmptyString)) with (String "."%char EmptyString).
    rewrite (rstrip_append_drop "." i (String "." EmptyString)) by reflexivity.
    now rewrite append_nil_r, rstrip_absent.
  - apply Z.eqb_neq in E.
    assert (R : rstrip "0" (low_digits 8 u) <> EmptyString)
      by (intros H; apply E; now apply Z8).
    assert (R1 : rstrip "0" (append (String "." EmptyString) (low_digits 8 u))
                 = String "." (rstrip "0" (low_digits 8 u)))
      by (now rewrite rstrip_append_keep).
    rewrite (rstrip_append_keep "0" i) by (rewrite R1; discriminate).
    rewrite R1.
    assert (R2 : contains "." (rstrip "0" (low_digits 8 u)) = false).
    { apply rstrip_contains. apply digits_contain; [reflexivity|].
      apply all_digits_low. }
    assert (R3 : rstrip "." (String "." (rstrip "0" (low_digits 8 u)))
                 = String "." (rstrip "0" (low_digits 8 u))).
    { change (String "." (rstrip "0" (low_digits 8 u)))
        with (append (String "." EmptyString) (rstrip "0" (low_digits 8 u))).
      rewrite rstrip_append_keep; rewrite rstrip_absent by exact R2;
        [reflexivity | exact R]. }
    rewrite (rstrip_append_keep "." i) by (rewrite R3; discriminate).
    now rewrite R3.
Qed.

Lemma digits_nonempty c : digits c <> EmptyString.
Proof.
  intros H. apply (f_equal String.length) in H.
  rewrite digits_low, length_low_digits in H. cbn in H.
  pose proof (ndigits_spec c). lia.
Qed.

(** X21: what [fmt_amt] shows in the everyday range.  For an amount [x] of
    at most eight decimal places written without a positive exponent, at
    least 0.000001 and below 10^10 coins, [fmt_amt x] is the number of whole
    coins in decimal digits, followed, when the amount is not a whole number
    of coins, by a point and the eight decimals without their trailing
    zeros.  Whole numbers get neither point nor zeros. *)
Theorem fmt_amt_plain (x : decimal) :
  -8 <= dexp x <= 0 -> 100 <= units x -> units x < 10 ^ 18 ->
  fmt_amt x =
  Some (append (digits (units x / 10 ^ 8))
          (if units x mod 10 ^ 8 =? 0 then EmptyString
           else String "." (rstrip "0" (low_digits 8 (units x))))).
Proof.
  intros [E8 E0] Lo Hi.
  assert (Pw : 0 < 10 ^ (dexp x + 8)) by (apply pow10_pos; lia).
  assert (Hc : 0 < coef x) by (unfold units in Lo; nia).
  assert (Nu : ndigits (units x) = ndigits (coef x) + dexp x + 8).
  { unfold units. rewrite ndigits_mul_pow by lia. lia. }
  assert (N3 : 3 <= ndigits (units x)).
  { pose proof (ndigits_gt (units x) 2 ltac:(lia)) as G.
    rewrite Z.abs_eq in G by lia. change (10 ^ 2) with 100 in G. lia. }
  assert (Neg : (coef x <? 0) = false) by (apply Z.ltb_ge; lia).
  unfold fmt_amt, to_str. rewrite str_of_dot, ndigits_abs, Neg.
  assert (P : (dexp x <=? 0) && (-6 <? dexp x + ndigits (coef x)) = true)
    by (apply andb_true_intro; split; [apply Z.leb_le | apply Z.ltb_lt]; lia).
  rewrite P. destruct (dexp x <? 0) eqn:D.
  - rewrite (quantize_down_units x E8 Hc Hi). cbn [coef dexp].
    rewrite (Z.abs_eq (units x)) by lia.
    rewrite (str_of_units (units x) Lo).
    rewrite strip_eight_decimals;
      [reflexivity | lia | apply all_digits_digits | apply digits_nonempty].
  - apply Z.ltb_ge in D. assert (Ez : dexp x = 0) by lia.
    assert (U : units x = coef x * 10 ^ 8) by (unfold units; now rewrite Ez).
    rewrite Z.abs_eq, Ez, (str_of_integer (coef x) Hc) by lia.
    rewrite U, Z.div_mul, Z.mod_mul by lia.
    change (0 =? 0) with true. cbv iota. now rewrite append_nil_r.
Qed.

(** ** Amounts below 0.000001 *)

Lemma small_amount_texts_checked : small_amount_texts_have_exponent = true.
Proof. vm_compute. reflexivity. Qed.

(** X22: small amounts and emptied balances are shown in exponent
    notation.  For an amount of at most eight decimal places, written with
    a negative exponent, that is worth less than 0.000001 (zero included, as
    the balance [x - x] left by withdrawing or tipping everything),
    [fmt_amt] succeeds and its text contains an [E]: such a balance reads
    [0E-8], not [0]. *)
Theorem fmt_amt_small_amounts_use_exponent (x : decimal) :
  -8 <= dexp x < 0 -> 0 <= coef x -> units x < 100 ->
  exists s, fmt_amt x = Some s /\ contains "E" s = true.
Proof.
  intros [E8 En] Hc Hu.
  assert (Pw : 1 <= 10 ^ (dexp x + 8)) by (apply pow10_ge1; lia).
  assert (Cb : coef x < 100) by (unfold units in Hu; nia).
  pose proof small_amount_texts_checked as K.
  unfold small_amount_texts_have_exponent in K.
  rewrite forallb_forall in K.
  specialize (K (Z.to_nat (- dexp x))
                ltac:(apply in_seq; lia)).
  rewrite forallb_forall in K.
  specialize (K (Z.to_nat (coef x)) ltac:(apply in_seq; lia)).
  cbv zeta in K. rewrite !Z2Nat.id in K by lia.
  replace (- - dexp x) with (dexp x) in K by lia.
  replace (mk (coef x) (dexp x)) with x in K by (now destruct x).
  apply orb_prop in K. destruct K as [K|K].
  - apply Z.leb_le in K. lia.
  - destruct (fmt_amt x) as [s|]; [eauto | discriminate].
Qed.

(* ===================================================================== *)
(** * The period the faucet announces *)
(* ===================================================================== *)

(** X23: the faucet period in [HELP_TEXT] and in the faucet's answer.  For
    [FAUCET_INTERVAL >= 0] the announced number and unit are the interval
    exactly when the interval is a whole number of hours, or is below one
    hour and a whole number of minutes.  An interval of an hour or more
    that is not a whole number of hours is announced as its number of
    minutes followed by the word "hours": at least sixty times too long
    minus an hour. *)
Theorem faucet_period_announced (cfg : config) :
  0 <= FAUCET_INTERVAL cfg ->
  (period_seconds (faucet_period cfg) = FAUCET_INTERVAL cfg <->
   FAUCET_INTERVAL cfg mod 3600 = 0 \/
   (FAUCET_INTERVAL cfg < 3600 /\ FAUCET_INTERVAL cfg mod 60 = 0)) /\
  (3600 <= FAUCET_INTERVAL cfg -> FAUCET_INTERVAL cfg mod 3600 <> 0 ->
   faucet_period cfg = (FAUCET_INTERVAL cfg / 60, Hours) /\
   60 * FAUCET_INTERVAL cfg - 3600 < period_seconds (faucet_period cfg)).
Proof.
  intros H0. set (i := FAUCET_INTERVAL cfg) in *.
  pose proof (Z.div_mod i 3600 ltac:(lia)) as D1.
  pose proof (Z.mod_pos_bound i 3600 ltac:(lia)) as B1.
  pose proof (Z.div_mod i 60 ltac:(lia)) as D2.
  pose proof (Z.mod_pos_bound i 60 ltac:(lia)) as B2.
  unfold faucet_period, period_seconds. fold i. cbn [fst snd].
  destruct (i mod 3600 =? 0) eqn:M; destruct (3600 <=? i) eqn:G;
    [apply Z.eqb_eq in M | apply Z.eqb_eq in M | apply Z.eqb_neq in M
     | apply Z.eqb_neq in M];
    [apply Z.leb_le in G | apply Z.leb_gt in G | apply Z.leb_le in G
     | apply Z.leb_gt in G].
  - split; [split; [auto | lia] | intros; contradiction].
  - assert (i = 0) by (assert (i / 3600 = 0) by (apply Z.div_small; lia); lia).
    split; [|intros; lia]. split; [auto|]. intros _.
    assert (i / 3600 = 0) by (apply Z.div_small; lia). lia.
  - split.
    + split; [intros E; exfalso; lia|]. intros [E|[E _]]; [contradiction | lia].
    + intros _ _. split; [reflexivity | lia].
  - split; [|intros; lia]. split.
    + intros E. right. split; [lia|]. lia.
    + intros [E|[_ E]]; [contradiction|]. lia.
Qed.

(* ===================================================================== *)
(** * [/faucetinfo] *)
(* ===================================================================== *)

(** X24: [/faucetinfo] shows the balance of another address than the one it
    shows.  In a group, when the node answers, the handler asks the node
    for a new address twice and then for the amount received by the second
    one: the text carries the first address and the amount received by the
    second.  What the first address has received has no influence on the
    answer when the two addresses differ. *)
Theorem faucetinfo_reads_a_second_address (cfg : config) (chat : chat_type)
    (a1 a2 : string) (recv recv' : string -> option decimal) :
  is_group chat = true ->
  fst (cmd_faucetinfo cfg chat (Some a1) (Some a2) recv) =
    [NewFaucetAddress; NewFaucetAddress; ReceivedByAddress a2 (MIN_CONF cfg)] /\
  snd (cmd_faucetinfo cfg chat (Some a1) (Some a2) recv) =
    match recv a2 with
    | None => FaucetInfoRpcError
    | Some bal =>
        match fmt_amt bal with
        | Some text => FaucetInfoText a1 text
        | None => FaucetInfoRaised
        end
    end /\
  (recv' a2 = recv a2 ->
   cmd_faucetinfo cfg chat (Some a1) (Some a2) recv' =
   cmd_faucetinfo cfg chat (Some a1) (Some a2) recv).
Proof.
  intros G. unfold cmd_faucetinfo, faucet_balance_confirmed, faucet_address,
    query_received_confirmed. rewrite G. cbn [negb].
  split; [|split].
  - destruct (recv a2) as [bal|]; [destruct (fmt_amt bal)|]; reflexivity.
  - destruct (recv a2) as [bal|]; [destruct (fmt_amt bal)|]; reflexivity.
  - intros ->. reflexivity.
Qed.

(* ===================================================================== *)
(** * [/active] *)
(* ===================================================================== *)

Lemma insert_desc_perm u l : Permutation (insert_desc u l) (u :: l).
Proof.
  induction l as [|v r IH]; cbn; [reflexivity|].
  destruct (last_active_ts v <=? last_active_ts u); [reflexivity|].
  rewrite IH. apply perm_swap.
Qed.

Lemma order_by_perm l : Permutation (order_by_active_desc l) l.
Proof.
  induction l as [|u l IH]; cbn; [reflexivity|].
  rewrite insert_desc_perm. now constructor.
Qed.

Lemma insert_desc_sorted u l :
  StronglySorted later_first l -> StronglySorted later_first (insert_desc u l).
Proof.
  induction 1 as [|v r S IH F]; cbn.
  - repeat constructor.
  - destruct (last_active_ts v <=? last_active_ts u) eqn:E.
    + apply Z.leb_le in E. constructor; [now constructor|].
      constructor; [exact E|].
      apply (Forall_impl _ (P := later_first v)); [|exact F].
      unfold later_first. intros w Hw. lia.
    + apply Z.leb_gt in E. constructor; [exact IH|].
      apply (Permutation_Forall (Permutation_sym (insert_desc_perm u r))).
      constructor; [unfold later_first; lia | exact F].
Qed.

Lemma order_by_sorted l : StronglySorted later_first (order_by_active_desc l).
Proof.
  induction l as [|u l IH]; cbn; [constructor | now apply insert_desc_sorted].
Qed.

Lemma sorted_filter {A} (R : A -> A -> Prop) f l :
  StronglySorted R l -> StronglySorted R (filter f l).
Proof.
  induction 1 as [|a l S IH F]; cbn; [constructor|].
  destruct (f a); [|exact IH]. constructor; [exact IH|].
  apply Forall_forall. intros x I. apply filter_In in I.
  rewrite Forall_forall in F. now apply F.
Qed.

Lemma sorted_app_inv {A} (R : A -> A -> Prop) l1 l2 :
  StronglySorted R (l1 ++ l2) ->
  StronglySorted R l1 /\ forall a b, In a l1 -> In b l2 -> R a b.
Proof.
  induction l1 as [|x l1 IH]; cbn; intros S.
  - split; [constructor | intros a b []].
  - inversion S as [|? ? S' F]; subst. destruct (IH S') as [S1 C].
    rewrite Forall_app in F. destruct F as [F1 F2]. split.
    + now constructor.
    + intros a b [<-|I] Ib; [|now apply C].
      rewrite Forall_forall in F2. now apply F2.
Qed.

(** X25: what [/active] lists.  The listing holds at most 50 rows, each of
    an account that has been active within [ACTIVE_WINDOW] and has a
    username, the most recently active first; an active account with a
    username is left out only when the listing is full, and then every
    listed account has been active at least as recently.  In a group the
    answer is "no active users" exactly when no account active within the
    window has a username. *)
Theorem active_listing_shows_the_latest (cfg : config) (st : state)
    (now : Z) :
  let shown := active_listing cfg st now in
  (List.length shown <= 50)%nat /\
  (forall u, In u shown ->
     In u (users st) /\ now - ACTIVE_WINDOW cfg <= last_active_ts u /\
     username u <> EmptyString) /\
  StronglySorted later_first shown /\
  (forall u, In u (users st) -> now - ACTIVE_WINDOW cfg <= last_active_ts u ->
     username u <> EmptyString -> ~ In u shown ->
     List.length shown = 50%nat /\
     forall v, In v shown -> last_active_ts u <= last_active_ts v) /\
  (forall chat, is_group chat = true ->
     (cmd_active cfg st now chat = NoActiveUsersRecently <->
      forall u, In u (users st) -> now - ACTIVE_WINDOW cfg <= last_active_ts u ->
                username u = EmptyString)).
Proof.
  cbv zeta. unfold active_listing.
  set (act := filter (fun u => now - ACTIVE_WINDOW cfg <=? last_active_ts u)
                     (users st)).
  set (named := filter (fun u => negb (String.eqb (username u) ""))
                       (order_by_active_desc act)).
  assert (Mem : forall u, In u named <->
                  In u (users st) /\ now - ACTIVE_WINDOW cfg <= last_active_ts u /\
                  username u <> EmptyString).
  { intros u. unfold named. rewrite filter_In.
    assert (P : In u (order_by_active_desc act) <-> In u act).
    { split; apply Permutation_in;
        [apply order_by_perm | apply Permutation_sym, order_by_perm]. }
    rewrite P. unfold act. rewrite filter_In, Z.leb_le, negb_true_iff.
    rewrite String.eqb_neq. tauto. }
  assert (Srt : StronglySorted later_first named)
    by (apply sorted_filter, order_by_sorted).
  assert (FI : forall u, In u (firstn 50 named) -> In u named).
  { intros u I. rewrite <- (firstn_skipn 50 named). apply in_or_app. now left. }
  assert (C : StronglySorted later_first (firstn 50 named) /\
              forall a b, In a (firstn 50 named) -> In b (skipn 50 named) ->
                          later_first a b).
  { apply sorted_app_inv. now rewrite firstn_skipn. }
  destruct C as [S1 C].
  split; [apply firstn_le_length|].
  split; [intros u I; apply Mem; now apply FI|].
  split; [exact S1|]. split.
  - intros u I A N Out.
    assert (In' : In u named) by (apply Mem; auto).
    assert (Is : In u (skipn 50 named)).
    { rewrite <- (firstn_skipn 50 named) in In'. apply in_app_or in In'. tauto. }
    split.
    + apply firstn_length_le.
      destruct (Nat.le_gt_cases 50 (List.length named)) as [|G]; [assumption|].
      rewrite skipn_all2 in Is by lia. contradiction.
    + intros v Iv. apply (C v u Iv Is).
  - intros chat G. unfold cmd_active, active_listing. rewrite G. cbn [negb].
    fold act. fold named.
    destruct (firstn 50 named) as [|v r] eqn:Hf.
    + split; [|reflexivity]. intros _ u I A.
      destruct (String.eqb (username u) "") eqn:Q; [now apply String.eqb_eq|].
      exfalso. apply String.eqb_neq in Q.
      assert (In' : In u named) by (apply Mem; auto).
      apply (f_equal (@List.length user)) in Hf.
      rewrite length_firstn in Hf. cbn [List.length] in Hf.
      destruct named; [contradiction | cbn [List.length] in Hf; lia].
    + split; [discriminate|]. intros E. exfalso.
      assert (Iv : In v named) by (apply FI; now left).
      apply Mem in Iv. destruct Iv as (I & A & N). apply N. now apply E.
Qed.

(* ===================================================================== *)
(** * Amounts written as text and read back *)
(* ===================================================================== *)

Lemma plain_append s t : plain (append s t) = plain s && plain t.
Proof.
  induction s as [|a r IH]; cbn [append plain]; [reflexivity|].
  rewrite IH. now rewrite andb_assoc.
Qed.

Lemma lstrip_plain s : plain s = true -> lstrip_blanks s = s.
Proof.
  destruct s as [|a r]; cbn [plain lstrip_blanks]; [reflexivity|].
  intros H. destruct (is_blank a); [discriminate|reflexivity].
Qed.

Lemma rstrip_plain s : plain s = true -> rstrip_blanks s = s.
Proof.
  induction s as [|a r IH]; cbn [plain rstrip_blanks]; [reflexivity|].
  intros H. apply andb_prop in H. destruct H as [H1 H2].
  rewrite (IH H2). destruct r; [|reflexivity].
  destruct (is_blank a); [discriminate|reflexivity].
Qed.

Lemma strip_plain s : plain s = true -> strip s = s.
Proof. intros H. unfold strip. rewrite (rstrip_plain s H). now apply lstrip_plain. Qed.

Lemma remove_underscores_plain s : plain s = true -> remove_underscores s = s.
Proof.
  induction s as [|a r IH]; cbn [plain remove_underscores]; [reflexivity|].
  intros H. apply andb_prop in H. destruct H as [H1 H2].
  rewrite (IH H2). destruct (Ascii.eqb a "_"); [|reflexivity].
  rewrite andb_false_r in H1. discriminate.
Qed.

(** What a digit is not. *)
Lemma digit_is_plain a :
  is_digit a = true -> negb (is_blank a) && negb (Ascii.eqb a "_") = true.
Proof.
  intros H.
  destruct a as [[] [] [] [] [] [] [] []]; try reflexivity;
    vm_compute in H; discriminate.
Qed.

Lemma split_sign_digit a r :
  is_digit a = true -> split_sign (String a r) = (false, String a r).
Proof.
  intros H.
  destruct a as [[] [] [] [] [] [] [] []]; try reflexivity;
    vm_compute in H; discriminate.
Qed.

Lemma plain_digits s : all_digits s = true -> plain s = true.
Proof.
  induction s as [|a r IH]; cbn [all_digits plain]; [reflexivity|].
  intros H. apply andb_prop in H. destruct H as [H1 H2].
  now rewrite (digit_is_plain a H1), (IH H2).
Qed.

Lemma plain_signed n : plain (signed n) = true.
Proof.
  unfold signed. destruct (n <? 0); cbn [plain];
    rewrite plain_digits by apply all_digits_digits; reflexivity.
Qed.

Lemma span_digits_append ds : forall rest,
  all_digits ds = true ->
  match rest with EmptyString => true | String a _ => negb (is_digit a) end = true ->
  span_digits (append ds rest) = (ds, rest).
Proof.
  induction ds as [|a r IH]; intros rest D R.
  - cbn [append]. destruct rest as [|b t]; [reflexivity|].
    cbn [span_digits]. apply negb_true_iff in R. now rewrite R.
  - cbn [all_digits] in D. apply andb_prop in D. destruct D as [D1 D2].
    cbn [append span_digits]. rewrite D1, (IH rest D2 R). reflexivity.
Qed.

Lemma int_of_append s : forall acc t,
  int_of acc (append s t) = int_of (int_of acc s) t.
Proof. induction s as [|a r IH]; intros acc t; cbn [append int_of]; auto. Qed.

Lemma digit_value_char n : 0 <= n < 10 -> digit_value (digit_char n) = n.
Proof.
  intros H. unfold digit_value, digit_char.
  rewrite nat_ascii_embedding by lia. lia.
Qed.

Lemma int_of_low k : forall c acc,
  0 <= c ->
  int_of acc (low_digits k c) = acc * 10 ^ Z.of_nat k + c mod 10 ^ Z.of_nat k.
Proof.
  induction k as [|k IH]; intros c acc Hc.
  - cbn [low_digits int_of]. change (10 ^ Z.of_nat 0) with 1.
    rewrite Z.mod_1_r. lia.
  - cbn [low_digits]. rewrite int_of_append, IH by (apply Z.div_pos; lia).
    cbn [int_of]. rewrite digit_value_char by (apply Z.mod_pos_bound; lia).
    rewrite Nat2Z.inj_succ, Z.pow_succ_r by lia.
    rewrite (Z.rem_mul_r c 10 (10 ^ Z.of_nat k)) by lia. ring.
Qed.

Lemma int_of_digits c : 0 <= c -> int_of 0 (digits c) = c.
Proof.
  intros Hc. unfold digits. rewrite int_of_low by exact Hc.
  rewrite ndigits_nat. destruct (ndigits_spec c) as (_ & B & _).
  rewrite Z.abs_eq in B by exact Hc. rewrite Z.mod_small by lia. lia.
Qed.

Lemma int_of_zeros k : forall acc, int_of acc (zeros k) = acc * 10 ^ Z.of_nat k.
Proof.
  induction k as [|k IH]; intros acc.
  - cbn [zeros int_of]. change (10 ^ Z.of_nat 0) with 1. lia.
  - cbn [zeros int_of]. rewrite IH. change (digit_value "0") with 0.
    rewrite Nat2Z.inj_succ, Z.pow_succ_r by lia. ring.
Qed.

Lemma take_drop n : forall s, append (take n s) (drop n s) = s.
Proof.
  induction n as [|n IH]; intros [|a r]; cbn [take drop append]; try reflexivity.
  now rewrite IH.
Qed.

Lemma length_drop n : forall s,
  String.length (drop n s) = (String.length s - n)%nat.
Proof.
  induction n as [|n IH]; intros [|a r]; cbn [drop String.length]; try lia.
  apply IH.
Qed.

Lemma length_digits c : Z.of_nat (String.length (digits c)) = ndigits c.
Proof. unfold digits. rewrite length_low_digits. apply ndigits_nat. Qed.

Lemma exponent_of_signed x :
  exponent_of (if x =? 0 then EmptyString else String "E" (signed x)) = Some x.
Proof.
  destruct (Z.eqb_spec x 0) as [->|N]; [reflexivity|].
  cbn [exponent_of]. change (Ascii.eqb (lower_ascii "E") "e") with true.
  cbv iota. unfold signed. destruct (Z.ltb_spec x 0) as [L|L].
  - change (split_sign (String "-" (digits (- x)))) with (true, digits (- x)).
    cbv iota. rewrite all_digits_digits.
    destruct (String.eqb_spec (digits (- x)) "") as [E|_];
      [now apply digits_nonempty in E|].
    cbn [andb negb]. rewrite int_of_digits by lia. f_equal. lia.
  - change (split_sign (String "+" (digits x))) with (false, digits x).
    cbv iota. rewrite all_digits_digits.
    destruct (String.eqb_spec (digits x) "") as [E|_];
      [now apply digits_nonempty in E|].
    cbn [andb negb]. now rewrite int_of_digits by lia.
Qed.

Lemma plain_exponent x :
  plain (if x =? 0 then EmptyString else String "E" (signed x)) = true.
Proof. destruct (x =? 0); [reflexivity|]. cbn [plain]. now rewrite plain_signed. Qed.

(** Reading a numeral: sign, integer digits, an optional point with its
    digits, an optional exponent. *)
Lemma of_str_numeral (negative point : bool) (ip f : string) (x : Z) :
  all_digits ip = true -> ip <> EmptyString ->
  all_digits f = true -> (point = false -> f = EmptyString) ->
  of_str (append (if negative then "-" else "")
            (append ip
               (append (if point then String "." f else "")
                       (if x =? 0 then "" else String "E" (signed x))))) =
  Some (Finite (mk (if negative then - int_of 0 (append ip f)
                    else int_of 0 (append ip f))
                   (x - Z.of_nat (String.length f)))).
Proof.
  intros Di Ni Df Pf.
  set (ex := if x =? 0 then EmptyString else String "E" (signed x)).
  set (fr := if point then String "." f else EmptyString).
  set (body := append ip (append fr ex)).
  assert (Pex : plain ex = true) by apply plain_exponent.
  assert (Pfr : plain fr = true).
  { unfold fr. destruct point; [|reflexivity]. cbn [plain].
    now rewrite plain_digits. }
  assert (Pb : plain body = true).
  { unfold body. rewrite !plain_append, Pfr, Pex, plain_digits by exact Di.
    reflexivity. }
  assert (Pw : plain (append (if negative then "-" else "") body) = true).
  { rewrite plain_append, Pb. now destruct negative. }
  assert (Sg : split_sign (append (if negative then "-" else "") body)
               = (negative, body)).
  { destruct negative; [reflexivity|]. cbn [append]. unfold body.
    destruct ip as [|a r]; [contradiction|]. cbn [append].
    cbn [all_digits] in Di. apply andb_prop in Di.
    now apply split_sign_digit. }
  assert (Nd : match append fr ex with
               | EmptyString => true
               | String a _ => negb (is_digit a)
               end = true).
  { unfold fr, ex. destruct point; [reflexivity|]. cbn [append].
    destruct (x =? 0); reflexivity. }
  assert (Sp : span_digits body = (ip, append fr ex))
    by (apply span_digits_append; assumption).
  assert (Li : String.length ip <> 0%nat)
    by (destruct ip; [contradiction | cbn; lia]).
  unfold of_str. rewrite (strip_plain _ Pw), (remove_underscores_plain _ Pw), Sg.
  cbv iota beta. rewrite Sp. cbv iota beta.
  assert (Fr : match append fr ex with
               | String "." r => span_digits r
               | _ => (EmptyString, append fr ex)
               end = (f, ex)).
  { unfold fr. destruct point.
    - cbn [append]. cbv iota. apply span_digits_append; [exact Df|].
      unfold ex. destruct (x =? 0); reflexivity.
    - rewrite (Pf eq_refl). cbn [append]. unfold ex.
      destruct (x =? 0); reflexivity. }
  rewrite Fr. cbv iota beta.
  destruct (Nat.eqb_spec (String.length ip + String.length f) 0) as [Z0|_];
    [lia|].
  unfold ex. rewrite exponent_of_signed. reflexivity.
Qed.

(** X26: amounts survive the TEXT columns.  [db_update_balance],
    [db_set_credited_total] and [db_add_transfer] store [str(amount)];
    [db_get_user] reads [Decimal(text)].  For every finite amount the text
    reads back as the same number with the same exponent, and the column
    default ['0'] reads as zero. *)
Theorem stored_amounts_read_back (d : decimal) :
  of_str (to_str d) = Some (Finite d) /\
  of_str "0" = Some (Finite zero).
Proof.
  split; [|reflexivity].
  destruct d as [cf e]. unfold to_str. cbn [coef dexp].
  set (c := Z.abs cf). assert (Hc : 0 <= c) by apply Z.abs_nonneg.
  assert (Sgn : (if cf <? 0 then - c else c) = cf)
    by (unfold c; destruct (Z.ltb_spec cf 0); lia).
  unfold str_of.
  pose proof (length_digits c) as Ld.
  destruct (ndigits_spec c) as (L1 & _ & _).
  set (len := ndigits c) in *.
  set (dp := if (e <=? 0) && (-6 <? e + len) then e + len else 1).
  cbv zeta.
  assert (Dp : dp = e + len \/ dp = 1)
    by (unfold dp; destruct ((e <=? 0) && (-6 <? e + len)); auto).
  assert (Dp1 : dp <> e + len -> 0 < e \/ e + len <= -6).
  { unfold dp. destruct (Z.leb_spec e 0), (Z.ltb_spec (-6) (e + len));
      cbn [andb]; lia. }
  assert (Dp2 : dp = e + len -> dp <> 1 -> e <= 0).
  { unfold dp. destruct (Z.leb_spec e 0), (Z.ltb_spec (-6) (e + len));
      cbn [andb]; lia. }
  assert (Ex : (if e + len =? dp then EmptyString
                else String "E" (signed (e + len - dp)))
               = (if e + len - dp =? 0 then EmptyString
                  else String "E" (signed (e + len - dp)))).
  { destruct (Z.eqb_spec (e + len) dp), (Z.eqb_spec (e + len - dp) 0);
      try reflexivity; lia. }
  rewrite Ex.
  destruct (Z.leb_spec dp 0) as [A|A].
  - (* 0.000ddd *)
    pose proof (of_str_numeral (cf <? 0) true "0"
                  (append (zeros (Z.to_nat (- dp))) (digits c)) (e + len - dp))
      as P.
    cbn [append] in P. cbn [append]. rewrite P; clear P.
    + assert (I : int_of 0 (String "0" (append (zeros (Z.to_nat (- dp)))
                                                 (digits c))) = c).
      { cbn [int_of]. change (10 * 0 + digit_value "0") with 0.
        rewrite int_of_append, int_of_zeros, Z.mul_0_l.
        now apply int_of_digits. }
      rewrite I, Sgn. f_equal. f_equal. f_equal. cbn [String.length].
      rewrite length_append, length_zeros, Nat2Z.inj_add, Ld. lia.
    + reflexivity.
    + discriminate.
    + rewrite all_digits_append, all_digits_zeros, all_digits_digits. reflexivity.
    + discriminate.
  - destruct (Z.leb_spec len dp) as [B|B].
    + (* ddd or dE+n *)
      assert (K : dp - len = 0) by lia.
      rewrite K. change (zeros (Z.to_nat 0)) with EmptyString.
      rewrite append_nil_r.
      pose proof (of_str_numeral (cf <? 0) false (digits c) "" (e + len - dp))
        as P.
      rewrite P; clear P.
      * rewrite append_nil_r, int_of_digits by exact Hc. rewrite Sgn.
        f_equal. f_equal. f_equal. cbn [String.length]. lia.
      * apply all_digits_digits.
      * apply digits_nonempty.
      * reflexivity.
      * reflexivity.
    + (* dd.ddd with or without exponent *)
      pose proof (of_str_numeral (cf <? 0) true
                    (take (Z.to_nat dp) (digits c))
                    (drop (Z.to_nat dp) (digits c)) (e + len - dp)) as P.
      rewrite P; clear P.
      * rewrite take_drop, int_of_digits by exact Hc. rewrite Sgn.
        f_equal. f_equal. f_equal. rewrite length_drop. lia.
      * apply all_digits_take, all_digits_digits.
      * intros E. apply (f_equal String.length) in E.
        pose proof (take_drop (Z.to_nat dp) (digits c)) as TD.
        apply (f_equal String.length) in TD.
        rewrite length_append, length_drop, E in TD. cbn [String.length] in TD.
        lia.
      * apply all_digits_drop, all_digits_digits.
      * discriminate.
Qed.

(* ===================================================================== *)
(** * A row credited from an old snapshot *)
(* ===================================================================== *)

(** X27: the scanner credits from its snapshot.  The loop body, run on a row
    fetched when the pass started and on whatever the database has become
    since (the pass awaits a notification after each credit, so handlers
    may have run), sets the balance of the account to [snapshot balance +
    (reading - snapshot credited_total)] when the reading exceeds the
    snapshot's [credited_total]: what a handler has done to this balance
    since the snapshot is overwritten.  On well-formed tables that balanced
    before the step, with amounts of at most eight decimals below 10^10
    coins, the sum of the balances afterwards exceeds the recorded deposits
    plus faucet claims minus withdrawals by exactly [snapshot balance -
    balance found]: the ledger still balances only if the balance had not
    changed. *)
Theorem scanner_credits_from_its_snapshot (cfg : config)
    (recv : Z -> string -> option decimal) (now : Z) (st : state)
    (r : scan_row) (cur : user) (t : decimal) :
  db_get_user st (row_id r) = Some cur ->
  recv (row_id r) (row_addr r) = Some t ->
  ltb (row_credited r) t = true ->
  let st' := scan_step cfg recv now st r in
  stored_balance st' (row_id r) = add (row_balance r) (sub t (row_credited r)) /\
  stored_credited st' (row_id r) = t /\
  (forall k, k <> row_id r -> stored_balance st' k = stored_balance st k) /\
  transfers st' =
    transfers st ++
    [mkTransfer Deposit None (Some (row_id r)) (sub t (row_credited r)) None now] /\
  (ledger_wf st -> conservation st ->
   amount_ok (row_balance r) -> eight_dp (row_credited r) -> eight_dp t ->
   units (row_balance r) + units t - units (row_credited r) < 10 ^ 18 ->
   sum_balances st' - (issued st' - sum_kind Withdraw st')
   = units (row_balance r) - units (balance cur)).
Proof.
  intros G R L. cbv zeta. unfold scan_step. rewrite R. unfold apply_credit.
  rewrite L. cbv zeta.
  set (diff := sub t (row_credited r)).
  set (nb := add (row_balance r) diff).
  set (st1 := rpc_request st (GetReceivedByAddress (row_addr r) (MIN_CONF cfg))).
  assert (G1 : db_get_user st1 (row_id r) = Some cur) by exact G.
  split; [|split; [|split; [|split]]].
  - unfold stored_balance. rewrite get_add_transfer, get_set_credited,
      get_update_balance, Z.eqb_refl, G1. reflexivity.
  - unfold stored_credited. rewrite get_add_transfer, get_set_credited,
      get_update_balance, Z.eqb_refl, G1. reflexivity.
  - intros k K. unfold stored_balance.
    rewrite get_add_transfer, get_set_credited, get_update_balance.
    apply Z.eqb_neq in K. rewrite K. reflexivity.
  - reflexivity.
  - intros W C [Eb Cb] Ec Et B.
    assert (L' : ltb t (row_credited r) = false).
    { rewrite (ltb_units _ _ Ec Et) in L. rewrite (ltb_units _ _ Et Ec).
      apply Z.ltb_lt in L. apply Z.ltb_ge. lia. }
    destruct (sub_units t (row_credited r) Et Ec L') as (Ed & Cd & Xd & _).
    fold diff in Ed, Cd, Xd.
    pose proof (units_nonneg _ Cb) as Ub.
    pose proof (units_nonneg _ Cd) as Ud.
    assert (Ut : units t - units (row_credited r) < 10 ^ 18) by lia.
    specialize (Xd Ut).
    destruct (add_units (row_balance r) diff Eb Ed Cb Cd) as (_ & _ & Xn & _).
    fold nb in Xn.
    rewrite issued_add_transfer, sum_kind_add_transfer. cbn [kind_eqb].
    change (issued (db_set_credited_total (db_update_balance st1 (row_id r) nb)
                      (row_id r) t)) with (issued st).
    change (sum_kind Withdraw
              (db_set_credited_total (db_update_balance st1 (row_id r) nb)
                 (row_id r) t)) with (sum_kind Withdraw st).
    assert (S : sum_balances
                  (db_add_transfer
                     (db_set_credited_total (db_update_balance st1 (row_id r) nb)
                        (row_id r) t) Deposit None (Some (row_id r)) diff None now)
                = sum_balances st - units (balance cur) + units nb).
    { change (sum_balances (db_add_transfer ?s _ _ _ _ _ _)) with (sum_balances s).
      unfold db_set_credited_total. rewrite sum_balances_frame by reflexivity.
      apply (sum_balances_update_balance st1 (row_id r) nb cur);
        [exact (wf_key st W) | exact G1]. }
    rewrite S. unfold conservation in C. unfold issued. rewrite Xn by lia.
    lia.
Qed.

(* ===================================================================== *)
(** * Refusals *)
(* ===================================================================== *)









(* ===================================================================== *)
(** * Credits in range *)
(* ===================================================================== *)

(** X29: a faucet claim in range.  For an account whose balance has at most
    eight decimals and is not negative, with a [FAUCET_AMOUNT] of at most
    eight decimals that is not negative and the balance plus
    [FAUCET_AMOUNT] below 10^10 coins, a claim whose first clock reading is
    [FAUCET_INTERVAL] or more after [last_faucet_ts] (equality included)
    increases the balance by exactly [FAUCET_AMOUNT], sets [last_faucet_ts]
    to the third reading of the clock, leaves the rows of the other
    accounts alone, appends exactly one faucet record and is confirmed with
    the new balance. *)
Theorem faucet_claim_in_range (cfg : config) (st : state)
    (now at_wait at_claim uid : Z) (uname : string) :
  amount_ok (stored_balance st uid) -> amount_ok (FAUCET_AMOUNT cfg) ->
  units (stored_balance st uid) + units (FAUCET_AMOUNT cfg) < 10 ^ 18 ->
  FAUCET_INTERVAL cfg <= now - stored_last_faucet st uid ->
  let out := cmd_faucet cfg st now at_wait at_claim uid uname in
  units (stored_balance (fst out) uid) =
    units (stored_balance st uid) + units (FAUCET_AMOUNT cfg) /\
  snd out = FaucetReceived (stored_balance (fst out) uid) /\
  stored_last_faucet (fst out) uid = at_claim /\
  (forall k, k <> uid -> db_get_user (fst out) k = db_get_user st k) /\
  transfers (fst out) =
    transfers st ++
    [mkTransfer Faucet None (Some uid) (FAUCET_AMOUNT cfg) None now].
Proof.
  intros [Eb Cb] [Ef Cf] B T. cbv zeta.
  destruct (faucet_claim_effect cfg st now at_wait at_claim uid uname) as [O F].
  cbv zeta in F.
  assert (E : (now - stored_last_faucet st uid <? FAUCET_INTERVAL cfg) = false)
    by (apply Z.ltb_ge; lia).
  rewrite E in F. destruct F as (R & Bal & L & Tr).
  destruct (add_units _ _ Eb Ef Cb Cf) as (En & Cn & Xn & _).
  specialize (Xn B).
  pose proof (units_nonneg _ Cb) as Ub. pose proof (units_nonneg _ Cf) as Uf.
  assert (F1 : fmt_amt (FAUCET_AMOUNT cfg) <> None)
    by (apply fmt_amt_in_range; [exact Ef | lia]).
  assert (F2 : fmt_amt (add (stored_balance st uid) (FAUCET_AMOUNT cfg)) <> None)
    by (apply fmt_amt_in_range; [exact En | lia]).
  rewrite Bal. split; [exact Xn|]. split; [|auto].
  rewrite R. destruct (fmt_amt (FAUCET_AMOUNT cfg)); [|contradiction].
  destruct (fmt_amt (add _ _)); [reflexivity | contradiction].
Qed.

(** X30: the credit of a deposit in range.  The credit on the row of an
    existing account, as the table holds it, where the balance, the
    [credited_total] and the node's reading have at most eight decimals, the
    balance is not negative and the balance plus the reading minus the
    [credited_total] is below 10^10 coins: when the reading exceeds the
    [credited_total] the balance increases by exactly their difference,
    [credited_total] becomes the reading, the rows of the other accounts
    are left alone and exactly one deposit record is appended, whose amount
    is that difference; otherwise nothing changes. *)
Theorem credit_in_range (st : state) (now id : Z) (u : user) (addr : string)
    (total : decimal) :
  db_get_user st id = Some u ->
  amount_ok (balance u) -> eight_dp (credited_total u) -> eight_dp total ->
  units (balance u) + units total - units (credited_total u) < 10 ^ 18 ->
  let st' := apply_credit st now (row_of u addr) total in
  if units (credited_total u) <? units total
  then
    units (stored_balance st' id) =
      units (balance u) + (units total - units (credited_total u)) /\
    stored_credited st' id = total /\
    (forall k, k <> id -> db_get_user st' k = db_get_user st k) /\
    exists diff,
      units diff = units total - units (credited_total u) /\
      transfers st' =
        transfers st ++ [mkTransfer Deposit None (Some id) diff None now]
  else st' = st.
Proof.
  intros H [Eb Cb] Ec Et B.
  pose proof (credit_of_a_current_row st now now id u addr total H) as K.
  cbv zeta in K |- *. rewrite (ltb_units _ _ Ec Et) in K.
  destruct (units (credited_total u) <? units total) eqn:L; [|exact K].
  apply Z.ltb_lt in L. destruct K as (G & O & T & _).
  assert (L' : ltb total (credited_total u) = false)
    by (rewrite (ltb_units _ _ Et Ec); apply Z.ltb_ge; lia).
  destruct (sub_units total (credited_total u) Et Ec L') as (Ed & Cd & Xd & _).
  pose proof (units_nonneg _ Cb) as Ub.
  specialize (Xd ltac:(lia)).
  destruct (add_units (balance u) (sub total (credited_total u)) Eb Ed Cb Cd)
    as (_ & _ & Xn & _).
  specialize (Xn ltac:(lia)).
  unfold stored_balance, stored_credited. rewrite G.
  cbn [balance credited_total].
  split; [lia|]. split; [reflexivity|]. split; [exact O|].
  exists (sub total (credited_total u)). split; [exact Xd | exact T].
Qed.

(** A withdrawal that ends without its confirmation: Frank withdraws 2 of
    his 20000000000.5.  The node sends, the balance is debited and the
    withdrawal recorded, and [fmt_amt] then raises on the new balance
    19999999998.5, which does not fit eighteen digits at eight decimals. *)
Example withdrawal_without_confirmation :
  let out := cmd_withdraw default_config frank_funded 120 Private 6 "frank"
               (Some (Some (Finite (mk 2 0)), "dest"%string))
               (Some "tx2"%string) in
  stored_balance frank_funded 6 = mk 200000000005 (-1) /\
  snd out = Raised /\
  stored_balance (fst out) 6 = mk 199999999985 (-1) /\
  fmt_amt (stored_balance (fst out) 6) = None /\
  transfers (fst out) =
    transfers frank_funded ++
    [mkTransfer Withdraw (Some 6) None (mk 2 0) (Some "tx2"%string) 120].
Proof. vm_compute. repeat split; reflexivity. Qed.

(* ===================================================================== *)
(** * The further properties on the scenarios *)
(* ===================================================================== *)

Lemma funded_state_wf : ledger_wf funded_state.
Proof.
  constructor; cbn [funded_state users transfers map].
  - repeat constructor; cbn; intuition lia.
  - repeat (apply Forall_cons || apply Forall_nil);
      unfold amount_ok, eight_dp; cbn; lia.
  - repeat (apply Forall_cons || apply Forall_nil);
      unfold amount_ok, eight_dp; cbn; lia.
Qed.

Lemma two_depositors_key : NoDup (map tg_id (users two_depositors)).
Proof. cbn. repeat constructor; cbn; intuition lia. Qed.

(** Alice's account over the deposit-then-withdraw run on the funded
    tables. *)
Lemma accounts_are_never_deleted_witness :
  exists u',
    db_get_user (run_from default_config funded_state deposit_then_withdraw) 1
    = Some u' /\ tg_id u' = 1 /\ created_ts u' = created_ts alice.
Proof.
  apply (accounts_are_never_deleted default_config funded_state
           deposit_then_withdraw 1 alice).
  reflexivity.
Defined.

(** Alice's address over the same run, in which [/start] is offered another
    address. *)
Lemma deposit_address_is_permanent_witness :
  stored_address (run_from default_config funded_state deposit_then_withdraw) 1
  = Some "addrA"%string.
Proof.
  apply (deposit_address_is_permanent default_config funded_state
           deposit_then_withdraw 1 "addrA").
  - reflexivity.
  - discriminate.
Defined.

(** A pass over Dave and Erin with readings 5 and 15. *)
Lemma scanner_pass_effect_witness :
  users (scanner_pass default_config two_depositors 200 wallet_reports_5_and_15)
  = map (credited_user wallet_reports_5_and_15) (users two_depositors).
Proof.
  exact (proj1 (scanner_pass_effect default_config two_depositors 200
                  wallet_reports_5_and_15 two_depositors_key)).
Defined.

(** A second pass over Dave and Erin with the same readings. *)
Lemma scanner_pass_replay_witness :
  transfers (scanner_pass default_config
               (scanner_pass default_config two_depositors 200
                  wallet_reports_5_and_15) 300 wallet_reports_5_and_15)
  = transfers (scanner_pass default_config two_depositors 200
                 wallet_reports_5_and_15).
Proof.
  exact (proj2 (scanner_pass_replay default_config two_depositors 200 300
                  wallet_reports_5_and_15 two_depositors_key)).
Defined.

(** Erin's watermark over a pass followed by her withdrawal. *)
Lemma credited_total_never_decreases_witness :
  leb (stored_credited two_depositors 5)
      (stored_credited (run_from default_config two_depositors pass_then_withdraw) 5)
  = true.
Proof.
  exact (proj1 (credited_total_never_decreases default_config two_depositors
                  pass_then_withdraw two_depositors_key) 5).
Defined.


(** Alice tips 5 to [@Bob]. *)
Lemma direct_tip_effect_witness :
  snd (cmd_tip default_config funded_state 200 Group 1
         (TipParsed (Direct "Bob") (Finite (mk 5 0))) 0) = Tipped (mk 5 0).
Proof.
  apply (direct_tip_effect default_config funded_state 200 Group 1 0%nat alice
           (mk 5 0) "Bob" 2).
  - reflexivity.
  - exact funded_state_wf.
  - vm_compute. reflexivity.
  - reflexivity.
  - unfold eight_dp. simpl. lia.
  - simpl. lia.
  - reflexivity.
  - reflexivity.
  - lia.
Defined.

(** Alice tips 5 to [@ALICE]. *)
Lemma tip_to_oneself_witness :
  snd (cmd_tip default_config funded_state 200 Group 1
         (TipParsed (Direct "ALICE") (Finite (mk 5 0))) 0) = Tipped (mk 5 0).
Proof.
  apply (tip_to_oneself_changes_no_balance default_config funded_state 200
           Group 1 0%nat alice (mk 5 0) "ALICE").
  - reflexivity.
  - exact funded_state_wf.
  - vm_compute. reflexivity.
  - reflexivity.
  - unfold eight_dp. simpl. lia.
  - simpl. lia.
  - reflexivity.
  - reflexivity.
Defined.

(** Alice's lucky tip of 5 while Bob and Carol are active. *)
Lemma lucky_tip_effect_witness :
  exists rid,
    rid <> 1 /\
    snd (cmd_tip default_config funded_state 200 Group 1
           (TipParsed Lucky (Finite (mk 5 0))) 1) = Tipped (mk 5 0) /\
    units (stored_balance
             (fst (cmd_tip default_config funded_state 200 Group 1
                     (TipParsed Lucky (Finite (mk 5 0))) 1)) rid)
    = units (stored_balance funded_state rid) + units (mk 5 0).
Proof.
  destruct (lucky_tip_effect default_config funded_state 200 Group 1 1%nat
              alice (mk 5 0)) as (rid & A & _ & B & _ & C & _).
  - reflexivity.
  - exact funded_state_wf.
  - vm_compute. reflexivity.
  - reflexivity.
  - unfold eight_dp. simpl. lia.
  - simpl. lia.
  - reflexivity.
  - vm_compute. discriminate.
  - exists rid. repeat split; assumption.
Defined.

(** Alice's split tip of 5 between Bob and Carol. *)
Lemma split_tip_in_range_witness :
  snd (cmd_tip default_config funded_state 200 Group 1
         (TipParsed Active (Finite (mk 5 0))) 0)
  = TippedActive
      (List.length (other_active default_config funded_state 200 1))
      (mk (units (mk 5 0) /
           Z.of_nat (List.length (other_active default_config funded_state 200 1)))
          (-8)).
Proof.
  apply (split_tip_in_range default_config funded_state 200 Group 1 0%nat alice
           (mk 5 0)).
  - reflexivity.
  - exact funded_state_wf.
  - vm_compute. reflexivity.
  - reflexivity.
  - unfold eight_dp. simpl. lia.
  - simpl. lia.
  - vm_compute. reflexivity.
  - reflexivity.
  - vm_compute. discriminate.
Defined.

(** Alice tips and withdraws -5. *)
Lemma unusable_amounts_move_nothing_witness :
  cmd_tip default_config funded_state 200 Group 1
    (TipParsed Active (Finite (mk (-5) 0))) 0
  = (funded_state, AmountMustBePositive).
Proof.
  apply (unusable_amounts_move_nothing default_config funded_state 200 1
           "alice" alice Active (Finite (mk (-5) 0)) "dest" (Some "tx1"%string)
           0%nat).
  - reflexivity.
  - simpl. lia.
Defined.

(** Id 9 has no account in the funded tables. *)
Lemma updates_of_a_missing_account_witness :
  db_update_balance funded_state 9 (mk 5 0) = funded_state.
Proof.
  apply (updates_of_a_missing_account_do_nothing funded_state 9).
  reflexivity.
Defined.

(** Bob, who has no address yet, starts and then asks for his deposit
    address while the node would hand out another one. *)
Lemma start_then_deposit_witness :
  snd (cmd_deposit
         (fst (cmd_start funded_state 200 Private 2 "bob" (Some "addrB"%string)))
         300 Private 2 "bob" (Some "addrC"%string))
  = DepositText "addrB".
Proof.
  apply (start_then_deposit_show_one_address funded_state 200 300 2 "bob" "bob"
           "addrB" (Some "addrC"%string)).
  - discriminate.
  - left. reflexivity.
Defined.

(** A newcomer writes in a group at time 200; Alice tips at time 2000. *)
Lemma group_messages_make_recipients_witness :
  In 7 (other_active default_config
          (fst (mark_active funded_state 200 Group (Some (7, "greg"%string, false))))
          2000 1).
Proof.
  apply (group_messages_make_recipients default_config funded_state 200 Group 7
           "greg").
  - reflexivity.
  - lia.
  - simpl. lia.
Defined.

(** Bob claims at time 10000 and asks again at time 17150: 50 seconds are
    left and the answer says 0 minutes. *)
Lemma faucet_wait_is_rounded_down_witness :
  snd (cmd_faucet default_config after_bobs_claim 17150 17150 17150 2 "bob")
  = FaucetAvailableIn 0 /\
  60 * 0 <= FAUCET_INTERVAL default_config
            - (17150 - stored_last_faucet after_bobs_claim 2) < 60 * 0 + 60.
Proof.
  assert (R : snd (cmd_faucet default_config after_bobs_claim 17150 17150 17150
                     2 "bob")
              = FaucetAvailableIn 0) by reflexivity.
  split; [exact R|].
  exact (proj1 (proj2 (proj2 (faucet_wait_is_rounded_down default_config
                                after_bobs_claim 17150 17150 17150 2 "bob" 0 R)))).
Defined.

(** 1.5 coins. *)
Lemma fmt_amt_plain_witness : fmt_amt (mk 15 (-1)) = Some "1.5"%string.
Proof.
  apply (fmt_amt_plain (mk 15 (-1))).
  - simpl. lia.
  - vm_compute. discriminate.
  - vm_compute. reflexivity.
Defined.

(** The balance left by withdrawing everything. *)
Lemma fmt_amt_small_amounts_witness :
  exists s, fmt_amt (sub (mk 500000000 (-8)) (mk 500000000 (-8))) = Some s /\
            contains "E" s = true.
Proof.
  apply (fmt_amt_small_amounts_use_exponent
           (sub (mk 500000000 (-8)) (mk 500000000 (-8)))).
  - vm_compute. split; [discriminate | reflexivity].
  - vm_compute. discriminate.
  - vm_compute. reflexivity.
Defined.

(** A faucet that opens every 90 minutes is announced as "90 hours". *)
Lemma faucet_period_announced_witness :
  faucet_period ninety_minute_faucet = (90, Hours).
Proof.
  apply (faucet_period_announced ninety_minute_faucet).
  - simpl. lia.
  - simpl. lia.
  - vm_compute. discriminate.
Defined.

(** The node hands out [addr1] and then [addr2]. *)
Lemma faucetinfo_reads_a_second_address_witness :
  fst (cmd_faucetinfo default_config Group (Some "addr1"%string)
         (Some "addr2"%string) (fun _ => Some (mk 50 0)))
  = [NewFaucetAddress; NewFaucetAddress;
     ReceivedByAddress "addr2" (MIN_CONF default_config)].
Proof.
  apply (faucetinfo_reads_a_second_address default_config Group "addr1" "addr2"
           (fun _ => Some (mk 50 0)) (fun _ => Some (mk 50 0))).
  reflexivity.
Defined.

(** Bob's first claim, at time 10000. *)
Lemma faucet_claim_in_range_witness :
  units (stored_balance
           (fst (cmd_faucet default_config funded_state 10000 10001 10002 2
                   "bob")) 2)
  = units (stored_balance funded_state 2) + units (FAUCET_AMOUNT default_config).
Proof.
  refine (proj1 (faucet_claim_in_range default_config funded_state 10000 10001
                   10002 2 "bob" _ _ _ _)).
  - split; [unfold eight_dp; simpl; lia | simpl; lia].
  - split; [unfold eight_dp; simpl; lia | simpl; lia].
  - vm_compute. reflexivity.
  - vm_compute. discriminate.
Defined.

(** Alice's row with a reading of 75 over her watermark of 50. *)
Lemma credit_in_range_witness :
  units (stored_balance
           (apply_credit funded_state 200 (row_of alice "addrA") (mk 75 0)) 1)
  = units (balance alice) + (units (mk 75 0) - units (credited_total alice)).
Proof.
  assert (A : amount_ok (balance alice))
    by (split; [unfold eight_dp; simpl; lia | simpl; lia]).
  assert (Ec : eight_dp (credited_total alice)) by (unfold eight_dp; simpl; lia).
  assert (Et : eight_dp (mk 75 0)) by (unfold eight_dp; simpl; lia).
  assert (B : units (balance alice) + units (mk 75 0)
              - units (credited_total alice) < 10 ^ 18)
    by (vm_compute; reflexivity).
  pose proof (credit_in_range funded_state 200 1 alice "addrA" (mk 75 0)
                eq_refl A Ec Et B) as H.
  cbv zeta in H.
  change (units (credited_total alice) <? units (mk 75 0)) with true in H.
  cbv iota in H. exact (proj1 H).
Defined.

(** Erin's row in the interleaved pass: the step finds the balance 0 her
    withdrawal left and writes the 15 of the snapshot's 10 plus 5. *)
Lemma scanner_credits_from_its_snapshot_witness :
  stored_balance
    (scan_step default_config wallet_reports_5_and_15 202
       erin_withdraws_mid_pass (row_of erin "addrE")) 5
  = add (mk 10 0) (sub (mk 15 0) (mk 10 0)).
Proof.
  apply (scanner_credits_from_its_snapshot default_config
           wallet_reports_5_and_15 202 erin_withdraws_mid_pass
           (row_of erin "addrE")
           (set_balance (sub (mk 10 0) (mk 10 0))
              (set_username_active "erin" 201 erin))
           (mk 15 0)).
  - reflexivity.
  - reflexivity.
  - reflexivity.
Defined.
